(** * Skeleton merge of JrSkeletalMergingLibrary: model and properties

    The development embeds the bone-hierarchy part of
    [Source/JrSkeletalMeshMerger/Private/JrSkeletalMergingLibrary.cpp]:
    the helper structure [FMergedBoneHierarchy] (AddBone, PopulateSkeleton,
    RecursiveAddBones) and the orchestration function
    [UJrSkeletalMergingLibrary::MergeSkeletons] with the socket fold and
    [AddSockets].  Further parts embed the functions around the merge: the
    bone-name checks ([BoneNameCheck], [ModifySameBoneName],
    [MergeSkeletal]) and the duplicate report of [MergeMeshes]; the queries
    on the blueprint of an actor class ([GetNodesByClass],
    [GetSkeletalNodesByClass], [GetSkeletalMeshByClass],
    [CreateComponentsByNode]); and the material layers
    ([GetMaterialLayers], [AddMaterialLayer], [UpdateMaterialLayers]).

    Conventions of the embedding
    - [FName] is the string it prints as, compared character by character;
      [NAME_None] prints as "None".  [FString::operator/] is engine code: on
      a left operand that does not end with a separator, as bone names are
      taken to be, it joins its operands with one "/".
    - Every blueprint node handed to the merge has a skeletal mesh component
      as template, with a mesh asset (lines 876 and 955-958 dereference both
      without a test).
    - 32-bit hashes and array indices are integers ([Z]); [INDEX_NONE] is -1.
    - [TMap] used for lookup only is a [gmap]; a [TSet<FName>] is a
      duplicate-free list in insertion order; the socket map, whose
      iteration order reaches the output, is an association list.
    - Engine services that the file calls but does not define (the hash
      functions, the transform arithmetic, pose comparison) are the fields
      of the class [Engine]; every statement holds for any instance.
    - A failed [check]/[FindChecked], an out-of-range array access and the
      use of a pointer that was never set are the outcome [Crash]. *)

From Stdlib Require Import ZArith Lia.
From stdpp Require Import base option gmap strings numbers list.

Local Open Scope Z_scope.

(** ** Outcomes of a call *)

Inductive result (A : Type) : Type :=
| Ok (a : A)
| Crash
| OutOfFuel.
Arguments Ok {A} a.
Arguments Crash {A}.
Arguments OutOfFuel {A}.

#[global] Instance result_ret : MRet result := fun _ a => Ok a.
#[global] Instance result_bind : MBind result := fun _ _ f m =>
  match m with
  | Ok a => f a
  | Crash => Crash
  | OutOfFuel => OutOfFuel
  end.

(** [FindChecked], [operator[]] on a [TArray]: the value, or a failed check. *)
Definition checked {A : Type} (o : option A) : result A :=
  match o with
  | Some a => Ok a
  | None => Crash
  end.

(** Left-to-right loop over a container whose body can fail. *)
Fixpoint foldM {A B : Type} (f : B -> A -> result B) (l : list A) (b : B)
  : result B :=
  match l with
  | [] => Ok b
  | x :: l' =>
      match f b x with
      | Ok b' => foldM f l' b'
      | Crash => Crash
      | OutOfFuel => OutOfFuel
      end
  end.

(** ** Names, indices, transforms *)

Definition FName : Type := string.
Definition NAME_None : FName := "None"%string.
Definition IsNone (n : FName) : bool := bool_decide (n = NAME_None).

Definition INDEX_NONE : Z := -1.

(** [FString::operator/]: concatenation with a path separator. *)
Definition PathCombine (a b : string) : string :=
  String.append a (String.append "/" b).

(** [Bone.Name.ToString() / "1"], the name under which a source bone is
    entered into every table of the merge. *)
Definition Slash1 (n : FName) : FName := PathCombine n "1".

(** [uint32] view of an [int32], and back (two's complement). *)
Definition to_uint32 (i : Z) : Z := i mod 2 ^ 32.
Definition to_int32 (u : Z) : Z :=
  let m := u mod 2 ^ 32 in if decide (m < 2 ^ 31) then m else m - 2 ^ 32.

(** [TArray::IsValidIndex] and [TArray::operator[]]. *)
Definition IsValidIndex {A : Type} (l : list A) (i : Z) : bool :=
  bool_decide (0 <= i < Z.of_nat (length l)).
Definition ArrayAt {A : Type} (l : list A) (i : Z) : result A :=
  if IsValidIndex l i then checked (l !! Z.to_nat i) else Crash.

Record FTransform {V Q : Type} : Type := MkTransform {
  Rotation : Q;
  Translation : V;
  Scale3D : V
}.
Arguments FTransform : clear implicits.
Arguments MkTransform {V Q} _ _ _.

#[global] Instance FTransform_eq_dec {V Q : Type} `{EqDecision V, EqDecision Q}
  : EqDecision (FTransform V Q).
Proof. solve_decision. Defined.

(** The engine interface the merge relies on. *)
Class Engine : Type := {
  FVector : Type;
  FQuat : Type;
  FRotator : Type;
  (** [HashCombine(uint32, uint32)] and [GetTypeHash(FName)] *)
  HashCombine : Z -> Z -> Z;
  GetTypeHash : FName -> Z;
  (** [FTransform::TransformPosition], [FTransform::TransformRotation] *)
  TransformPosition : FTransform FVector FQuat -> FVector -> FVector;
  TransformRotation : FTransform FVector FQuat -> FQuat -> FQuat;
  (** [FTransform::Equals] with its default tolerance *)
  TransformEquals : FTransform FVector FQuat -> FTransform FVector FQuat -> bool
}.

Section Model.
Context `{E : Engine}.

Abbreviation Pose := (FTransform FVector FQuat).

Definition SetLocation (t : Pose) (v : FVector) : Pose :=
  MkTransform (Rotation t) v (Scale3D t).
Definition SetRotation (t : Pose) (q : FQuat) : Pose :=
  MkTransform q (Translation t) (Scale3D t).

Record FMeshBoneInfo : Type := MkBoneInfo {
  Name : FName;
  ExportName : string;
  ParentIndex : Z
}.

Record FReferenceSkeleton : Type := MkRefSkeleton {
  RawRefBoneInfo : list FMeshBoneInfo;
  RawRefBonePose : list Pose
}.

Definition EmptyRefSkeleton : FReferenceSkeleton := MkRefSkeleton [] [].

(** [FReferenceSkeleton::FindBoneIndex] (also reached through the
    modifier): position of the bone of that name, or [INDEX_NONE]. *)
Definition FindBoneIndex (S : FReferenceSkeleton) (n : FName) : Z :=
  match list_find (fun b => Name b = n) (RawRefBoneInfo S) with
  | Some (i, _) => Z.of_nat i
  | None => INDEX_NONE
  end.

(** [FReferenceSkeletonModifier::Add], which is [FReferenceSkeleton::Add]
    (engine code): the bone and its pose are appended.  The function
    checks that the skeleton holds no bone of that name yet, and that the
    parent index is [INDEX_NONE] for the first bone and the index of an
    earlier bone for any other; a failed check is a [Crash].  It also
    renormalises the rotation of the pose it stores, as was done to the
    reference poses of the sources when their skeletons were built; the
    rotations of the model are abstract, and the pose is stored as it is. *)
Definition ModifierAdd (BoneInfo : FMeshBoneInfo) (BonePose : Pose)
    (S : FReferenceSkeleton) : result FReferenceSkeleton :=
  let BoneIndex := Z.of_nat (length (RawRefBoneInfo S)) in
  if decide (FindBoneIndex S (Name BoneInfo) = INDEX_NONE) then
    if decide ((BoneIndex = 0 /\ ParentIndex BoneInfo = INDEX_NONE) \/
               (0 < BoneIndex /\ 0 <= ParentIndex BoneInfo < BoneIndex))
    then Ok (MkRefSkeleton (RawRefBoneInfo S ++ [BoneInfo]) (RawRefBonePose S ++ [BonePose]))
    else Crash
  else Crash.

(** ** FMergedBoneHierarchy *)

(** [TSet<FName>::Add] *)
Definition TSetAdd (n : FName) (s : list FName) : list FName :=
  if decide (n ∈ s) then s else s ++ [n].

Record FMergedBoneHierarchy : Type := MkHierarchy {
  (** Reference pose transform for given bone name *)
  BoneNamePose : gmap FName Pose;
  (** Accumulated hierarchy hash from bone to root bone *)
  PathToBoneNames : gmap FName Z;
  (** Set of child bones for given hierarchy hash *)
  PathHashToBoneNames : gmap Z (list FName)
}.

Definition EmptyHierarchy : FMergedBoneHierarchy := MkHierarchy ∅ ∅ ∅.

Definition AddBone (BoneName : FName) (ReferencePose : Pose) (PathHash : Z)
    (H : FMergedBoneHierarchy) : FMergedBoneHierarchy :=
  let BoneHash := GetTypeHash BoneName in
  MkHierarchy
    (<[BoneName := ReferencePose]> (BoneNamePose H))
    (<[BoneName := HashCombine PathHash BoneHash]> (PathToBoneNames H))
    (<[PathHash := TSetAdd BoneName (default [] (PathHashToBoneNames H !! PathHash))]>
       (PathHashToBoneNames H)).

Definition GetReferencePose (H : FMergedBoneHierarchy) (InName : FName) : result Pose :=
  checked (BoneNamePose H !! InName).
Definition GetBonePathHash (H : FMergedBoneHierarchy) (InName : FName) : result Z :=
  checked (PathToBoneNames H !! InName).
Definition FindChildBonesForPath (H : FMergedBoneHierarchy) (InPath : Z)
  : option (list FName) := PathHashToBoneNames H !! InPath.
Definition GetChildBonesForPath (H : FMergedBoneHierarchy) (InPath : Z)
  : result (list FName) := checked (PathHashToBoneNames H !! InPath).

(** The recursion of the source has no bound of its own; [fuel] bounds its
    depth in the model. *)
Fixpoint RecursiveAddBones (fuel : nat) (H : FMergedBoneHierarchy)
    (SkeletonModifier : FReferenceSkeleton) (ParentBoneName : FName)
  : result FReferenceSkeleton :=
  match fuel with
  | O => OutOfFuel
  | S fuel' =>
      PathHash ← GetBonePathHash H ParentBoneName;
      match FindChildBonesForPath H PathHash with
      | Some BoneNames =>
          foldM (fun M ChildBoneName =>
                   let BoneInfo := MkBoneInfo ChildBoneName ChildBoneName
                                     (FindBoneIndex M ParentBoneName) in
                   ChildPose ← GetReferencePose H ChildBoneName;
                   M1 ← ModifierAdd BoneInfo ChildPose M;
                   RecursiveAddBones fuel' H M1 ChildBoneName)
                BoneNames SkeletonModifier
      | None => Ok SkeletonModifier
      end
  end.

Definition RootParentHash : Z := HashCombine 0 0.

Definition PopulateSkeleton (fuel : nat) (H : FMergedBoneHierarchy)
    (SkeletonModifier : FReferenceSkeleton) : result FReferenceSkeleton :=
  (* Root bone is always parented to 0 hash data entry *)
  ChildBoneNames ← GetChildBonesForPath H RootParentHash;
  RootBoneName ← ArrayAt ChildBoneNames 0;
  let BoneInfo := MkBoneInfo RootBoneName RootBoneName INDEX_NONE in
  RootPose ← GetReferencePose H RootBoneName;
  Modifier1 ← ModifierAdd BoneInfo RootPose SkeletonModifier;
  RecursiveAddBones fuel H Modifier1 RootBoneName.

(** ** Assets and blueprint nodes read by the merge *)

Record USkeletalMeshSocket : Type := MkSocket {
  SocketName : FName;
  BoneName : FName;
  RelativeLocation : FVector;
  RelativeRotation : FRotator;
  RelativeScale : FVector;
  bForceAlwaysAnimated : bool
}.

(** A [USkeleton] object. [Address] stands for the identity of the object:
    two [TObjectPtr<USkeleton>] are equal when they hold the same address;
    a null pointer is [None]. *)
Record USkeleton : Type := MkSkeleton {
  Address : N;
  GetName : string;
  ReferenceSkeleton : FReferenceSkeleton;
  Sockets : list USkeletalMeshSocket
}.

Record USkeletalMesh : Type := MkMesh {
  (** [GetSkeleton()], as an address *)
  MeshSkeleton : option N;
  (** [GetRefSkeleton()] of the mesh asset *)
  RefSkeleton : FReferenceSkeleton
}.

Record USkeletalMeshComponent : Type := MkComponent {
  ComponentId : N;
  (** [GetSkeletalMeshAsset()], also returned by [GetSkinnedAsset()] *)
  SkeletalMeshAsset : USkeletalMesh;
  (** [GetRelativeTransform()] *)
  RelativeTransform : Pose
}.

Record USCS_Node : Type := MkNode {
  ComponentTemplate : USkeletalMeshComponent;
  AttachToName : FName;
  (** [ComponentTemplate] of each node of [GetChildNodes()], by identity *)
  ChildNodes : list N
}.

Record FSkeletonMergeParams : Type := MkParams {
  SkeletonsToMerge : list (option USkeleton);
  bMergeSockets : bool;
  bMergeVirtualBones : bool;
  bMergeCurveNames : bool;
  bMergeBlendProfiles : bool;
  bMergeAnimSlotGroups : bool;
  bCheckSkeletonsCompatibility : bool
}.

(** The two messages of the bone loop (lines 931 and 939). *)
Inductive LogLine : Type :=
| LogInvalidBoneChain (SkeletonName : string)
| LogDifferentReferencePose (SkeletonName : string).

(** ** MergeSkeletons: the local variables that live across the loops *)

Record MergeState : Type := MkState {
  MergedBoneHierarchy : FMergedBoneHierarchy;
  (** Accumulated hierarchy hash from parent-bone to root bone *)
  BoneNamesToPathHash : gmap FName Z;
  (** Bone name to bone pose *)
  BoneNamesToBonePose : gmap FName Pose;
  (** Combined bone and socket name hash *)
  HashToSockets : list (Z * USkeletalMeshSocket);
  bMergeSkeletonsFailed : bool;
  (** [USCS_Node* BoneNode] is declared in the bone loop without an
      initialiser and is assigned only when a secondary root bone finds its
      node; it is read for every bone of a secondary skeleton.  The model
      keeps the last value assigned (what the unoptimised build of this
      file does) and makes a read before any assignment a [Crash]. *)
  BoneNode : option USCS_Node;
  Log : list LogLine
}.

Definition InitialState (NumExpectedBones : Z) : MergeState :=
  MkState EmptyHierarchy ∅ ∅ [] false None [].

(** [TMap<uint32, V>::Add]: the value of an existing key is replaced where
    it stands, a new key goes to the end. *)
Fixpoint TMapAdd {V : Type} (k : Z) (v : V) (m : list (Z * V)) : list (Z * V) :=
  match m with
  | [] => [(k, v)]
  | (k', v') :: m' =>
      if decide (k' = k) then (k, v) :: m' else (k', v') :: TMapAdd k v m'
  end.

(** [TMap::Find] *)
Fixpoint TMapFind {V : Type} (k : Z) (m : list (Z * V)) : option V :=
  match m with
  | [] => None
  | (k', v') :: m' => if decide (k' = k) then Some v' else TMapFind k m'
  end.

(** [TMap::GenerateValueArray] *)
Definition GenerateValueArray {V : Type} (m : list (Z * V)) : list V := m.*2.

(** [TArray::AddUnique] on object pointers *)
Definition SamePtr (a b : option USkeleton) : Prop :=
  Address <$> a = Address <$> b.

#[global] Instance SamePtr_dec a b : Decision (SamePtr a b).
Proof. unfold SamePtr. apply _. Defined.

Definition AddUnique (p : option USkeleton) (l : list (option USkeleton))
  : list (option USkeleton) :=
  if decide (Exists (SamePtr p) l) then l else l ++ [p].

(** The node of the blueprint whose mesh component uses [Skeleton]. *)
Definition NodeUsesSkeleton (Skeleton : USkeleton) (Node : USCS_Node) : Prop :=
  MeshSkeleton (SkeletalMeshAsset (ComponentTemplate Node)) = Some (Address Skeleton).

#[global] Instance NodeUsesSkeleton_dec S Node : Decision (NodeUsesSkeleton S Node).
Proof. unfold NodeUsesSkeleton. apply _. Defined.

Definition HasChildTemplate (Node Node1 : USCS_Node) : Prop :=
  ComponentId (ComponentTemplate Node) ∈ ChildNodes Node1.

#[global] Instance HasChildTemplate_dec Node Node1 : Decision (HasChildTemplate Node Node1).
Proof. unfold HasChildTemplate. apply _. Defined.

(** Lines 885-902: the parent mesh component's first bone, when the attach
    name is none. *)
Definition ParentComponentRootName (SkeletalNodes : list USCS_Node)
    (Node : USCS_Node) (ParentName : FName) : result FName :=
  match list_find (HasChildTemplate Node) SkeletalNodes with
  | Some (_, Node1) =>
      b ← ArrayAt (RawRefBoneInfo (RefSkeleton (SkeletalMeshAsset (ComponentTemplate Node1)))) 0;
      Ok (Name b)
  | None => Ok ParentName
  end.

(** Lines 872-909: parent name and hash of a secondary skeleton's root. *)
Definition ResolveAttachment (SkeletalNodes : list USCS_Node) (Skeleton : USkeleton)
    (ParentName : FName) (ParentHash : Z) (BoneNode0 : option USCS_Node)
  : result (option USCS_Node * FName * Z) :=
  match list_find (NodeUsesSkeleton Skeleton) SkeletalNodes with
  | Some (_, Node) =>
      let ParentName1 := Slash1 (AttachToName Node) in
      ParentName2 ← (if IsNone ParentName1
                     then ParentComponentRootName SkeletalNodes Node ParentName1
                     else Ok ParentName1);
      Ok (Some Node, ParentName2, GetTypeHash ParentName2)
  | None => Ok (BoneNode0, ParentName, ParentHash)
  end.

(** Lines 951-981: the transform handed to [AddBone]. *)
Definition GraftTransform (SkeletonIndex : nat) (Bone : FMeshBoneInfo)
    (BoneIndex : nat) (Bone_Name : FName) (BoneNode0 : option USCS_Node)
    (SourcePose : Pose) : result Pose :=
  if decide (0 < SkeletonIndex)%nat then
    Node ← checked BoneNode0;
    let SkelMeshComponent := ComponentTemplate Node in
    let SkelMesh := SkeletalMeshAsset SkelMeshComponent in
    let RefPose := RawRefBonePose (RefSkeleton SkelMesh) in
    let Index := to_uint32 (FindBoneIndex (RefSkeleton SkelMesh) Bone_Name) in
    if IsValidIndex RefPose (to_int32 Index) then
      BoneRelativeTransform ← ArrayAt RefPose (to_int32 Index);
      if decide (ParentIndex Bone = INDEX_NONE) then
        let MeshRelativeTransform := RelativeTransform SkelMeshComponent in
        BoneWorldTransform ← ArrayAt (RawRefBonePose (RefSkeleton SkelMesh)) 0;
        let T1 := SetLocation SourcePose
                    (TransformPosition MeshRelativeTransform (Translation BoneWorldTransform)) in
        Ok (SetRotation T1
              (TransformRotation MeshRelativeTransform (Rotation BoneWorldTransform)))
      else if decide (0 < BoneIndex)%nat then
        Ok (SetRotation (SetLocation SourcePose (Translation BoneRelativeTransform))
              (Rotation BoneRelativeTransform))
      else Ok SourcePose
    else Ok SourcePose
  else Ok SourcePose.

(** Lines 866-909: the parent name and parent hash of a bone, and the
    node found for a secondary root. *)
Definition BoneParent (SkeletalNodes : list USCS_Node) (SkeletonIndex : nat)
    (Skeleton : USkeleton) (Bone : FMeshBoneInfo) (BoneNode0 : option USCS_Node)
  : result (option USCS_Node * FName * Z) :=
  let Bones := RawRefBoneInfo (ReferenceSkeleton Skeleton) in
  (* root-bone is assumed to have a parent hash of 0 *)
  ParentName0 ← (if decide (ParentIndex Bone ≠ INDEX_NONE)
                 then b ← ArrayAt Bones (ParentIndex Bone); Ok (Name b)
                 else Ok NAME_None);
  let ParentName1 := Slash1 ParentName0 in
  let ParentHash1 := if decide (ParentIndex Bone ≠ INDEX_NONE)
                     then GetTypeHash ParentName1 else 0 in
  if decide ((0 < SkeletonIndex)%nat ∧ ParentIndex Bone = INDEX_NONE)
  then ResolveAttachment SkeletalNodes Skeleton ParentName1 ParentHash1 BoneNode0
  else Ok (BoneNode0, ParentName1, ParentHash1).

Inductive Compatibility : Type :=
| Incompatible
| Compatible (bConflictivePoseFound : bool) (Poses : gmap FName Pose)
    (log : list LogLine).

(** Lines 921-945: the check made when [bCheckSkeletonsCompatibility] is
    set, with the update of [BoneNamesToBonePose]. *)
Definition CheckCompatibility (Params : FSkeletonMergeParams) (Skeleton : USkeleton)
    (BoneIndex : nat) (Bone_Name : FName) (BonePathHash : Z)
    (bConflictivePoseFound : bool) (st : MergeState) : result Compatibility :=
  let BonePoses := RawRefBonePose (ReferenceSkeleton Skeleton) in
  if bCheckSkeletonsCompatibility Params then
    c ← match BoneNamesToPathHash st !! Bone_Name with
        | Some ExistingPathHash =>
            (* If the hash differs from the existing one it means skeletons
               are incompatible *)
            if decide (ExistingPathHash ≠ BonePathHash) then Ok None
            else if negb bConflictivePoseFound then
              Existing ← checked (BoneNamesToBonePose st !! Bone_Name);
              SourcePose ← ArrayAt BonePoses (Z.of_nat BoneIndex);
              if negb (TransformEquals Existing SourcePose)
              then Ok (Some (true, Log st ++ [LogDifferentReferencePose (GetName Skeleton)]))
              else Ok (Some (bConflictivePoseFound, Log st))
            else Ok (Some (bConflictivePoseFound, Log st))
        | None => Ok (Some (bConflictivePoseFound, Log st))
        end;
    match c with
    | None => Ok Incompatible
    | Some (bConflict, log) =>
        SourcePose ← ArrayAt BonePoses (Z.of_nat BoneIndex);
        Ok (Compatible bConflict (<[Bone_Name := SourcePose]> (BoneNamesToBonePose st)) log)
    end
  else Ok (Compatible bConflictivePoseFound (BoneNamesToBonePose st) (Log st)).

Inductive LoopCtl : Type :=
| Continue (bConflictivePoseFound : bool) (st : MergeState)
| Break (st : MergeState).

(** Lines 864-983: the body of the bone loop. *)
Definition MergeBone (Params : FSkeletonMergeParams) (SkeletalNodes : list USCS_Node)
    (SkeletonIndex : nat) (Skeleton : USkeleton) (BoneIndex : nat)
    (bConflictivePoseFound : bool) (st : MergeState) : result LoopCtl :=
  let Bones := RawRefBoneInfo (ReferenceSkeleton Skeleton) in
  let BonePoses := RawRefBonePose (ReferenceSkeleton Skeleton) in
  Bone ← ArrayAt Bones (Z.of_nat BoneIndex);
  '(BoneNode1, ParentName, ParentHash) ←
     BoneParent SkeletalNodes SkeletonIndex Skeleton Bone (BoneNode st);
  let Bone_Name := Slash1 (Name Bone) in
  (* Look-up the path-hash from root to the parent bone *)
  let ParentPathHash := default 0 (BoneNamesToPathHash st !! ParentName) in
  (* Append parent hash to path to give full path hash to current bone *)
  let BonePathHash := HashCombine ParentPathHash ParentHash in
  c ← CheckCompatibility Params Skeleton BoneIndex Bone_Name BonePathHash
        bConflictivePoseFound st;
  match c with
  | Incompatible =>
      Ok (Break (MkState (MergedBoneHierarchy st) (BoneNamesToPathHash st)
                   (BoneNamesToBonePose st) (HashToSockets st) true BoneNode1
                   (Log st ++ [LogInvalidBoneChain (GetName Skeleton)])))
  | Compatible bConflict Poses log =>
      SourcePose ← ArrayAt BonePoses (Z.of_nat BoneIndex);
      Transform ← GraftTransform SkeletonIndex Bone BoneIndex Bone_Name BoneNode1 SourcePose;
      Ok (Continue bConflict
            (MkState (AddBone Bone_Name Transform BonePathHash (MergedBoneHierarchy st))
               (<[Bone_Name := BonePathHash]> (BoneNamesToPathHash st))
               Poses (HashToSockets st) (bMergeSkeletonsFailed st) BoneNode1 log))
  end.

(** Lines 862-984: [for (BoneIndex = 0; BoneIndex < NumBones; ++BoneIndex)]. *)
Fixpoint MergeBones (Params : FSkeletonMergeParams) (SkeletalNodes : list USCS_Node)
    (SkeletonIndex : nat) (Skeleton : USkeleton) (BoneIndices : list nat)
    (bConflictivePoseFound : bool) (st : MergeState) : result MergeState :=
  match BoneIndices with
  | [] => Ok st
  | BoneIndex :: rest =>
      c ← MergeBone Params SkeletalNodes SkeletonIndex Skeleton BoneIndex
            bConflictivePoseFound st;
      match c with
      | Continue bConflict st' =>
          MergeBones Params SkeletalNodes SkeletonIndex Skeleton rest bConflict st'
      | Break st' => Ok st'
      end
  end.

(** Lines 991-998 *)
Definition SocketHash (Socket : USkeletalMeshSocket) : Z :=
  HashCombine (GetTypeHash (SocketName Socket)) (GetTypeHash (BoneName Socket)).

Definition MergeSocketsOf (Skeleton : USkeleton)
    (m : list (Z * USkeletalMeshSocket)) : list (Z * USkeletalMeshSocket) :=
  foldl (fun m Socket => TMapAdd (SocketHash Socket) Socket m) m (Sockets Skeleton).

(** Lines 854-1038: the body of the skeleton loop.  Virtual bones, curve
    names, slot groups and blend profiles are folded into tables that no
    bone or socket computation reads; they are left out. *)
Definition MergeSkeleton (Params : FSkeletonMergeParams) (SkeletalNodes : list USCS_Node)
    (SkeletonIndex : nat) (SkeletonPtr : option USkeleton) (st : MergeState)
  : result MergeState :=
  Skeleton ← checked SkeletonPtr;
  let NumBones := length (RawRefBoneInfo (ReferenceSkeleton Skeleton)) in
  st1 ← MergeBones Params SkeletalNodes SkeletonIndex Skeleton (seq 0 NumBones) false st;
  if bCheckSkeletonsCompatibility Params && bMergeSkeletonsFailed st1 then Ok st1
  else if bMergeSockets Params then
    Ok (MkState (MergedBoneHierarchy st1) (BoneNamesToPathHash st1)
          (BoneNamesToBonePose st1) (MergeSocketsOf Skeleton (HashToSockets st1))
          (bMergeSkeletonsFailed st1) (BoneNode st1) (Log st1))
  else Ok st1.

(** Lines 852-1039: [for (SkeletonIndex = 0; ...; ++SkeletonIndex)]. *)
Fixpoint MergeSkeletonsFrom (Params : FSkeletonMergeParams) (SkeletalNodes : list USCS_Node)
    (SkeletonIndex : nat) (ToMergeSkeletons : list (option USkeleton))
    (st : MergeState) : result MergeState :=
  match ToMergeSkeletons with
  | [] => Ok st
  | SkeletonPtr :: rest =>
      st' ← MergeSkeleton Params SkeletalNodes SkeletonIndex SkeletonPtr st;
      MergeSkeletonsFrom Params SkeletalNodes (S SkeletonIndex) rest st'
  end.

(** Lines 806-810: list of unique skeletons generated from input parameters *)
Definition UniqueSkeletons (Params : FSkeletonMergeParams) : list (option USkeleton) :=
  foldl (fun l p => AddUnique p l) [] (SkeletonsToMerge Params).

(** Lines 820-823 *)
Definition TotalPossibleBones (ToMergeSkeletons : list (option USkeleton)) : result Z :=
  foldM (fun Sum SkeletonPtr =>
           Skeleton ← checked SkeletonPtr;
           Ok (Sum + Z.of_nat (length (RawRefBoneInfo (ReferenceSkeleton Skeleton)))))
        ToMergeSkeletons 0.

(** Lines 1886-1904 *)
Definition AddSockets (InSkeleton : USkeleton) (InSockets : list USkeletalMeshSocket)
  : USkeleton :=
  foldl (fun Sk MergeSocket =>
           let NewSocket := MkSocket (SocketName MergeSocket) (BoneName MergeSocket)
                              (RelativeLocation MergeSocket) (RelativeRotation MergeSocket)
                              (RelativeScale MergeSocket) (bForceAlwaysAnimated MergeSocket) in
           MkSkeleton (Address Sk) (GetName Sk) (ReferenceSkeleton Sk)
             (Sockets Sk ++ [NewSocket]))
        InSkeleton InSockets.

(** [NewObject<USkeleton>()]: an object at an address not used by the inputs. *)
Definition NewObjectAddress (ToMergeSkeletons : list (option USkeleton)) : N :=
  N.succ (foldr N.max 0%N (omap (fmap Address) ToMergeSkeletons)).

(** The bone accumulation of [MergeSkeletons] (lines 806-1039), with the
    state it leaves; [None] when the function has already returned
    [nullptr] at line 816 or 828. *)
Definition AccumulateSkeletons (Params : FSkeletonMergeParams)
    (SkeletalNodes : list USCS_Node) : result (option MergeState) :=
  let ToMergeSkeletons := UniqueSkeletons Params in
  if decide (length ToMergeSkeletons = 0%nat) then Ok None
  else
    Total ← TotalPossibleBones ToMergeSkeletons;
    if decide (Total = 0) then Ok None
    else
      st ← MergeSkeletonsFrom Params SkeletalNodes 0 ToMergeSkeletons (InitialState Total);
      Ok (Some st).

(** [UJrSkeletalMergingLibrary::MergeSkeletons]; [Ok None] is the returned
    [nullptr]. *)
Definition MergeSkeletons (fuel : nat) (Params : FSkeletonMergeParams)
    (SkeletalNodes : list USCS_Node) : result (option USkeleton) :=
  acc ← AccumulateSkeletons Params SkeletalNodes;
  match acc with
  | None => Ok None
  | Some st =>
      if bMergeSkeletonsFailed st then Ok None
      else
        let GeneratedSkeleton :=
          MkSkeleton (NewObjectAddress (UniqueSkeletons Params)) EmptyString EmptyRefSkeleton [] in
        (* Generate bone hierarchy *)
        Ref ← PopulateSkeleton fuel (MergedBoneHierarchy st) EmptyRefSkeleton;
        let Sk1 := MkSkeleton (Address GeneratedSkeleton) (GetName GeneratedSkeleton) Ref [] in
        (* Merge sockets *)
        let Sk2 := if bMergeSockets Params
                   then AddSockets Sk1 (GenerateValueArray (HashToSockets st))
                   else Sk1 in
        Ok (Some Sk2)
  end.

End Model.

(** * Material layers of a material instance

    [AddMaterialLayer], [UpdateMaterialLayers] and [GetMaterialLayers]
    (lines 1659-1765).  A [UMaterialFunctionInterface*] is an optional
    address.  [Instance->GetMaterialLayers] reads and
    [Instance->SetMaterialLayers] writes the layer stack kept by the
    instance; the guid drawn by [FGuid::NewGuid()] is an argument. *)

Inductive EMaterialLayerLinkState : Type :=
| Uninitialized
| LinkedToParent
| UnlinkedFromParent
| NotFromParent.

(** [FText::Format(LOCTEXT("LayerPrefix", "Layer {0}"), Index)] *)
Inductive FText : Type :=
| LayerPrefix (Index : Z).

Class GuidEngine : Type := {
  FGuid : Type;
  FGuid_eq_dec :: EqDecision FGuid;
  (** [FMaterialLayersFunctions::BackgroundGuid] *)
  BackgroundGuid : FGuid
}.

Section MaterialLayers.
Context `{G : GuidEngine}.

Record FMaterialLayersFunctions : Type := MkLayers {
  Layers : list (option N);
  Blends : list (option N);
  (** the arrays of [EditorOnly] *)
  LayerStates : list bool;
  LayerNames : list FText;
  RestrictToLayerRelatives : list bool;
  RestrictToBlendRelatives : list bool;
  LayerGuids : list FGuid;
  LayerLinkStates : list EMaterialLayerLinkState
}.

Record UMaterialInstanceConstant : Type := MkMaterialInstance {
  MaterialLayers : FMaterialLayersFunctions;
  (** whether [FindEditorForAsset(Instance, false)] finds an editor *)
  bEditorOpen : bool;
  (** how often the editor of the asset was closed and opened again *)
  EditorReopened : nat
}.

(** [TArray::Last()], read and assigned *)
Definition Last {A : Type} (l : list A) : result A := checked (last l).
Definition SetLast {A : Type} (l : list A) (x : A) : result (list A) :=
  match l with
  | [] => Crash
  | _ :: _ => Ok (<[pred (length l) := x]> l)
  end.

(** Lines 1695-1702 and 1745-1752: an open editor of the asset is closed
    and opened again. *)
Definition ReopenEditor (Instance : UMaterialInstanceConstant) : UMaterialInstanceConstant :=
  if bEditorOpen Instance
  then MkMaterialInstance (MaterialLayers Instance) true (S (EditorReopened Instance))
  else Instance.

Definition GetMaterialLayers (Instance : option UMaterialInstanceConstant)
  : list (option N) :=
  match Instance with
  | Some Inst => Layers (MaterialLayers Inst)
  | None => []
  end.

Definition AddMaterialLayer (Instance : option UMaterialInstanceConstant)
    (MaterialLayer BlendLayer : option N) (bVisible : bool)
    (LinkState : EMaterialLayerLinkState) (NewGuid : FGuid)
  : option UMaterialInstanceConstant :=
  match Instance with
  | None => None
  | Some Inst =>
      let OutLayers := MaterialLayers Inst in
      let Layers1 := Layers OutLayers ++ [MaterialLayer] in
      let LayerName := LayerPrefix (Z.of_nat (length Layers1) - 1) in
      let OutLayers1 :=
        MkLayers Layers1
          (Blends OutLayers ++ [BlendLayer])
          (LayerStates OutLayers ++ [bVisible])
          (LayerNames OutLayers ++ [LayerName])
          (RestrictToLayerRelatives OutLayers ++ [false])
          (RestrictToBlendRelatives OutLayers ++ [false])
          (LayerGuids OutLayers ++ [NewGuid])
          (LayerLinkStates OutLayers ++ [LinkState]) in
      Some (ReopenEditor (MkMaterialInstance OutLayers1 (bEditorOpen Inst) (EditorReopened Inst)))
  end.

Definition UpdateMaterialLayers (Instance : option UMaterialInstanceConstant)
    (MaterialLayer BlendLayer : option N) (bVisible : bool)
    (LinkState : EMaterialLayerLinkState) (NewGuid : FGuid)
  : result (bool * option UMaterialInstanceConstant) :=
  match Instance with
  | None => Ok (false, None)
  | Some Inst =>
      let OutLayers := MaterialLayers Inst in
      let MaterialLayers0 := Layers OutLayers in
      if decide (0 < length MaterialLayers0)%nat then
        LastLayer ← Last MaterialLayers0;
        match LastLayer with
        | None =>
            LastGuid ← Last (LayerGuids OutLayers);
            OutLayers1 ←
              (if decide (LastGuid = BackgroundGuid) then
                 L ← SetLast (Layers OutLayers) MaterialLayer;
                 Ls ← SetLast (LayerLinkStates OutLayers) LinkState;
                 Ok (MkLayers L (Blends OutLayers) (LayerStates OutLayers)
                       (LayerNames OutLayers) (RestrictToLayerRelatives OutLayers)
                       (RestrictToBlendRelatives OutLayers) (LayerGuids OutLayers) Ls)
               else
                 L ← SetLast (Layers OutLayers) MaterialLayer;
                 B ← SetLast (Blends OutLayers) BlendLayer;
                 St ← SetLast (LayerStates OutLayers) bVisible;
                 let LayerName := LayerPrefix (Z.of_nat (length L) - 1) in
                 Nm ← SetLast (LayerNames OutLayers) LayerName;
                 Rl ← SetLast (RestrictToLayerRelatives OutLayers) false;
                 Rb ← SetLast (RestrictToBlendRelatives OutLayers) false;
                 Gd ← SetLast (LayerGuids OutLayers) NewGuid;
                 Ls ← SetLast (LayerLinkStates OutLayers) LinkState;
                 Ok (MkLayers L B St Nm Rl Rb Gd Ls));
            Ok (true, Some (ReopenEditor
                              (MkMaterialInstance OutLayers1 (bEditorOpen Inst)
                                 (EditorReopened Inst))))
        | Some _ =>
            if decide (LastLayer ≠ MaterialLayer)
            then Ok (true, AddMaterialLayer (Some Inst) MaterialLayer BlendLayer bVisible
                             LinkState NewGuid)
            else Ok (true, Some Inst)
        end
      else Ok (false, Some Inst)
  end.

End MaterialLayers.

(** * Queries on the blueprint of an actor class

    [GetNodesByClass<T>] (header, lines 44-67), [GetSkeletalNodesByClass]
    (lines 622-644), [GetSkeletalMeshByClass] (lines 1260-1290) and
    [CreateComponentsByNode] (lines 503-533).  These functions read more of
    a node than the merge does: the class of its component, a template
    that may be missing or of another class, whether it is a root node,
    and its child nodes; the nodes of this part carry them.  The actor
    class, the nodes of a construction script and the component class of a
    node are objects (none of them is a null pointer); the construction
    script of a generated class may be missing. *)

Module Blueprint.
Section Nodes.
Context `{E : Engine}.

(** A class of the reflection system: its name and the names of its super
    classes; [IsChildOf] holds for the class itself and for each of them. *)
Record UClass : Type := MkClass {
  ClassName : FName;
  SuperClasses : list FName
}.

Definition IsChildOf (C : UClass) (SomeBase : FName) : bool :=
  bool_decide (SomeBase ∈ ClassName C :: SuperClasses C).

(** [USkeletalMeshComponent::StaticClass()], [USceneComponent::StaticClass()] *)
Definition USkeletalMeshComponent_StaticClass : FName := "SkeletalMeshComponent"%string.
Definition USceneComponent_StaticClass : FName := "SceneComponent"%string.

Inductive UActorComponent : Type :=
| Skeletal (Component : USkeletalMeshComponent)
| NotSkeletal (Id : N).

(** [Cast<USkeletalMeshComponent>] *)
Definition CastSkeletalMeshComponent (Template : UActorComponent)
  : option USkeletalMeshComponent :=
  match Template with
  | Skeletal Component => Some Component
  | NotSkeletal _ => None
  end.

#[local] Unset Elimination Schemes.
Inductive USCS_Node : Type :=
| MkNode (ComponentClass : UClass) (ComponentTemplate : option UActorComponent)
    (IsRootNode : bool) (GetChildNodes : list USCS_Node).

#[local] Set Elimination Schemes.

Definition ComponentClass (Node : USCS_Node) : UClass :=
  match Node with MkNode c _ _ _ => c end.
Definition ComponentTemplate (Node : USCS_Node) : option UActorComponent :=
  match Node with MkNode _ t _ _ => t end.
Definition IsRootNode (Node : USCS_Node) : bool :=
  match Node with MkNode _ _ r _ => r end.
Definition GetChildNodes (Node : USCS_Node) : list USCS_Node :=
  match Node with MkNode _ _ _ l => l end.

(** An actor class: a native class, or a blueprint generated class with its
    super class and its construction script, given by [GetAllNodes()]; the
    script pointer of a generated class may be null. *)
Inductive UActorClass : Type :=
| NativeClass
| BlueprintGeneratedClass (GetSuperStruct : UActorClass)
    (SimpleConstructionScript : option (list USCS_Node)).

Fixpoint GetNodesByClass (T : FName) (ActorClass : UActorClass)
  : result (list USCS_Node) :=
  match ActorClass with
  | NativeClass => Ok []
  | BlueprintGeneratedClass ParentClass SimpleConstructionScript =>
      Nodes ← match ParentClass with
              | BlueprintGeneratedClass _ _ => GetNodesByClass T ParentClass
              | NativeClass => Ok []
              end;
      ActorBlueprintNodes ← checked SimpleConstructionScript;
      Ok (foldl (fun Nodes Node =>
                   if IsChildOf (ComponentClass Node) T then Nodes ++ [Node] else Nodes)
                Nodes ActorBlueprintNodes)
  end.

Fixpoint GetSkeletalNodesByClass (ActorClass : UActorClass) : result (list USCS_Node) :=
  match ActorClass with
  | NativeClass => Ok []
  | BlueprintGeneratedClass ParentClass SimpleConstructionScript =>
      SkeletalNodes ← match ParentClass with
                      | BlueprintGeneratedClass _ _ => GetSkeletalNodesByClass ParentClass
                      | NativeClass => Ok []
                      end;
      ActorBlueprintNodes ← checked SimpleConstructionScript;
      Ok (foldl (fun SkeletalNodes Node =>
                   if IsChildOf (ComponentClass Node) USkeletalMeshComponent_StaticClass
                   then SkeletalNodes ++ [Node] else SkeletalNodes)
                SkeletalNodes ActorBlueprintNodes)
  end.

(** [TArray::Swap], with its range check *)
Definition Swap {A : Type} (l : list A) (i j : Z) : result (list A) :=
  x ← ArrayAt l i;
  y ← ArrayAt l j;
  Ok (<[Z.to_nat j := x]> (<[Z.to_nat i := y]> l)).

Definition GetSkeletalMeshByClass (ActorClass : UActorClass)
  : result (list USkeletalMeshComponent) :=
  Nodes ← GetSkeletalNodesByClass ActorClass;
  r ← foldM (fun (st : bool * list USkeletalMeshComponent) Node =>
               let '(HasRoot, SkelMeshes) := st in
               match ComponentTemplate Node with
               | Some Template =>
                   match CastSkeletalMeshComponent Template with
                   | Some SkeletalMeshComponent =>
                       if negb HasRoot && IsRootNode Node then
                         let SkelMeshes1 := SkelMeshes ++ [SkeletalMeshComponent] in
                         (* the main skeleton has to be the first element *)
                         SkelMeshes2 ← Swap SkelMeshes1 0 (Z.of_nat (length SkelMeshes1) - 1);
                         Ok (true, SkelMeshes2)
                       else Ok (HasRoot, SkelMeshes ++ [SkeletalMeshComponent])
                   | None => Ok (HasRoot, SkelMeshes)
                   end
               | None => Ok (HasRoot, SkelMeshes)
               end)
            Nodes (false, []);
  Ok r.2.

(** One call of [FKismetEditorUtilities::AddComponentsToBlueprint]: the
    node given as new root and the components handed over. *)
Record FAddComponentsCall : Type := MkAddComponents {
  OptionalNewRootNode : USCS_Node;
  Components : list (option UActorComponent)
}.

(** The calls [CreateComponentsByNode] makes, in order. *)
Fixpoint CreateComponentsByNode (RootNode : USCS_Node) : list FAddComponentsCall :=
  match RootNode with
  | MkNode _ _ _ ChildNodes =>
      let Components :=
        foldl (fun Components ChildNode =>
                 if decide (length (GetChildNodes ChildNode) = 0%nat)
                 then Components ++ [ComponentTemplate ChildNode] else Components)
              [] ChildNodes in
      MkAddComponents RootNode Components ::
      (fix ForChildChildNodes (Nodes : list USCS_Node) : list FAddComponentsCall :=
         match Nodes with
         | [] => []
         | ChildNode :: Nodes' =>
             (if decide (length (GetChildNodes ChildNode) = 0%nat)
              then [] else CreateComponentsByNode ChildNode)
             ++ ForChildChildNodes Nodes'
         end) ChildNodes
  end.

End Nodes.
End Blueprint.

(** * Bone-name checks and the duplicate report

    [BoneNameCheck] (lines 646-743: the loop that compares the bones of a
    skeleton with the skeletons seen before it, lines 651-670),
    [ModifySameBoneName] (lines 745-770), [MergeSkeletal] (lines 772-801)
    and the duplicate report that ends [MergeMeshes] (lines 1223-1254). *)

Section BoneNames.
Context `{E : Engine}.

(** [TArray<FMeshBoneInfo>::Find]: the index of the first element equal to
    the item, or [INDEX_NONE]; [FMeshBoneInfo::operator==] compares the
    names of two bones and nothing else. *)
Definition FindBoneInfo (l : list FMeshBoneInfo) (Item : FMeshBoneInfo) : Z :=
  match list_find (fun b => Name b = Name Item) l with
  | Some (i, _) => Z.of_nat i
  | None => INDEX_NONE
  end.

(** Lines 664-665 and 759-760: the bone takes its name followed by "_" and
    the name of the skeleton object; the export name follows the name. *)
Definition RenameBone (SourceName : string) (BoneInfo : FMeshBoneInfo) : FMeshBoneInfo :=
  let Name1 := String.append (Name BoneInfo) (String.append "_" SourceName) in
  MkBoneInfo Name1 Name1 (ParentIndex BoneInfo).

(** Lines 651-670 of [BoneNameCheck]: [bRename] and [CurrentBoneInfo] of
    one skeleton of the list, from the skeletons that precede it. *)
Definition CheckAgainstCache (SkeletonsCache : list USkeleton) (SourceSkeleton : USkeleton)
  : bool * list FMeshBoneInfo :=
  foldl (fun (st : bool * list FMeshBoneInfo) Skeleton =>
           let LastBoneInfo := RawRefBoneInfo (ReferenceSkeleton Skeleton) in
           foldl (fun (st' : bool * list FMeshBoneInfo) BoneInfo =>
                    if decide (FindBoneInfo LastBoneInfo BoneInfo ≠ INDEX_NONE)
                    then (true, st'.2 ++ [RenameBone (GetName SourceSkeleton) BoneInfo])
                    else (st'.1, st'.2 ++ [BoneInfo]))
                 (st.1, []) st.2)
        (false, RawRefBoneInfo (ReferenceSkeleton SourceSkeleton)) SkeletonsCache.

(** The array is passed by reference and returned as the function leaves
    it; the renamed bones live in a copy that each round of the loop
    drops. *)
Definition ModifySameBoneName (Skeletons : list (option USkeleton))
  : result (list (option USkeleton)) :=
  _ ← foldM (fun (RootSkeleton SourceSkeleton : option USkeleton) =>
               match RootSkeleton with
               | Some _ =>
                   Source ← checked SourceSkeleton;
                   let CurrentBoneInfo := RawRefBoneInfo (ReferenceSkeleton Source) in
                   let LastBoneInfo := RawRefBoneInfo (ReferenceSkeleton Source) in
                   let CurrentBoneInfo1 :=
                     (fun BoneInfo =>
                        if decide (FindBoneInfo LastBoneInfo BoneInfo ≠ INDEX_NONE)
                        then RenameBone (GetName Source) BoneInfo else BoneInfo)
                     <$> CurrentBoneInfo in
                   Ok RootSkeleton
               | None => Ok SourceSkeleton
               end)
            Skeletons None;
  Ok Skeletons.

(** The message of line 783. *)
Inductive MergeSkeletalLog : Type :=
| LogMustProvideMultipleMeshes.

(** [MergeSkeletal] writes to none of its arguments and returns nothing:
    what it leaves behind is its log.  The mesh parameters are not read.
    [DuplicateObject] (line 790) assigns the copy to the loop variable,
    which the array does not see. *)
Definition MergeSkeletal (SkeletonMergeParams : FSkeletonMergeParams)
    (SkeletalNodes : list USCS_Node) : result (list MergeSkeletalLog) :=
  let SkeletonsToMergeCopy :=
    filter (fun InSkeleton => InSkeleton ≠ None) (SkeletonsToMerge SkeletonMergeParams) in
  if decide (Z.of_nat (length SkeletonsToMergeCopy) <= 1) then
    Ok [LogMustProvideMultipleMeshes]
  else
    _ ← ModifySameBoneName SkeletonsToMergeCopy;
    Ok [].

(** Lines 1223-1254 of [MergeMeshes]: the value printed after "Found
    Duplicates".  A socket is given by its object name ([GetFName]), a
    null entry by [None]. *)
Definition FoundDuplicates (MeshOnlySocketList SkeletonSockets : list (option FName)) : bool :=
  let SkelMeshSockets :=
    foldl (fun Names Socket => match Socket with
                               | Some SocketFName => Names ++ [SocketFName]
                               | None => Names
                               end) [] MeshOnlySocketList in
  let SkelSockets :=
    foldl (fun Names Socket => match Socket with
                               | Some SocketFName => Names ++ [SocketFName]
                               | None => Names
                               end) [] SkeletonSockets in
  let UniqueSkelMeshSockets := foldl (fun s n => TSetAdd n s) [] SkelMeshSockets in
  let UniqueSkelSockets := foldl (fun s n => TSetAdd n s) [] SkelSockets in
  let Total := Z.of_nat (length SkelSockets) + Z.of_nat (length SkelMeshSockets) in
  let UniqueTotal :=
    Z.of_nat (length UniqueSkelMeshSockets) + Z.of_nat (length UniqueSkelSockets) in
  bool_decide (Total ≠ UniqueTotal).

End BoneNames.

(** * Vocabulary of the statements

    Predicates and auxiliary functions in which the properties of the merge
    are stated.  None of them is part of the program. *)

Section Vocabulary.
Context `{E : Engine}.

Abbreviation Pose := (FTransform FVector FQuat).

Definition BoneNames (M : FReferenceSkeleton) : list FName := Name <$> RawRefBoneInfo M.

(** The skeleton with one more bone, as [ModifierAdd] leaves it when its
    checks pass. *)
Definition Appended (BoneInfo : FMeshBoneInfo) (BonePose : Pose) (M : FReferenceSkeleton)
  : FReferenceSkeleton :=
  MkRefSkeleton (RawRefBoneInfo M ++ [BoneInfo]) (RawRefBonePose M ++ [BonePose]).

(** The order produced by [PopulateSkeleton]: the root comes first without
    parent; every other bone names as parent an earlier position, which
    holds the bone under whose path hash it was found. *)
Definition ParentsFirst (H : FMergedBoneHierarchy) (M : FReferenceSkeleton) : Prop :=
  forall (i : nat) (b : FMeshBoneInfo),
    RawRefBoneInfo M !! i = Some b ->
    (i = 0%nat /\ ParentIndex b = INDEX_NONE) \/
    (exists (j : nat) (pb : FMeshBoneInfo) (k : Z) (l : list FName),
        ParentIndex b = Z.of_nat j /\ (j < i)%nat /\
        RawRefBoneInfo M !! j = Some pb /\
        PathToBoneNames H !! Name pb = Some k /\
        PathHashToBoneNames H !! k = Some l /\ Name b ∈ l).

Definition AddBones (adds : list (FName * Pose * Z)) (H : FMergedBoneHierarchy)
  : FMergedBoneHierarchy :=
  foldl (fun H a => AddBone a.1.1 a.1.2 a.2 H) H adds.

(** The bones whose parent path hash is [HashCombine(0, 0)], in order of
    insertion. *)
Definition RootCandidates (H : FMergedBoneHierarchy) : list FName :=
  default [] (PathHashToBoneNames H !! RootParentHash).

Record Closed (H : FMergedBoneHierarchy) : Prop := {
  closed_pose : forall k l n,
    PathHashToBoneNames H !! k = Some l -> n ∈ l -> is_Some (BoneNamePose H !! n);
  closed_path : forall k l n,
    PathHashToBoneNames H !! k = Some l -> n ∈ l -> is_Some (PathToBoneNames H !! n);
  closed_nonempty : forall k, PathHashToBoneNames H !! k ≠ Some []
}.

(** The path hash that the bone loop computes for bone [BoneIndex] of
    [Skeleton] when it reaches it in the state [st] (lines 866-919). *)
Definition ComputedPathHash (SkeletalNodes : list USCS_Node) (SkeletonIndex : nat)
    (Skeleton : USkeleton) (BoneIndex : nat) (st : MergeState) : option Z :=
  match RawRefBoneInfo (ReferenceSkeleton Skeleton) !! BoneIndex with
  | Some Bone =>
      match BoneParent SkeletalNodes SkeletonIndex Skeleton Bone (BoneNode st) with
      | Ok (_, ParentName, ParentHash) =>
          Some (HashCombine (default 0 (BoneNamesToPathHash st !! ParentName)) ParentHash)
      | _ => None
      end
  | None => None
  end.

(** Bone [BoneIndex] of [Skeleton] has a chain hash that mismatches the
    recorded one: its renamed name is recorded in [st] with another path
    hash than the one computed for it. *)
Definition ChainMismatch (SkeletalNodes : list USCS_Node) (SkeletonIndex : nat)
    (Skeleton : USkeleton) (BoneIndex : nat) (st : MergeState) : Prop :=
  exists Bone Existing Computed,
    RawRefBoneInfo (ReferenceSkeleton Skeleton) !! BoneIndex = Some Bone /\
    ComputedPathHash SkeletalNodes SkeletonIndex Skeleton BoneIndex st = Some Computed /\
    BoneNamesToPathHash st !! Slash1 (Name Bone) = Some Existing /\
    Existing ≠ Computed.

(** A table whose keys are the hashes of the sockets it holds. *)
Definition Keyed (m : list (Z * USkeletalMeshSocket)) : Prop :=
  NoDup m.*1 /\ forall k v, (k, v) ∈ m -> k = SocketHash v.

(** The sockets of the sources, in merge order. *)
Definition AllSockets (l : list (option USkeleton)) : list USkeletalMeshSocket :=
  flat_map (fun p => match p with Some Skeleton => Sockets Skeleton | None => [] end) l.

(** Whether lines 961-962 find the renamed bone in the mesh asset of [Node]. *)
Definition MeshHasBone (Node : USCS_Node) (Bone_Name : FName) : bool :=
  let Mesh := SkeletalMeshAsset (ComponentTemplate Node) in
  IsValidIndex (RawRefBonePose (RefSkeleton Mesh))
    (to_int32 (to_uint32 (FindBoneIndex (RefSkeleton Mesh) Bone_Name))).

(** The names of the bones of the sources. *)
Definition SourceBoneNames (l : list (option USkeleton)) : list FName :=
  flat_map (fun p => match p with
                     | Some Skeleton => Name <$> RawRefBoneInfo (ReferenceSkeleton Skeleton)
                     | None => []
                     end) l.

(** [n] is the name of a source bone followed by "/1". *)
Definition Renamed (l : list (option USkeleton)) (n : FName) : Prop :=
  exists src, src ∈ SourceBoneNames l /\ n = String.append src "/1" /\ n ≠ src.

Definition NamesIn (P : FName -> Prop) (H : FMergedBoneHierarchy) : Prop :=
  (forall n, is_Some (BoneNamePose H !! n) -> P n) /\
  (forall k l n, PathHashToBoneNames H !! k = Some l -> n ∈ l -> P n).

Fixpoint PreorderList (rec : FName -> result (list (FName * Pose)))
    (H : FMergedBoneHierarchy) (cs : list FName) : result (list (FName * Pose)) :=
  match cs with
  | [] => Ok []
  | c :: cs' =>
      pose ← GetReferencePose H c;
      sub ← rec c;
      rest ← PreorderList rec H cs';
      Ok ((c, pose) :: sub ++ rest)
  end.

Fixpoint Preorder (fuel : nat) (H : FMergedBoneHierarchy) (p : FName)
  : result (list (FName * Pose)) :=
  match fuel with
  | O => OutOfFuel
  | S fuel' =>
      k ← GetBonePathHash H p;
      match FindChildBonesForPath H k with
      | Some cs => PreorderList (Preorder fuel' H) H cs
      | None => Ok []
      end
  end.

(** The names of [M] are distinct and have a pose in [H]. *)
Definition Recorded (H : FMergedBoneHierarchy) (M : FReferenceSkeleton) : Prop :=
  NoDup (BoneNames M) /\ forall n, n ∈ BoneNames M -> is_Some (BoneNamePose H !! n).

Definition cnt (p : FName) (names : list FName) : nat :=
  length (filter (fun x => x = p) names).

(** A hierarchy that holds a tree: [pairs] are its bones with their poses,
    [r] is the root, path hashes tell the bones apart. *)
Record Tree (H : FMergedBoneHierarchy) (r : FName) (pose0 : Pose)
    (pairs : list (FName * Pose)) : Prop := {
  tree_closed : Closed H;
  tree_names : forall n, is_Some (PathToBoneNames H !! n) <-> n ∈ pairs.*1;
  tree_children : forall k l n,
    PathHashToBoneNames H !! k = Some l -> n ∈ l -> n ∈ pairs.*1;
  tree_keys_inj : forall q1 q2 k,
    PathToBoneNames H !! q1 = Some k -> PathToBoneNames H !! q2 = Some k -> q1 = q2;
  tree_keys_root : forall q, PathToBoneNames H !! q ≠ Some RootParentHash;
  tree_paths : forall k, is_Some (PathHashToBoneNames H !! k) ->
    k = RootParentHash \/ exists q, PathToBoneNames H !! q = Some k;
  tree_root : PathHashToBoneNames H !! RootParentHash = Some [r];
  tree_root_pose : BoneNamePose H !! r = Some pose0;
  tree_nodup : NoDup pairs.*1;
  tree_dfs : exists l, Preorder (length pairs) H r = Ok l /\ (r, pose0) :: l ≡ₚ pairs
}.

(** A reference skeleton as the engine keeps them: one pose per bone,
    distinct names, bone 0 the only root, parents before children. *)
Record WellFormed (R : FReferenceSkeleton) : Prop := {
  wf_poses : length (RawRefBonePose R) = length (RawRefBoneInfo R);
  wf_names : NoDup (Name <$> RawRefBoneInfo R);
  wf_root : forall b, RawRefBoneInfo R !! 0%nat = Some b -> ParentIndex b = INDEX_NONE;
  wf_parents : forall i b,
    RawRefBoneInfo R !! S i = Some b -> 0 <= ParentIndex b < Z.of_nat (S i)
}.

(** Names of the proper ancestors of bone [i], root first. *)
Fixpoint Ancestors (fuel : nat) (Bones : list FMeshBoneInfo) (i : nat) : list FName :=
  match fuel with
  | O => []
  | S fuel' =>
      match Bones !! i with
      | Some b =>
          if decide (ParentIndex b = INDEX_NONE) then []
          else match Bones !! Z.to_nat (ParentIndex b) with
               | Some pb => Ancestors fuel' Bones (Z.to_nat (ParentIndex b)) ++ [Name pb]
               | None => []
               end
      | None => []
      end
  end.

(** The ancestor-name chain of bone [i], from the root to the bone. *)
Definition BoneChain (R : FReferenceSkeleton) (i : nat) : list FName :=
  match RawRefBoneInfo R !! i with
  | Some b => Ancestors (S i) (RawRefBoneInfo R) i ++ [Name b]
  | None => []
  end.

(** The hash of a chain of names: from [HashCombine(0,0)], each renamed
    name is combined in turn. *)
Definition ChainHash (names : list FName) : Z :=
  foldl (fun acc n => HashCombine acc (GetTypeHash (Slash1 n))) RootParentHash names.

Definition PathHashOf (R : FReferenceSkeleton) (i : nat) : Z :=
  ChainHash (Ancestors (S i) (RawRefBoneInfo R) i).
Definition PathKeyOf (R : FReferenceSkeleton) (i : nat) : Z :=
  ChainHash (BoneChain R i).

(** No two bones of the skeleton share a path key, and none has the key
    HashCombine(0,0). *)
Definition NoCollision (R : FReferenceSkeleton) : Prop :=
  NoDup (RootParentHash :: (PathKeyOf R <$> seq 0 (length (RawRefBoneInfo R)))).

(** The bones of a skeleton under their merged names, with their poses. *)
Definition RenamedPairs (R : FReferenceSkeleton) : list (FName * Pose) :=
  zip ((fun b => Slash1 (Name b)) <$> RawRefBoneInfo R) (RawRefBonePose R).

Record Processed (R : FReferenceSkeleton) (k : nat) (st : MergeState) : Prop := {
  pr_path : forall i b, (i < k)%nat -> RawRefBoneInfo R !! i = Some b ->
    BoneNamesToPathHash st !! Slash1 (Name b) = Some (PathHashOf R i);
  pr_path_dom : forall n, is_Some (BoneNamesToPathHash st !! n) ->
    exists i b, (i < k)%nat /\ RawRefBoneInfo R !! i = Some b /\ n = Slash1 (Name b);
  pr_key : forall i b, (i < k)%nat -> RawRefBoneInfo R !! i = Some b ->
    PathToBoneNames (MergedBoneHierarchy st) !! Slash1 (Name b) = Some (PathKeyOf R i);
  pr_flags : bMergeSkeletonsFailed st = false /\ HashToSockets st = [];
  pr_empty : k = 0%nat -> MergedBoneHierarchy st = EmptyHierarchy;
  pr_tree : NoCollision R -> (0 < k)%nat ->
    exists r pose0, RenamedPairs R !! 0%nat = Some (r, pose0) /\
                    Tree (MergedBoneHierarchy st) r pose0 (take k (RenamedPairs R))
}.

End Vocabulary.

Section MaterialVocabulary.
Context `{G : GuidEngine}.

(** The layer stack as the engine builds it: a background layer, which has
    no blend and carries the background guid, then blended layers. *)
Record LayerStack (F : FMaterialLayersFunctions) : Prop := {
  stack_blends : S (length (Blends F)) = length (Layers F);
  stack_blend_relatives : S (length (RestrictToBlendRelatives F)) = length (Layers F);
  stack_states : length (LayerStates F) = length (Layers F);
  stack_names : length (LayerNames F) = length (Layers F);
  stack_layer_relatives : length (RestrictToLayerRelatives F) = length (Layers F);
  stack_guids : length (LayerGuids F) = length (Layers F);
  stack_links : length (LayerLinkStates F) = length (Layers F);
  stack_background : LayerGuids F !! 0%nat = Some BackgroundGuid
}.

End MaterialVocabulary.

Section BlueprintVocabulary.
Context `{E : Engine}.

(** The construction scripts of the generated classes of an actor class,
    from the most basic one to the class itself. *)
Fixpoint ConstructionScripts (ActorClass : Blueprint.UActorClass)
  : list (option (list Blueprint.USCS_Node)) :=
  match ActorClass with
  | Blueprint.NativeClass => []
  | Blueprint.BlueprintGeneratedClass ParentClass Script =>
      ConstructionScripts ParentClass ++ [Script]
  end.

(** The skeletal mesh component a node holds, if it holds one. *)
Definition SkeletalTemplate (Node : Blueprint.USCS_Node) : option USkeletalMeshComponent :=
  Blueprint.ComponentTemplate Node ≫= Blueprint.CastSkeletalMeshComponent.

(** The nodes below a node, children before grandchildren. *)
Fixpoint Descendants (Node : Blueprint.USCS_Node) : list Blueprint.USCS_Node :=
  match Node with
  | Blueprint.MkNode _ _ _ ChildNodes =>
      ChildNodes ++
      (fix Below (Nodes : list Blueprint.USCS_Node) : list Blueprint.USCS_Node :=
         match Nodes with
         | [] => []
         | ChildNode :: Nodes' => Descendants ChildNode ++ Below Nodes'
         end) ChildNodes
  end.

Definition Childless (Node : Blueprint.USCS_Node) : Prop :=
  Blueprint.GetChildNodes Node = [].

#[global] Instance Childless_dec Node : Decision (Childless Node).
Proof. unfold Childless. destruct (Blueprint.GetChildNodes Node); [by left|by right]. Defined.

End BlueprintVocabulary.

Section BoneNamesVocabulary.
Context `{E : Engine}.

(** A name followed by [k] times "_" and the name of a skeleton. *)
Fixpoint Suffixed (k : nat) (SourceName : string) (n : FName) : FName :=
  match k with
  | O => n
  | S k' => String.append (Suffixed k' SourceName n) (String.append "_" SourceName)
  end.

(** The bone names of a skeleton. *)
Definition SkeletonBoneNames (Skeleton : USkeleton) : list FName :=
  Name <$> RawRefBoneInfo (ReferenceSkeleton Skeleton).

(** One round of the inner loop of [BoneNameCheck], bone by bone. *)
Definition CheckedBone (SourceName : string) (LastBoneInfo : list FMeshBoneInfo)
    (BoneInfo : FMeshBoneInfo) : FMeshBoneInfo :=
  if decide (FindBoneInfo LastBoneInfo BoneInfo ≠ INDEX_NONE)
  then RenameBone SourceName BoneInfo else BoneInfo.

End BoneNamesVocabulary.

(** ** A concrete engine, to run the model

    Vectors have integer coordinates, the only rotation is the identity,
    [HashCombine] is a 32-bit mixing function and a name is hashed from its
    characters.  Nothing proved about the merge depends on these choices;
    they serve to evaluate it on concrete skeletons. *)

Module Demo.

Definition u32 (x : Z) : Z := x mod 2 ^ 32.

Definition Mix (A B C : Z) : Z * Z * Z :=
  let A := u32 (A - B) in let A := u32 (A - C) in let A := Z.lxor A (Z.shiftr C 13) in
  let B := u32 (B - C) in let B := u32 (B - A) in let B := Z.lxor B (u32 (Z.shiftl A 8)) in
  let C := u32 (C - A) in let C := u32 (C - B) in let C := Z.lxor C (Z.shiftr B 13) in
  let A := u32 (A - B) in let A := u32 (A - C) in let A := Z.lxor A (Z.shiftr C 12) in
  let B := u32 (B - C) in let B := u32 (B - A) in let B := Z.lxor B (u32 (Z.shiftl A 16)) in
  let C := u32 (C - A) in let C := u32 (C - B) in let C := Z.lxor C (Z.shiftr B 5) in
  let A := u32 (A - B) in let A := u32 (A - C) in let A := Z.lxor A (Z.shiftr C 3) in
  let B := u32 (B - C) in let B := u32 (B - A) in let B := Z.lxor B (u32 (Z.shiftl A 10)) in
  let C := u32 (C - A) in let C := u32 (C - B) in let C := Z.lxor C (Z.shiftr B 15) in
  (A, B, C).

Definition HashCombine32 (A C : Z) : Z :=
  let B := 2654435769 (* 0x9e3779b9 *) in
  (Mix (u32 (u32 A + B)) B (u32 C)).2.

Fixpoint NameHashFrom (h : Z) (s : string) : Z :=
  match s with
  | EmptyString => h
  | String c s' => NameHashFrom (u32 (h * 31 + Z.of_nat (Ascii.nat_of_ascii c))) s'
  end.
Definition NameHash (n : FName) : Z := NameHashFrom 7 n.

Definition Vec3 : Type := Z * Z * Z.
Definition VecAdd (a b : Vec3) : Vec3 :=
  (a.1.1 + b.1.1, a.1.2 + b.1.2, a.2 + b.2).
Definition VecMul (a b : Vec3) : Vec3 :=
  (a.1.1 * b.1.1, a.1.2 * b.1.2, a.2 * b.2).

Definition DemoEngine : Engine := {|
  FVector := Vec3;
  FQuat := unit;
  FRotator := unit;
  HashCombine := HashCombine32;
  GetTypeHash := NameHash;
  TransformPosition := fun (t : FTransform Vec3 unit) v =>
    VecAdd (VecMul (Scale3D t) v) (Translation t);
  TransformRotation := fun (_ : FTransform Vec3 unit) q => q;
  TransformEquals := fun (a b : FTransform Vec3 unit) => bool_decide (a = b)
|}.


(** ** Concrete skeletons and blueprint nodes *)

#[local] Existing Instance DemoEngine.

Definition At (x y z : Z) : FTransform Vec3 unit := MkTransform tt (x, y, z) (1, 1, 1).
Definition Bone (n : FName) (parent : Z) : FMeshBoneInfo := MkBoneInfo n n parent.
Definition Grip (x : Z) : USkeletalMeshSocket :=
  MkSocket "Grip" "Hand" (x, x, x) tt (1, 1, 1) false.

(** A hierarchy with two bones under the root parent hash. *)
Definition TwoRootAdds : list (FName * FTransform Vec3 unit * Z) :=
  [("Root/1"%string, At 0 0 0, RootParentHash);
   ("Arm/1"%string, At 1 0 0, HashCombine RootParentHash (GetTypeHash "Root/1"));
   ("Stray/1"%string, At 7 7 7, RootParentHash)].
Definition TwoRoots : FMergedBoneHierarchy := AddBones TwoRootAdds EmptyHierarchy.
Definition TwoRootsOutput : FReferenceSkeleton :=
  MkRefSkeleton [Bone "Root/1" (-1); Bone "Arm/1" 0] [At 0 0 0; At 1 0 0].

(** The primary skeleton: Root with children Arm (parent of Hand) and Leg. *)
Definition BodyRef : FReferenceSkeleton :=
  MkRefSkeleton [Bone "Root" (-1); Bone "Arm" 0; Bone "Hand" 1; Bone "Leg" 0]
                [At 0 0 0; At 1 0 0; At 2 0 0; At 0 1 0].
Definition Body : USkeleton := MkSkeleton 1 "Body" BodyRef [Grip 1].

(** Secondary skeletons, each with the node of its mesh component. *)
Definition Single (addr : N) (name : string) (bone : FName)
    (pose : FTransform Vec3 unit) (sockets : list USkeletalMeshSocket) : USkeleton :=
  MkSkeleton addr name (MkRefSkeleton [Bone bone (-1)] [pose]) sockets.
Definition Pair (addr : N) (name : string) (bone child : FName)
    (pose pose' : FTransform Vec3 unit) : USkeleton :=
  MkSkeleton addr name (MkRefSkeleton [Bone bone (-1); Bone child 0] [pose; pose']) [].
Definition NodeFor (Sk : USkeleton) (attach : FName) (rel : FTransform Vec3 unit)
  : USCS_Node :=
  MkNode (MkComponent (Address Sk) (MkMesh (Some (Address Sk)) (ReferenceSkeleton Sk)) rel)
         attach [].
Definition Shift (x : Z) : FTransform Vec3 unit := MkTransform tt (x, 0, 0) (1, 1, 1).

Definition Clash : USkeleton := Single 2 "Clash" "Arm" (At 1 0 0) [].
Definition Tail : USkeleton := Single 3 "Tail" "Tail" (At 0 0 3) [].
Definition Twin : USkeleton := Single 4 "Twin" "Root" (At 0 0 0) [].
Definition GraftedHand : USkeleton := Single 5 "GraftedHand" "Hand" (At 5 0 0) [].
Definition Blade : USkeleton := Single 6 "Blade" "Blade" (At 1 0 0) [].
Definition Blade2 : USkeleton := Pair 7 "Blade2" "Blade" "Blade/1" (At 1 0 0) (At 0 0 1).
Definition Glove : USkeleton := Single 8 "Glove" "Glove" (At 0 0 0) [Grip 9].
Definition Hand2 : USkeleton := Pair 9 "Hand2" "Hand" "Hand/1" (At 5 0 0) (At 6 0 0).

Definition Nodes : list USCS_Node :=
  [NodeFor Clash "Leg" (Shift 0); NodeFor Tail "Root" (Shift 0);
   NodeFor Twin NAME_None (Shift 0); NodeFor GraftedHand "Arm" (Shift 0);
   NodeFor Blade "Hand" (Shift 10); NodeFor Blade2 "Hand" (Shift 10);
   NodeFor Glove "Hand" (Shift 0); NodeFor Hand2 "Arm" (Shift 10)].

Definition Merge (l : list (option USkeleton)) (sockets compat : bool)
  : FSkeletonMergeParams :=
  MkParams l sockets false false false false compat.

(** The state when the bone loop of the second skeleton starts. *)
Definition AfterBody (compat : bool) : MergeState :=
  match MergeSkeleton (Merge [] false compat) Nodes 0 (Some Body) (InitialState 0) with
  | Ok st => st
  | _ => InitialState 0
  end.

(** The state in which a merge leaves the bone accumulation. *)
Definition Accumulated (Params : FSkeletonMergeParams) : MergeState :=
  match AccumulateSkeletons Params Nodes with
  | Ok (Some st) => st
  | _ => InitialState 0
  end.

Definition MergeAlone : FSkeletonMergeParams := Merge [Some Body] false false.
Definition MergeTwice : FSkeletonMergeParams := Merge [Some Body; Some Body] false false.
Definition MergeClash : FSkeletonMergeParams :=
  Merge [Some Body; Some Clash; Some Tail] false true.
Definition MergeNoClash : FSkeletonMergeParams := Merge [Some Body; Some Tail] false true.
Definition MergeTwin : FSkeletonMergeParams := Merge [Some Body; Some Twin] false false.
Definition MergeGraftedHand : FSkeletonMergeParams :=
  Merge [Some Body; Some GraftedHand] false false.
Definition MergeBlade : FSkeletonMergeParams := Merge [Some Body; Some Blade] false false.
Definition MergeGlove : FSkeletonMergeParams := Merge [Some Body; Some Glove] true false.

(** The states these merges go through, evaluated. *)
Definition BodyMerged : MergeState := Eval vm_compute in AfterBody false.
Definition BodyChecked : MergeState := Eval vm_compute in AfterBody true.
Definition ClashAccumulated : MergeState := Eval vm_compute in Accumulated MergeClash.
Definition TwinAccumulated : MergeState := Eval vm_compute in Accumulated MergeTwin.
Definition GraftedHandAccumulated : MergeState :=
  Eval vm_compute in Accumulated MergeGraftedHand.

(** The state after one more bone: the root of a secondary skeleton. *)
Definition RootMerged (compat : bool) (Skeleton : USkeleton) (st : MergeState)
  : MergeState :=
  match MergeBone (Merge [] false compat) Nodes 1 Skeleton 0 false st with
  | Ok (Continue _ st') => st'
  | _ => st
  end.
Definition Blade2Merged : MergeState := Eval vm_compute in RootMerged false Blade2 BodyMerged.
Definition Hand2Merged : MergeState := Eval vm_compute in RootMerged true Hand2 BodyChecked.

(** The bone lists these merges emit. *)
Definition BodyOutput : FReferenceSkeleton :=
  MkRefSkeleton [Bone "Root/1" (-1); Bone "Arm/1" 0; Bone "Hand/1" 1; Bone "Leg/1" 0]
                [At 0 0 0; At 1 0 0; At 2 0 0; At 0 1 0].
Definition TailOutput : FReferenceSkeleton :=
  MkRefSkeleton [Bone "Root/1" (-1); Bone "Arm/1" 0; Bone "Hand/1" 1; Bone "Leg/1" 0;
                 Bone "Tail/1" 0]
                [At 0 0 0; At 1 0 0; At 2 0 0; At 0 1 0; At 0 0 3].
Definition BladeOutput : FReferenceSkeleton :=
  MkRefSkeleton [Bone "Root/1" (-1); Bone "Arm/1" 0; Bone "Hand/1" 1; Bone "Blade/1" 2;
                 Bone "Leg/1" 0]
                [At 0 0 0; At 1 0 0; At 2 0 0; At 1 0 0; At 0 1 0].
Definition GloveOutput : FReferenceSkeleton :=
  MkRefSkeleton [Bone "Root/1" (-1); Bone "Arm/1" 0; Bone "Hand/1" 1; Bone "Glove/1" 2;
                 Bone "Leg/1" 0]
                [At 0 0 0; At 1 0 0; At 2 0 0; At 0 0 0; At 0 1 0].
Definition GraftedHandOutput : FReferenceSkeleton :=
  MkRefSkeleton [Bone "Root/1" (-1); Bone "Arm/1" 0; Bone "Hand/1" 1; Bone "Leg/1" 0]
                [At 0 0 0; At 1 0 0; At 5 0 0; At 0 1 0].

(** ** Further inputs: a list with a null entry, a blueprint, material
    instances *)

Definition MergeWithNull : FSkeletonMergeParams := Merge [Some Body; None] false false.

(** The classes of the components of a blueprint. *)
Definition SkeletalMeshComponentClass : Blueprint.UClass :=
  Blueprint.MkClass "SkeletalMeshComponent"
    ["SkinnedMeshComponent"; "MeshComponent"; "PrimitiveComponent"; "SceneComponent";
     "ActorComponent"]%string.
Definition SceneComponentClass : Blueprint.UClass :=
  Blueprint.MkClass "SceneComponent" ["ActorComponent"%string].

Definition ComponentOf (Sk : USkeleton) : USkeletalMeshComponent :=
  MkComponent (Address Sk) (MkMesh (Some (Address Sk)) (ReferenceSkeleton Sk)) (Shift 0).

(** A blueprint whose root node holds the body and comes after the node of
    the blade in the construction script. *)
Definition BladeNode : Blueprint.USCS_Node :=
  Blueprint.MkNode SkeletalMeshComponentClass
    (Some (Blueprint.Skeletal (ComponentOf Blade))) false [].
Definition BodyNode : Blueprint.USCS_Node :=
  Blueprint.MkNode SkeletalMeshComponentClass
    (Some (Blueprint.Skeletal (ComponentOf Body))) true [BladeNode].
Definition Knight : Blueprint.UActorClass :=
  Blueprint.BlueprintGeneratedClass Blueprint.NativeClass (Some [BladeNode; BodyNode]).

(** Guids are numbers; the background guid is 0. *)
Definition DemoGuids : GuidEngine := {|
  FGuid := N;
  FGuid_eq_dec := _;
  BackgroundGuid := 0%N
|}.
#[local] Existing Instance DemoGuids.

(** An instance with its background layer only, open in an editor, and an
    instance whose only layer is empty and is not the background layer. *)
Definition Layered : UMaterialInstanceConstant :=
  MkMaterialInstance
    (MkLayers [Some 1%N] [] [true] [LayerPrefix 0] [false] [] [0%N] [NotFromParent])
    true 0.
Definition LayeredTwice : UMaterialInstanceConstant :=
  MkMaterialInstance
    (MkLayers [Some 1%N; Some 2%N] [Some 3%N] [true; true] [LayerPrefix 0; LayerPrefix 1]
       [false; false] [false] [0%N; 9%N] [NotFromParent; LinkedToParent])
    true 1.
Definition Unblended : UMaterialInstanceConstant :=
  MkMaterialInstance
    (MkLayers [None] [] [true] [LayerPrefix 0] [false] [] [5%N] [NotFromParent])
    false 0.

End Demo.

(** * Properties *)

Section Properties.
Context `{E : Engine}.

Abbreviation Pose := (FTransform FVector FQuat).

Lemma bind_Ok {A B : Type} (m : result A) (f : A -> result B) (b : B) :
  (m ≫= f) = Ok b -> exists a, m = Ok a /\ f a = Ok b.
Proof. destruct m; simpl; intros; eauto; discriminate. Qed.

Lemma checked_Ok {A : Type} (o : option A) (a : A) : checked o = Ok a -> o = Some a.
Proof. destruct o; simpl; congruence. Qed.

Lemma foldM_cons_Ok {A B : Type} (f : B -> A -> result B) x l b b' :
  foldM f (x :: l) b = Ok b' -> exists b1, f b x = Ok b1 /\ foldM f l b1 = Ok b'.
Proof. simpl. destruct (f b x); intros; eauto; discriminate. Qed.

Tactic Notation "inv_bind" hyp(H) "as" ident(a) ident(Ha) :=
  apply bind_Ok in H as (a & Ha & H).

Lemma FindBoneIndex_range (M : FReferenceSkeleton) (n : FName) :
  n ∈ BoneNames M -> 0 <= FindBoneIndex M n < Z.of_nat (length (RawRefBoneInfo M)).
Proof.
  intros Hin. unfold FindBoneIndex.
  destruct (list_find _ _) as [[i b]|] eqn:Hf.
  - apply list_find_Some in Hf as (Hi & _). apply lookup_lt_Some in Hi. lia.
  - apply list_find_None in Hf. unfold BoneNames in Hin.
    apply list_elem_of_fmap in Hin as (b & -> & Hb).
    rewrite Forall_forall in Hf. exfalso. by apply (Hf b Hb).
Qed.

Lemma FindBoneIndex_none (M : FReferenceSkeleton) (n : FName) :
  FindBoneIndex M n = INDEX_NONE <-> n ∉ BoneNames M.
Proof.
  split.
  - intros Hf Hin. apply FindBoneIndex_range in Hin. rewrite Hf in Hin.
    unfold INDEX_NONE in Hin. lia.
  - intros Hn. unfold FindBoneIndex.
    destruct (list_find _ _) as [[i b]|] eqn:Hf; [|done].
    apply list_find_Some in Hf as (Hi & Hb & _). destruct Hn.
    unfold BoneNames. apply list_elem_of_fmap. exists b. split; [done|].
    by eapply list_elem_of_lookup_2.
Qed.

(** [ModifierAdd] succeeds only by appending a bone whose name is new. *)
Lemma ModifierAdd_Ok (BoneInfo : FMeshBoneInfo) (BonePose : Pose) (M M' : FReferenceSkeleton) :
  ModifierAdd BoneInfo BonePose M = Ok M' ->
  M' = Appended BoneInfo BonePose M /\ Name BoneInfo ∉ BoneNames M.
Proof.
  unfold ModifierAdd. destruct (decide (FindBoneIndex M _ = INDEX_NONE)) as [Hn|]; [|done].
  destruct (decide _); [|done]. intros HM. inversion HM. split; [done|].
  by apply FindBoneIndex_none.
Qed.

Lemma ModifierAdd_used (BoneInfo : FMeshBoneInfo) (BonePose : Pose) (M : FReferenceSkeleton) :
  Name BoneInfo ∈ BoneNames M -> ModifierAdd BoneInfo BonePose M = Crash.
Proof.
  intros Hin. unfold ModifierAdd.
  destruct (decide (FindBoneIndex M (Name BoneInfo) = INDEX_NONE)) as [Hn|]; [|done].
  by apply FindBoneIndex_none in Hn.
Qed.

Lemma ModifierAdd_child (M : FReferenceSkeleton) (parent child : FName) (pose : Pose) :
  parent ∈ BoneNames M -> child ∉ BoneNames M ->
  ModifierAdd (MkBoneInfo child child (FindBoneIndex M parent)) pose M
    = Ok (Appended (MkBoneInfo child child (FindBoneIndex M parent)) pose M).
Proof.
  intros Hp Hc. unfold ModifierAdd. cbn [Name ParentIndex].
  destruct (decide (FindBoneIndex M child = INDEX_NONE)) as [_|Hn].
  - destruct (decide _) as [|Hn]; [done|]. destruct Hn. right.
    apply FindBoneIndex_range in Hp. lia.
  - destruct Hn. by apply FindBoneIndex_none.
Qed.

(** What [RecursiveAddBones] does to the modifier: it appends bones. *)
Lemma RecursiveAddBones_prefix (fuel : nat) (H : FMergedBoneHierarchy) :
  forall (M : FReferenceSkeleton) (p : FName) (M' : FReferenceSkeleton),
    RecursiveAddBones fuel H M p = Ok M' ->
    RawRefBoneInfo M `prefix_of` RawRefBoneInfo M'.
Proof.
  induction fuel as [|fuel IH]; intros M p M' HR; [discriminate|].
  simpl in HR. inv_bind HR as a Ha.
  destruct (FindChildBonesForPath H a) as [l|]; [|by inversion HR].
  clear Ha. revert M HR. induction l as [|c l IHl]; intros M HR.
  - by inversion HR.
  - apply foldM_cons_Ok in HR as (M1 & H1 & HR).
    inv_bind H1 as cp Hcp. inv_bind H1 as Ma HMa. apply ModifierAdd_Ok in HMa as [-> _].
    apply IH in H1. apply IHl in HR.
    etrans; [|exact HR]. etrans; [|exact H1]. simpl. by apply prefix_app_r.
Qed.

Lemma RecursiveAddBones_prefix_pose (fuel : nat) (H : FMergedBoneHierarchy) :
  forall (M : FReferenceSkeleton) (p : FName) (M' : FReferenceSkeleton),
    RecursiveAddBones fuel H M p = Ok M' ->
    RawRefBonePose M `prefix_of` RawRefBonePose M'.
Proof.
  induction fuel as [|fuel IH]; intros M p M' HR; [discriminate|].
  simpl in HR. inv_bind HR as a Ha.
  destruct (FindChildBonesForPath H a) as [l|]; [|by inversion HR].
  clear Ha. revert M HR. induction l as [|c l IHl]; intros M HR.
  - by inversion HR.
  - apply foldM_cons_Ok in HR as (M1 & H1 & HR).
    inv_bind H1 as cp Hcp. inv_bind H1 as Ma HMa. apply ModifierAdd_Ok in HMa as [-> _].
    apply IH in H1. apply IHl in HR.
    etrans; [|exact HR]. etrans; [|exact H1]. simpl. by apply prefix_app_r.
Qed.

(** Invariants of the modifier are carried through the recursion, given
    that adding a child under a bone already present preserves them. *)
Lemma RecursiveAddBones_inv (H : FMergedBoneHierarchy) (I : FReferenceSkeleton -> Prop) :
  (forall M parent k l child pose,
      I M -> parent ∈ BoneNames M ->
      PathToBoneNames H !! parent = Some k ->
      PathHashToBoneNames H !! k = Some l -> child ∈ l ->
      BoneNamePose H !! child = Some pose ->
      child ∉ BoneNames M ->
      I (Appended (MkBoneInfo child child (FindBoneIndex M parent)) pose M)) ->
  forall fuel M p M',
    I M -> p ∈ BoneNames M -> RecursiveAddBones fuel H M p = Ok M' -> I M'.
Proof.
  intros Hstep. induction fuel as [|fuel IH]; intros M p M' HI Hp HR; [discriminate|].
  simpl in HR. inv_bind HR as a Ha. apply checked_Ok in Ha.
  unfold FindChildBonesForPath in HR.
  destruct (PathHashToBoneNames H !! a) as [l|] eqn:Hl; [|by inversion HR; subst].
  cut (forall l0, (forall c, c ∈ l0 -> c ∈ l) -> forall M,
          foldM (fun M0 ChildBoneName =>
                   ChildPose ← GetReferencePose H ChildBoneName;
                   M1 ← ModifierAdd (MkBoneInfo ChildBoneName ChildBoneName
                                       (FindBoneIndex M0 p)) ChildPose M0;
                   RecursiveAddBones fuel H M1 ChildBoneName) l0 M = Ok M' ->
          I M -> p ∈ BoneNames M -> I M').
  { intros Hgen. eapply Hgen; eauto. }
  clear HR HI Hp M.
  induction l0 as [|c l0 IHl]; intros Hsub M HR HI Hp.
  - by inversion HR; subst.
  - apply foldM_cons_Ok in HR as (M1 & H1 & HR).
    inv_bind H1 as a0 Ha0. apply checked_Ok in Ha0.
    inv_bind H1 as Ma HMa. apply ModifierAdd_Ok in HMa as [-> Hfresh].
    assert (Hc : c ∈ l) by (apply Hsub; left).
    pose proof (RecursiveAddBones_prefix _ _ _ _ _ H1) as Hpre.
    apply IH in H1.
    + apply (IHl (fun c' Hc' => Hsub c' (list_elem_of_further _ _ _ Hc')) M1); auto.
      unfold BoneNames. destruct Hpre as [ex ->]. rewrite fmap_app.
      apply elem_of_app. left. simpl. rewrite fmap_app. apply elem_of_app. by left.
    + eapply Hstep; eauto.
    + unfold BoneNames. simpl. rewrite fmap_app. apply elem_of_app. right. simpl. left.
Qed.

Lemma FindBoneIndex_lookup (M : FReferenceSkeleton) (n : FName) :
  n ∈ BoneNames M ->
  exists (j : nat) (pb : FMeshBoneInfo),
    FindBoneIndex M n = Z.of_nat j /\ RawRefBoneInfo M !! j = Some pb /\ Name pb = n.
Proof.
  intros Hin. unfold FindBoneIndex.
  destruct (list_find _ _) as [[i b]|] eqn:Hf.
  - apply list_find_Some in Hf as (Hi & Hn & _). eauto.
  - apply list_find_None in Hf. apply list_elem_of_fmap in Hin as (b & -> & Hb).
    rewrite Forall_forall in Hf. exfalso. by apply (Hf b Hb).
Qed.

Lemma ParentsFirst_add H M parent k l child pose :
  ParentsFirst H M -> RawRefBoneInfo M ≠ [] -> parent ∈ BoneNames M ->
  PathToBoneNames H !! parent = Some k ->
  PathHashToBoneNames H !! k = Some l -> child ∈ l ->
  ParentsFirst H (Appended (MkBoneInfo child child (FindBoneIndex M parent)) pose M).
Proof.
  intros HP Hne Hparent Hk Hl Hc i b Hi. simpl in Hi.
  destruct (decide (i < length (RawRefBoneInfo M))%nat) as [Hlt|Hge].
  - rewrite lookup_app_l in Hi by done.
    destruct (HP i b Hi) as [?|(j & pb & k' & l' & ? & ? & Hj & ?)]; [by left|].
    right. exists j, pb, k', l'. simpl. repeat split; try done; try tauto.
    rewrite lookup_app_l; [done|]. apply lookup_lt_Some in Hj. lia.
  - rewrite lookup_app_r in Hi by lia.
    destruct (i - length (RawRefBoneInfo M))%nat as [|d] eqn:Hd; [|by destruct d].
    simpl in Hi. inversion Hi; subst b; clear Hi. simpl.
    destruct (FindBoneIndex_lookup M parent Hparent) as (j & pb & -> & Hj & Hn).
    right. exists j, pb, k, l. subst parent.
    split; [done|]. split; [apply lookup_lt_Some in Hj; lia|].
    split; [|done]. simpl. rewrite lookup_app_l; [done|]. by apply lookup_lt_Some in Hj.
Qed.

(** C5: in every bone list emitted by PopulateSkeleton the root comes
    first and has no parent, and each other bone's parent index designates
    an earlier position of the list, where the bone stands under whose path
    hash the child was found. *)
Theorem C5_parent_before_child (fuel : nat) (H : FMergedBoneHierarchy)
    (M : FReferenceSkeleton) :
  PopulateSkeleton fuel H EmptyRefSkeleton = Ok M -> ParentsFirst H M.
Proof.
  unfold PopulateSkeleton. intros HP.
  inv_bind HP as a Ha. inv_bind HP as a0 Ha0. inv_bind HP as a1 Ha1.
  inv_bind HP as M0 HM0. apply ModifierAdd_Ok in HM0 as [-> _].
  apply (RecursiveAddBones_inv H
           (fun M => ParentsFirst H M /\ RawRefBoneInfo M ≠ []))
    with (p := a0) in HP; [tauto| | |].
  - intros M1 parent k l child pose [HPF Hne] Hparent Hk Hl Hc _ _. split.
    + by eapply ParentsFirst_add.
    + simpl. intros Heq. by apply app_eq_nil in Heq as [_ ?].
  - split; [|done]. intros i b Hi. left.
    destruct i as [|i]; simpl in Hi; [|done]. by inversion Hi.
  - unfold BoneNames. simpl. left.
Qed.

(** ** Hierarchies built with AddBone *)

Lemma TSetAdd_elem (n x : FName) (s : list FName) : x ∈ TSetAdd n s <-> x = n \/ x ∈ s.
Proof.
  unfold TSetAdd. destruct (decide (n ∈ s)).
  - split; [by right|]. intros [->|?]; done.
  - rewrite elem_of_app, list_elem_of_singleton. tauto.
Qed.

Lemma TSetAdd_nonempty (n : FName) (s : list FName) : TSetAdd n s ≠ [].
Proof.
  intros Heq. assert (Hn : n ∈ TSetAdd n s) by (apply TSetAdd_elem; by left).
  rewrite Heq in Hn. by apply elem_of_nil in Hn.
Qed.

Lemma Closed_empty : Closed EmptyHierarchy.
Proof. split; simpl; intros *; rewrite lookup_empty; done. Qed.

Lemma Closed_AddBone n pose k H : Closed H -> Closed (AddBone n pose k H).
Proof.
  intros [Hpose Hpath Hne]. split; simpl.
  - intros k' l x Hl Hx. destruct (decide (x = n)) as [->|Hxn].
    + rewrite lookup_insert_eq. eauto.
    + rewrite lookup_insert_ne by done.
      destruct (decide (k = k')) as [->|Hk].
      * rewrite lookup_insert_eq in Hl. inversion Hl; subst l.
        apply TSetAdd_elem in Hx as [?|Hx]; [done|].
        destruct (PathHashToBoneNames H !! k') eqn:Hq; simpl in Hx; [eauto|].
        by apply elem_of_nil in Hx.
      * rewrite lookup_insert_ne in Hl by done. eauto.
  - intros k' l x Hl Hx. destruct (decide (x = n)) as [->|Hxn].
    + rewrite lookup_insert_eq. eauto.
    + rewrite lookup_insert_ne by done.
      destruct (decide (k = k')) as [->|Hk].
      * rewrite lookup_insert_eq in Hl. inversion Hl; subst l.
        apply TSetAdd_elem in Hx as [?|Hx]; [done|].
        destruct (PathHashToBoneNames H !! k') eqn:Hq; simpl in Hx; [eauto|].
        by apply elem_of_nil in Hx.
      * rewrite lookup_insert_ne in Hl by done. eauto.
  - intros k'. destruct (decide (k = k')) as [->|Hk].
    + rewrite lookup_insert_eq. intros Heq. inversion Heq as [Heq'].
      by apply TSetAdd_nonempty in Heq'.
    + rewrite lookup_insert_ne by done. apply Hne.
Qed.

Lemma Closed_AddBones adds H : Closed H -> Closed (AddBones adds H).
Proof.
  revert H. induction adds as [|a adds IH]; intros H HC; [done|].
  simpl. apply IH. by apply Closed_AddBone.
Qed.

Lemma AddBones_children (adds : list (FName * Pose * Z)) (H : FMergedBoneHierarchy)
    (k : Z) (n : FName) :
  n ∈ default [] (PathHashToBoneNames (AddBones adds H) !! k) <->
  n ∈ default [] (PathHashToBoneNames H !! k) \/ exists pose, (n, pose, k) ∈ adds.
Proof.
  revert H. induction adds as [|[[n' pose'] k'] adds IH]; intros H.
  - simpl. split; [by left|]. intros [?|[pose Hp]]; [done|]. by apply elem_of_nil in Hp.
  - simpl. rewrite IH. simpl. destruct (decide (k' = k)) as [->|Hne].
    + rewrite lookup_insert_eq. simpl. rewrite TSetAdd_elem. split.
      * intros [[->|?]|[pose Hp]].
        -- right. exists pose'. left.
        -- by left.
        -- right. exists pose. by right.
      * intros [?|[pose Hp]]; [left; by right|].
        apply elem_of_cons in Hp as [Heq|Hp].
        -- inversion Heq; subst. left. by left.
        -- right. by exists pose.
    + rewrite lookup_insert_ne by done. split.
      * intros [?|[pose Hp]]; [by left|]. right. exists pose. by right.
      * intros [?|[pose Hp]]; [by left|].
        apply elem_of_cons in Hp as [Heq|Hp]; [inversion Heq; by subst|].
        right. by exists pose.
Qed.

(** The root candidates of a hierarchy built with AddBone are the bones
    added with the parent path hash HashCombine(0, 0). *)
Lemma RootCandidates_AddBones (adds : list (FName * Pose * Z)) (n : FName) :
  n ∈ RootCandidates (AddBones adds EmptyHierarchy) <->
  exists pose, (n, pose, RootParentHash) ∈ adds.
Proof.
  unfold RootCandidates. rewrite AddBones_children. simpl. rewrite lookup_empty. simpl.
  split; [|by right]. intros [H|H]; [by apply elem_of_nil in H|done].
Qed.

(** ** Reading the bone loop body *)

Lemma ArrayAt_Ok {A : Type} (l : list A) (i : nat) (x : A) :
  ArrayAt l (Z.of_nat i) = Ok x <-> l !! i = Some x.
Proof.
  unfold ArrayAt, IsValidIndex. rewrite Nat2Z.id. case_bool_decide as Hi.
  - destruct (l !! i); simpl; split; congruence.
  - split; [discriminate|]. intros Hl. apply lookup_lt_Some in Hl. lia.
Qed.

Lemma ArrayAt_lookup {A : Type} (l : list A) (i : nat) (x : A) :
  l !! i = Some x -> ArrayAt l (Z.of_nat i) = Ok x.
Proof. apply ArrayAt_Ok. Qed.

Lemma MergeBone_Continue Params nodes idx Skeleton BoneIndex b st b' st' :
  MergeBone Params nodes idx Skeleton BoneIndex b st = Ok (Continue b' st') ->
  exists Bone node pn ph poses log SourcePose T,
    RawRefBoneInfo (ReferenceSkeleton Skeleton) !! BoneIndex = Some Bone /\
    BoneParent nodes idx Skeleton Bone (BoneNode st) = Ok (node, pn, ph) /\
    let k := HashCombine (default 0 (BoneNamesToPathHash st !! pn)) ph in
    CheckCompatibility Params Skeleton BoneIndex (Slash1 (Name Bone)) k b st
      = Ok (Compatible b' poses log) /\
    RawRefBonePose (ReferenceSkeleton Skeleton) !! BoneIndex = Some SourcePose /\
    GraftTransform idx Bone BoneIndex (Slash1 (Name Bone)) node SourcePose = Ok T /\
    st' = MkState (AddBone (Slash1 (Name Bone)) T k (MergedBoneHierarchy st))
            (<[Slash1 (Name Bone) := k]> (BoneNamesToPathHash st))
            poses (HashToSockets st) (bMergeSkeletonsFailed st) node log.
Proof.
  unfold MergeBone. intros HM.
  inv_bind HM as Bone HBone. inv_bind HM as att Hatt. destruct att as [[node pn] ph].
  inv_bind HM as c Hc. destruct c as [|bc poses log]; [discriminate|].
  inv_bind HM as sp Hsp. inv_bind HM as T HT. inversion HM; subst; clear HM.
  apply ArrayAt_Ok in HBone, Hsp.
  exists Bone, node, pn, ph, poses, log, sp, T. done.
Qed.

Lemma MergeBone_Break Params nodes idx Skeleton BoneIndex b st st' :
  MergeBone Params nodes idx Skeleton BoneIndex b st = Ok (Break st') ->
  bCheckSkeletonsCompatibility Params = true /\
  exists node,
    st' = MkState (MergedBoneHierarchy st) (BoneNamesToPathHash st)
            (BoneNamesToBonePose st) (HashToSockets st) true node
            (Log st ++ [LogInvalidBoneChain (GetName Skeleton)]).
Proof.
  unfold MergeBone. intros HM.
  inv_bind HM as Bone HBone. inv_bind HM as att Hatt. destruct att as [[node pn] ph].
  inv_bind HM as c Hc. destruct c as [|bc poses log].
  - inversion HM; subst; clear HM. split; [|eauto].
    unfold CheckCompatibility in Hc.
    destruct (bCheckSkeletonsCompatibility Params); [done|discriminate].
  - inv_bind HM as sp Hsp. inv_bind HM as T HT. discriminate.
Qed.

(** ** The socket table *)

Lemma TMapFind_Add {V : Type} (k k' : Z) (v : V) (m : list (Z * V)) :
  TMapFind k' (TMapAdd k v m) = if decide (k = k') then Some v else TMapFind k' m.
Proof.
  induction m as [|[k0 v0] m IH]; simpl.
  - done.
  - destruct (decide (k0 = k)) as [->|Hne]; simpl.
    + destruct (decide (k = k')); done.
    + destruct (decide (k0 = k')) as [->|?].
      * by rewrite decide_False by done.
      * done.
Qed.

Lemma TMapAdd_keys {V : Type} (k : Z) (v : V) (m : list (Z * V)) :
  (TMapAdd k v m).*1 = if decide (k ∈ m.*1) then m.*1 else m.*1 ++ [k].
Proof.
  induction m as [|[k0 v0] m IH]; [done|].
  simpl TMapAdd. destruct (decide (k0 = k)) as [->|Hne].
  - rewrite !fmap_cons. simpl. rewrite decide_True by left. done.
  - rewrite !fmap_cons. simpl fst. rewrite IH. destruct (decide (k ∈ m.*1)) as [Hin|Hnin].
    + rewrite decide_True by (by right). done.
    + rewrite decide_False; [done|]. intros Hin. apply elem_of_cons in Hin as [?|?]; congruence.
Qed.

Lemma TMapAdd_NoDup {V : Type} (k : Z) (v : V) (m : list (Z * V)) :
  NoDup m.*1 -> NoDup (TMapAdd k v m).*1.
Proof.
  intros Hnd. rewrite TMapAdd_keys. destruct (decide _); [done|].
  apply NoDup_app. split; [done|]. split; [|apply NoDup_singleton].
  intros x Hx Hx'. apply list_elem_of_singleton in Hx'. by subst.
Qed.

Lemma TMapAdd_elem {V : Type} (k : Z) (v : V) (m : list (Z * V)) (e : Z * V) :
  e ∈ TMapAdd k v m -> e = (k, v) \/ e ∈ m.
Proof.
  induction m as [|[k0 v0] m IH]; simpl.
  - intros He. apply list_elem_of_singleton in He. by left.
  - destruct (decide (k0 = k)).
    + intros He. apply elem_of_cons in He as [?|?]; [by left|]. right. by right.
    + intros He. apply elem_of_cons in He as [?|He]; [right; subst; left|].
      destruct (IH He); [by left|]. right. by right.
Qed.

Lemma Keyed_Add (s : USkeletalMeshSocket) m : Keyed m -> Keyed (TMapAdd (SocketHash s) s m).
Proof.
  intros [Hnd Hk]. split; [by apply TMapAdd_NoDup|].
  intros k v Hin. apply TMapAdd_elem in Hin as [Heq|Hin]; [by inversion Heq|eauto].
Qed.

Lemma Keyed_values (m : list (Z * USkeletalMeshSocket)) (h : Z) :
  Keyed m ->
  filter (fun t => SocketHash t = h) (GenerateValueArray m) =
    match TMapFind h m with Some v => [v] | None => [] end.
Proof.
  unfold GenerateValueArray. induction m as [|[k v] m IH]; intros [Hnd Hk]; [done|].
  rewrite fmap_cons in Hnd. apply NoDup_cons in Hnd as [Hnin Hnd]. simpl in Hnin.
  assert (Hkv : k = SocketHash v) by (apply Hk; left).
  assert (HK : Keyed m) by (split; [done|]; intros; apply Hk; by right).
  rewrite fmap_cons. simpl snd. rewrite filter_cons. simpl TMapFind.
  destruct (decide (k = h)) as [->|Hne].
  - rewrite decide_True by done. f_equal. rewrite IH by done.
    destruct (TMapFind h m) as [v'|] eqn:Hf; [|done].
    exfalso. apply Hnin. clear -Hf.
    induction m as [|[k0 v0] m IH]; [done|]. simpl in Hf. rewrite fmap_cons. simpl.
    destruct (decide (k0 = h)) as [->|?]; [left|right; auto].
  - rewrite decide_False by congruence. by apply IH.
Qed.

Lemma MergeSockets_find (L : list USkeletalMeshSocket) :
  forall (m : list (Z * USkeletalMeshSocket)) (h : Z),
    TMapFind h (foldl (fun m Socket => TMapAdd (SocketHash Socket) Socket m) m L) =
      match last (filter (fun t => SocketHash t = h) L) with
      | Some t => Some t
      | None => TMapFind h m
      end.
Proof.
  induction L as [|s L IH]; intros m h; [done|].
  simpl. rewrite IH, TMapFind_Add, filter_cons.
  destruct (decide (SocketHash s = h)) as [Hs|Hs].
  - destruct (filter _ L) as [|t ts] eqn:Hf; [done|].
    rewrite (last_cons s). by destruct (last (t :: ts)).
  - done.
Qed.

Lemma MergeSockets_Keyed (L : list USkeletalMeshSocket) :
  forall m, Keyed m -> Keyed (foldl (fun m Socket => TMapAdd (SocketHash Socket) Socket m) m L).
Proof.
  induction L as [|s L IH]; intros m Hm; [done|]. simpl. by apply IH, Keyed_Add.
Qed.

Lemma AddSockets_sockets (L : list USkeletalMeshSocket) :
  forall Sk, Sockets (AddSockets Sk L) = Sockets Sk ++ L.
Proof.
  unfold AddSockets. induction L as [|s L IH]; intros Sk; simpl.
  - by rewrite app_nil_r.
  - rewrite IH. simpl. rewrite <- app_assoc. by destruct s.
Qed.

Lemma AddSockets_bones (L : list USkeletalMeshSocket) :
  forall Sk, ReferenceSkeleton (AddSockets Sk L) = ReferenceSkeleton Sk.
Proof.
  unfold AddSockets. induction L as [|s L IH]; intros Sk; simpl; [done|]. by rewrite IH.
Qed.

Lemma MergeBone_sockets Params nodes idx Skeleton BoneIndex b st c :
  MergeBone Params nodes idx Skeleton BoneIndex b st = Ok c ->
  match c with
  | Continue _ st' =>
      HashToSockets st' = HashToSockets st /\
      bMergeSkeletonsFailed st' = bMergeSkeletonsFailed st
  | Break st' => bMergeSkeletonsFailed st' = true
  end.
Proof.
  intros HM. destruct c as [b' st'|st'].
  - apply MergeBone_Continue in HM
      as (Bone & node & pn & ph & poses & log & sp & T & _ & _ & _ & _ & _ & ->). done.
  - apply MergeBone_Break in HM as (_ & node & ->). done.
Qed.

Lemma MergeBones_sockets Params nodes idx Skeleton l :
  forall b st st', MergeBones Params nodes idx Skeleton l b st = Ok st' ->
    (bMergeSkeletonsFailed st = true -> bMergeSkeletonsFailed st' = true) /\
    (bMergeSkeletonsFailed st' = false -> HashToSockets st' = HashToSockets st).
Proof.
  induction l as [|i l IH]; intros b st st' HM; simpl in HM.
  - by inversion HM; subst.
  - inv_bind HM as c Hc. apply MergeBone_sockets in Hc.
    destruct c as [b' st1|st1].
    + destruct Hc as [Hs Hf]. apply IH in HM as [HM1 HM2]. rewrite <- Hs, <- Hf. done.
    + inversion HM; subst. split; [done|]. congruence.
Qed.

Lemma MergeSkeletonsFrom_sockets Params nodes l :
  bMergeSockets Params = true ->
  forall idx st st', MergeSkeletonsFrom Params nodes idx l st = Ok st' ->
    (bMergeSkeletonsFailed st = true -> bMergeSkeletonsFailed st' = true) /\
    (bMergeSkeletonsFailed st' = false ->
     HashToSockets st' =
       foldl (fun m Socket => TMapAdd (SocketHash Socket) Socket m)
         (HashToSockets st) (AllSockets l)).
Proof.
  intros Hflag. induction l as [|p l IH]; intros idx st st' HM; simpl in HM.
  - by inversion HM; subst.
  - inv_bind HM as st1 Hst1. apply IH in HM as [HM1 HM2].
    unfold MergeSkeleton in Hst1. inv_bind Hst1 as Skel HS. apply checked_Ok in HS. subst p.
    inv_bind Hst1 as st0 Hst0. apply MergeBones_sockets in Hst0 as [H01 H02].
    rewrite Hflag in Hst1. simpl. rewrite foldl_app.
    destruct (bMergeSkeletonsFailed st0) eqn:Hf0.
    + rewrite andb_true_r in Hst1.
      destruct (bCheckSkeletonsCompatibility Params); inversion Hst1; subst st1; clear Hst1.
      * split; [auto|]. intros Hf. rewrite HM1 in Hf by done. discriminate.
      * simpl in *. split; [auto|]. intros Hf. rewrite HM1 in Hf by done. discriminate.
    + rewrite andb_false_r in Hst1. inversion Hst1; subst st1; clear Hst1. simpl in *.
      split.
      * intros Hf. specialize (H01 Hf). congruence.
      * intros Hf. rewrite HM2 by done. rewrite H02 by done. done.
Qed.

(** C7 (as amended): with socket merging enabled, the sockets of the
    output hold, for every key hash(socket name, bone name) that occurs in
    some source, exactly one socket with that key, and it is the last
    occurrence in merge order (an earlier one is replaced). *)
Theorem C7_sockets_last_occurrence_kept (fuel : nat) (Params : FSkeletonMergeParams)
    (SkeletalNodes : list USCS_Node) (Sk : USkeleton) (s : USkeletalMeshSocket) :
  MergeSkeletons fuel Params SkeletalNodes = Ok (Some Sk) ->
  bMergeSockets Params = true ->
  s ∈ AllSockets (UniqueSkeletons Params) ->
  exists t,
    last (filter (fun x => SocketHash x = SocketHash s)
            (AllSockets (UniqueSkeletons Params))) = Some t /\
    filter (fun x => SocketHash x = SocketHash s) (Sockets Sk) = [t].
Proof.
  intros HM Hflag Hs. unfold MergeSkeletons in HM.
  inv_bind HM as acc Hacc. destruct acc as [st|]; [|discriminate].
  destruct (bMergeSkeletonsFailed st) eqn:Hf; [discriminate|].
  inv_bind HM as Ref HRef. rewrite Hflag in HM. inversion HM; subst Sk; clear HM.
  rewrite AddSockets_sockets. simpl.
  unfold AccumulateSkeletons in Hacc.
  destruct (decide _); [discriminate|]. inv_bind Hacc as t Ht.
  destruct (decide _); [discriminate|]. inv_bind Hacc as st0 Hst0.
  inversion Hacc; subst st0; clear Hacc.
  apply (MergeSkeletonsFrom_sockets _ _ _ Hflag) in Hst0 as [_ Hst0].
  specialize (Hst0 Hf). simpl in Hst0.
  assert (HK : Keyed (HashToSockets st)).
  { rewrite Hst0. apply MergeSockets_Keyed. split; [apply NoDup_nil_2|].
    intros k v Hin. by apply elem_of_nil in Hin. }
  rewrite (Keyed_values _ (SocketHash s) HK), Hst0, MergeSockets_find.
  set (F := filter _ _).
  assert (HF : s ∈ F) by (by apply list_elem_of_filter).
  destruct (last F) as [t'|] eqn:Hlast; [eauto|].
  apply last_None in Hlast. rewrite Hlast in HF. by apply elem_of_nil in HF.
Qed.

(** ** The renaming of bones *)

Lemma Slash1_spec (n : FName) : Slash1 n = String.append n "/1".
Proof. done. Qed.

Lemma Slash1_ne (n : FName) : Slash1 n ≠ n.
Proof.
  unfold Slash1, PathCombine. induction n as [|a n IH]; simpl; [done|].
  intros Heq. injection Heq as Heq. by apply IH.
Qed.

Lemma Slash1_inj (a b : FName) : Slash1 a = Slash1 b -> a = b.
Proof.
  unfold Slash1, PathCombine. revert b.
  induction a as [|x a IH]; intros [|y b]; simpl; intros Heq.
  - done.
  - injection Heq as _ Heq. destruct b as [|z b]; simpl in Heq; [discriminate|].
    injection Heq as _ Heq. destruct b; discriminate.
  - injection Heq as _ Heq. destruct a as [|z a]; simpl in Heq; [discriminate|].
    injection Heq as _ Heq. destruct a; discriminate.
  - injection Heq as -> Heq. f_equal. by apply IH.
Qed.

Lemma IsNone_Slash1 (n : FName) : IsNone (Slash1 n) = false.
Proof.
  unfold IsNone, NAME_None, Slash1, PathCombine. apply bool_decide_eq_false.
  destruct n as [|a [|b [|c [|d [|e n]]]]]; simpl; intros Heq; discriminate.
Qed.

(** ** The parent of a secondary root and the transform of a grafted bone *)

Lemma BoneParent_secondary_root nodes idx Skeleton Bone bn0 i Node :
  (0 < idx)%nat -> ParentIndex Bone = INDEX_NONE ->
  list_find (NodeUsesSkeleton Skeleton) nodes = Some (i, Node) ->
  BoneParent nodes idx Skeleton Bone bn0 =
    Ok (Some Node, Slash1 (AttachToName Node), GetTypeHash (Slash1 (AttachToName Node))).
Proof.
  intros Hidx Hroot Hfind. unfold BoneParent.
  rewrite decide_False by (rewrite Hroot; tauto). simpl.
  rewrite decide_True by done.
  unfold ResolveAttachment. rewrite Hfind, IsNone_Slash1. done.
Qed.

Lemma GraftTransform_scale idx Bone BoneIndex n node SourcePose T :
  GraftTransform idx Bone BoneIndex n node SourcePose = Ok T ->
  Scale3D T = Scale3D SourcePose.
Proof.
  unfold GraftTransform. intros HG.
  destruct (decide (0 < idx)%nat); [|by inversion HG].
  inv_bind HG as Node HNode. destruct (IsValidIndex _ _); [|by inversion HG].
  inv_bind HG as rel Hrel. destruct (decide (ParentIndex Bone = INDEX_NONE)).
  - inv_bind HG as w Hw. by inversion HG.
  - destruct (decide (0 < BoneIndex)%nat); by inversion HG.
Qed.

Lemma GraftTransform_plain idx Bone BoneIndex n node SourcePose T :
  GraftTransform idx Bone BoneIndex n node SourcePose = Ok T ->
  (forall Node, node = Some Node -> MeshHasBone Node n = false) ->
  T = SourcePose.
Proof.
  unfold GraftTransform, MeshHasBone. intros HG Hno.
  destruct (decide (0 < idx)%nat); [|by inversion HG].
  inv_bind HG as Node HNode. apply checked_Ok in HNode.
  rewrite (Hno Node HNode) in HG. by inversion HG.
Qed.

Lemma IsValidIndex_ArrayAt {A : Type} (l : list A) (i : Z) :
  IsValidIndex l i = true ->
  (exists x, ArrayAt l i = Ok x) /\ (exists x0, l !! 0%nat = Some x0 /\ ArrayAt l 0 = Ok x0).
Proof.
  intros Hv. unfold ArrayAt. rewrite Hv.
  unfold IsValidIndex in *. apply bool_decide_eq_true in Hv. split.
  - destruct (l !! Z.to_nat i) as [x|] eqn:Hx; [by exists x|].
    apply lookup_ge_None in Hx. lia.
  - destruct l as [|x0 l]; [simpl in Hv; lia|]. exists x0. split; [done|].
    rewrite bool_decide_eq_true_2; [done|]. simpl. lia.
Qed.

Lemma GraftTransform_root idx Bone BoneIndex n Node SourcePose :
  (0 < idx)%nat -> ParentIndex Bone = INDEX_NONE -> MeshHasBone Node n = true ->
  exists RootPose,
    RawRefBonePose (RefSkeleton (SkeletalMeshAsset (ComponentTemplate Node))) !! 0%nat
      = Some RootPose /\
    GraftTransform idx Bone BoneIndex n (Some Node) SourcePose =
      Ok (MkTransform
            (TransformRotation (RelativeTransform (ComponentTemplate Node)) (Rotation RootPose))
            (TransformPosition (RelativeTransform (ComponentTemplate Node)) (Translation RootPose))
            (Scale3D SourcePose)).
Proof.
  intros Hidx Hroot Hhas. unfold GraftTransform, MeshHasBone in *.
  rewrite decide_True by done. simpl. rewrite Hhas.
  destruct (IsValidIndex_ArrayAt _ _ Hhas) as [[rel Hrel] (RootPose & H0 & HA0)].
  exists RootPose. split; [done|].
  rewrite Hrel. simpl. rewrite decide_True by done. rewrite HA0. done.
Qed.

(** C6 (as amended): for the root bone of a secondary skeleton whose
    blueprint node is found and for which the pose lookup of lines 961-962
    succeeds, so that the rebase of lines 964-977 is carried out, the pose
    entered into the merged hierarchy has the source pose's scale, and its
    location and rotation are the node's relative transform applied to the
    location and rotation of bone 0 of the mesh asset of that node (the
    secondary mesh's own root, not the attach target); the bone is filed
    under the path hash of the attach name.  Without the compatibility
    check the bone is always entered. *)
Theorem C6_secondary_root_transform (Params : FSkeletonMergeParams)
    (SkeletalNodes : list USCS_Node) (SkeletonIndex : nat) (Skeleton : USkeleton)
    (BoneIndex : nat) (b : bool) (st : MergeState)
    (Bone : FMeshBoneInfo) (SourcePose : Pose) (i : nat) (Node : USCS_Node) :
  (0 < SkeletonIndex)%nat ->
  RawRefBoneInfo (ReferenceSkeleton Skeleton) !! BoneIndex = Some Bone ->
  ParentIndex Bone = INDEX_NONE ->
  RawRefBonePose (ReferenceSkeleton Skeleton) !! BoneIndex = Some SourcePose ->
  list_find (NodeUsesSkeleton Skeleton) SkeletalNodes = Some (i, Node) ->
  MeshHasBone Node (Slash1 (Name Bone)) = true ->
  exists RootPose,
    RawRefBonePose (RefSkeleton (SkeletalMeshAsset (ComponentTemplate Node))) !! 0%nat
      = Some RootPose /\
    let T_rel := RelativeTransform (ComponentTemplate Node) in
    let Merged := MkTransform (TransformRotation T_rel (Rotation RootPose))
                    (TransformPosition T_rel (Translation RootPose))
                    (Scale3D SourcePose) in
    let Attach := Slash1 (AttachToName Node) in
    let PathHash := HashCombine (default 0 (BoneNamesToPathHash st !! Attach))
                      (GetTypeHash Attach) in
    (forall b' st',
        MergeBone Params SkeletalNodes SkeletonIndex Skeleton BoneIndex b st
          = Ok (Continue b' st') ->
        MergedBoneHierarchy st' =
          AddBone (Slash1 (Name Bone)) Merged PathHash (MergedBoneHierarchy st) /\
        BoneNamePose (MergedBoneHierarchy st') !! Slash1 (Name Bone) = Some Merged) /\
    (bCheckSkeletonsCompatibility Params = false ->
     exists st', MergeBone Params SkeletalNodes SkeletonIndex Skeleton BoneIndex b st
                 = Ok (Continue b st')).
Proof.
  intros Hidx HBone Hroot Hpose Hfind Hhas.
  destruct (GraftTransform_root SkeletonIndex Bone BoneIndex (Slash1 (Name Bone)) Node
              SourcePose Hidx Hroot Hhas) as (RootPose & H0 & HG).
  exists RootPose. split; [done|]. intros T_rel Merged Attach PathHash.
  pose proof (BoneParent_secondary_root SkeletalNodes SkeletonIndex Skeleton Bone
                (BoneNode st) i Node Hidx Hroot Hfind) as HP.
  split.
  - intros b' st' HM.
    apply MergeBone_Continue in HM
      as (Bone' & node & pn & ph & poses & log & sp & T & HB' & HP' & HC & Hsp & HT & ->).
    rewrite HBone in HB'. inversion HB'; subst Bone'; clear HB'.
    rewrite HP in HP'. inversion HP'; subst node pn ph; clear HP'.
    rewrite Hpose in Hsp. inversion Hsp; subst sp; clear Hsp.
    rewrite HG in HT. inversion HT; subst T; clear HT.
    simpl. split; [done|]. by rewrite lookup_insert_eq.
  - intros Hflag. unfold MergeBone.
    rewrite (ArrayAt_lookup _ _ _ HBone). simpl. rewrite HP. simpl.
    unfold CheckCompatibility. rewrite Hflag. simpl.
    rewrite (ArrayAt_lookup _ _ _ Hpose). simpl. rewrite HG. simpl. eauto.
Qed.

(** C8 (as amended): with the compatibility check on, a bone that is
    already recorded under the same path hash with a pose that differs from
    the source's does not stop the merge: the failure flag is untouched, the
    warning is logged unless this source has logged it before, the recorded
    source pose is replaced by the later one, and the merged hierarchy
    receives the transform computed for the later source: its scale is the
    source pose's, and it is the source pose itself whenever the graft
    lookup of lines 961-962 does not find the bone. *)
Theorem C8_pose_conflict_last_wins (Params : FSkeletonMergeParams)
    (SkeletalNodes : list USCS_Node) (SkeletonIndex : nat) (Skeleton : USkeleton)
    (BoneIndex : nat) (b : bool) (st : MergeState)
    (Bone : FMeshBoneInfo) (SourcePose Existing T : Pose)
    (node : option USCS_Node) (pn : FName) (ph : Z) :
  bCheckSkeletonsCompatibility Params = true ->
  RawRefBoneInfo (ReferenceSkeleton Skeleton) !! BoneIndex = Some Bone ->
  RawRefBonePose (ReferenceSkeleton Skeleton) !! BoneIndex = Some SourcePose ->
  BoneParent SkeletalNodes SkeletonIndex Skeleton Bone (BoneNode st) = Ok (node, pn, ph) ->
  BoneNamesToPathHash st !! Slash1 (Name Bone)
    = Some (HashCombine (default 0 (BoneNamesToPathHash st !! pn)) ph) ->
  BoneNamesToBonePose st !! Slash1 (Name Bone) = Some Existing ->
  TransformEquals Existing SourcePose = false ->
  GraftTransform SkeletonIndex Bone BoneIndex (Slash1 (Name Bone)) node SourcePose = Ok T ->
  exists st',
    MergeBone Params SkeletalNodes SkeletonIndex Skeleton BoneIndex b st
      = Ok (Continue true st') /\
    bMergeSkeletonsFailed st' = bMergeSkeletonsFailed st /\
    Log st' = (if b then Log st
               else Log st ++ [LogDifferentReferencePose (GetName Skeleton)]) /\
    BoneNamesToBonePose st' !! Slash1 (Name Bone) = Some SourcePose /\
    BoneNamePose (MergedBoneHierarchy st') !! Slash1 (Name Bone) = Some T /\
    Scale3D T = Scale3D SourcePose /\
    ((forall Node, node = Some Node -> MeshHasBone Node (Slash1 (Name Bone)) = false) ->
     T = SourcePose).
Proof.
  intros Hflag HBone Hpose HP Hpath Hex Hne HG.
  unfold MergeBone. rewrite (ArrayAt_lookup _ _ _ HBone). simpl. rewrite HP. simpl.
  unfold CheckCompatibility. rewrite Hflag, Hpath.
  rewrite decide_False by (intros Hc; by apply Hc).
  rewrite Hex, (ArrayAt_lookup _ _ _ Hpose). simpl.
  destruct b; simpl.
  - rewrite HG. simpl.
    eexists. split; [done|]. simpl. rewrite !lookup_insert_eq.
    repeat split; try done.
    + by eapply GraftTransform_scale.
    + by eapply GraftTransform_plain.
  - rewrite Hne. simpl. rewrite HG. simpl.
    eexists. split; [done|]. simpl. rewrite !lookup_insert_eq.
    repeat split; try done.
    + by eapply GraftTransform_scale.
    + by eapply GraftTransform_plain.
Qed.

Lemma NamesIn_empty P : NamesIn P EmptyHierarchy.
Proof.
  split; simpl.
  - intros n [x Hx]. by rewrite lookup_empty in Hx.
  - intros k l n Hl. by rewrite lookup_empty in Hl.
Qed.

Lemma NamesIn_AddBone P n pose k H : P n -> NamesIn P H -> NamesIn P (AddBone n pose k H).
Proof.
  intros Hn [H1 H2]. split; simpl.
  - intros x Hx. destruct (decide (n = x)) as [->|Hne]; [done|].
    rewrite lookup_insert_ne in Hx by done. auto.
  - intros k' l x Hl Hx. destruct (decide (k = k')) as [->|Hne].
    + rewrite lookup_insert_eq in Hl. inversion Hl; subst l.
      apply TSetAdd_elem in Hx as [->|Hx]; [done|].
      destruct (PathHashToBoneNames H !! k') eqn:Hq; simpl in Hx; [eauto|].
      by apply elem_of_nil in Hx.
    + rewrite lookup_insert_ne in Hl by done. eauto.
Qed.

Lemma Renamed_bone (l : list (option USkeleton)) (Skeleton : USkeleton) i Bone :
  Some Skeleton ∈ l ->
  RawRefBoneInfo (ReferenceSkeleton Skeleton) !! i = Some Bone ->
  Renamed l (Slash1 (Name Bone)).
Proof.
  intros Hin HB. exists (Name Bone). split; [|split; [done|apply Slash1_ne]].
  unfold SourceBoneNames. apply list_elem_of_In, in_flat_map.
  exists (Some Skeleton). split; [by apply list_elem_of_In|].
  apply list_elem_of_In, list_elem_of_fmap. exists Bone. split; [done|].
  by eapply list_elem_of_lookup_2.
Qed.

Lemma MergeBones_names (srcs : list (option USkeleton)) Params nodes idx Skeleton l :
  Some Skeleton ∈ srcs ->
  forall b st st', MergeBones Params nodes idx Skeleton l b st = Ok st' ->
    NamesIn (Renamed srcs) (MergedBoneHierarchy st) ->
    NamesIn (Renamed srcs) (MergedBoneHierarchy st').
Proof.
  intros Hin. induction l as [|i l IH]; intros b st st' HM HN; simpl in HM.
  - by inversion HM; subst.
  - inv_bind HM as c Hc. destruct c as [b' st1|st1].
    + apply (IH _ _ _ HM).
      apply MergeBone_Continue in Hc
        as (Bone & node & pn & ph & poses & log & sp & T & HB & _ & _ & _ & _ & ->).
      simpl. apply NamesIn_AddBone; [|done]. by eapply Renamed_bone.
    + inversion HM; subst st'; clear HM.
      apply MergeBone_Break in Hc as (_ & node & ->). done.
Qed.

Lemma MergeSkeletonsFrom_names (srcs : list (option USkeleton)) Params nodes l :
  (forall p, p ∈ l -> p ∈ srcs) ->
  forall idx st st', MergeSkeletonsFrom Params nodes idx l st = Ok st' ->
    NamesIn (Renamed srcs) (MergedBoneHierarchy st) ->
    NamesIn (Renamed srcs) (MergedBoneHierarchy st').
Proof.
  induction l as [|p l IH]; intros Hsub idx st st' HM HN; simpl in HM.
  - by inversion HM; subst.
  - inv_bind HM as st1 Hst1.
    apply (IH (fun q Hq => Hsub q (list_elem_of_further _ _ _ Hq)) _ _ _ HM).
    unfold MergeSkeleton in Hst1. inv_bind Hst1 as Skel HS. apply checked_Ok in HS.
    subst p. inv_bind Hst1 as st0 Hst0.
    apply (MergeBones_names srcs) in Hst0; [|apply Hsub; left|done].
    destruct (_ && _); [by inversion Hst1; subst|].
    destruct (bMergeSockets Params); by inversion Hst1; subst.
Qed.

Lemma AddUnique_elem p q l : q ∈ AddUnique p l -> q = p \/ q ∈ l.
Proof.
  unfold AddUnique. destruct (decide _); [by right|].
  rewrite elem_of_app, list_elem_of_singleton. tauto.
Qed.

Lemma UniqueSkeletons_sub Params p : p ∈ UniqueSkeletons Params -> p ∈ SkeletonsToMerge Params.
Proof.
  unfold UniqueSkeletons.
  cut (forall l acc, p ∈ foldl (fun l p => AddUnique p l) acc l -> p ∈ acc \/ p ∈ l).
  { intros Hgen Hp. apply Hgen in Hp as [Hp|Hp]; [by apply elem_of_nil in Hp|done]. }
  induction l as [|q l IH]; intros acc Hp; simpl in Hp; [by left|].
  apply IH in Hp as [Hp|Hp]; [|right; by right].
  apply AddUnique_elem in Hp as [->|Hp]; [right; left|by left].
Qed.

Lemma Accumulate_names Params nodes st :
  AccumulateSkeletons Params nodes = Ok (Some st) ->
  NamesIn (Renamed (SkeletonsToMerge Params)) (MergedBoneHierarchy st).
Proof.
  unfold AccumulateSkeletons. intros Hacc.
  destruct (decide _); [discriminate|]. inv_bind Hacc as t Ht.
  destruct (decide _); [discriminate|]. inv_bind Hacc as st0 Hst0.
  inversion Hacc; subst st0; clear Hacc.
  eapply (MergeSkeletonsFrom_names _ _ _ _ (UniqueSkeletons_sub Params)); eauto.
  apply NamesIn_empty.
Qed.

Lemma PopulateSkeleton_names (P : FName -> Prop) fuel H M :
  NamesIn P H -> PopulateSkeleton fuel H EmptyRefSkeleton = Ok M ->
  forall b, b ∈ RawRefBoneInfo M -> P (Name b).
Proof.
  intros [_ HN] HP. unfold PopulateSkeleton in HP.
  inv_bind HP as l Hl. apply checked_Ok in Hl.
  inv_bind HP as r Hr. inv_bind HP as pose Hpose.
  inv_bind HP as M0 HM0. apply ModifierAdd_Ok in HM0 as [-> _].
  assert (Hrl : r ∈ l).
  { unfold ArrayAt in Hr. destruct (IsValidIndex l 0); [|discriminate].
    apply checked_Ok in Hr. by eapply list_elem_of_lookup_2. }
  eapply (RecursiveAddBones_inv H (fun M => forall b, b ∈ RawRefBoneInfo M -> P (Name b)));
    [| | |exact HP].
  - intros M1 parent k l1 child pose1 HI _ _ Hl1 Hc _ _ b Hb. simpl in Hb.
    apply elem_of_app in Hb as [Hb|Hb]; [auto|].
    apply list_elem_of_singleton in Hb. subst b. simpl. eauto.
  - intros b Hb. simpl in Hb. apply list_elem_of_singleton in Hb. subst b. simpl. eauto.
  - unfold BoneNames. simpl. left.
Qed.

(** C10: every bone the merge enters into the merged hierarchy is entered
    under the source bone's name followed by "/1", never under the source
    name itself; so every name recorded in the hierarchy, and every bone of
    the output skeleton, is a source bone name with "/1" appended. *)
Theorem C10_bones_renamed_with_slash_1 (fuel : nat) (Params : FSkeletonMergeParams)
    (SkeletalNodes : list USCS_Node) :
  (forall SkeletonIndex Skeleton BoneIndex b st b' st',
      MergeBone Params SkeletalNodes SkeletonIndex Skeleton BoneIndex b st
        = Ok (Continue b' st') ->
      exists Bone T k,
        RawRefBoneInfo (ReferenceSkeleton Skeleton) !! BoneIndex = Some Bone /\
        MergedBoneHierarchy st' =
          AddBone (String.append (Name Bone) "/1") T k (MergedBoneHierarchy st) /\
        String.append (Name Bone) "/1" ≠ Name Bone) /\
  (forall st n,
      AccumulateSkeletons Params SkeletalNodes = Ok (Some st) ->
      is_Some (BoneNamePose (MergedBoneHierarchy st) !! n) ->
      Renamed (SkeletonsToMerge Params) n) /\
  (forall Sk b,
      MergeSkeletons fuel Params SkeletalNodes = Ok (Some Sk) ->
      b ∈ RawRefBoneInfo (ReferenceSkeleton Sk) ->
      Renamed (SkeletonsToMerge Params) (Name b)).
Proof.
  split; [|split].
  - intros idx Skeleton BoneIndex b st b' st' HM.
    apply MergeBone_Continue in HM
      as (Bone & node & pn & ph & poses & log & sp & T & HB & _ & _ & _ & _ & ->).
    exists Bone, T, (HashCombine (default 0 (BoneNamesToPathHash st !! pn)) ph).
    split; [done|]. split; [done|]. apply Slash1_ne.
  - intros st n Hacc Hn. apply Accumulate_names in Hacc as [H1 _]. auto.
  - intros Sk b HM Hb. unfold MergeSkeletons in HM.
    inv_bind HM as acc Hacc. destruct acc as [st|]; [|discriminate].
    destruct (bMergeSkeletonsFailed st); [discriminate|].
    inv_bind HM as Ref HRef. apply Accumulate_names in Hacc.
    assert (HR : ReferenceSkeleton Sk = Ref).
    { inversion HM. destruct (bMergeSockets Params); [|done].
      by rewrite AddSockets_bones. }
    rewrite HR in Hb. eapply PopulateSkeleton_names; eauto.
Qed.

(** ** The bones emitted below a bone, as a list *)

Lemma PreorderList_app rec H cs1 cs2 l :
  PreorderList rec H (cs1 ++ cs2) = Ok l <->
  exists l1 l2, PreorderList rec H cs1 = Ok l1 /\ PreorderList rec H cs2 = Ok l2 /\
                l = l1 ++ l2.
Proof.
  revert l. induction cs1 as [|c cs1 IH]; intros l; simpl.
  - split.
    + intros Hl. exists [], l. done.
    + intros (l1 & l2 & Hl1 & Hl2 & ->). inversion Hl1; subst. done.
  - split.
    + intros Hl. inv_bind Hl as pose Hpose. inv_bind Hl as sub Hsub.
      inv_bind Hl as rest Hrest. inversion Hl; subst l; clear Hl.
      apply IH in Hrest as (l1 & l2 & Hl1 & Hl2 & ->).
      exists ((c, pose) :: sub ++ l1), l2. rewrite Hpose. simpl. rewrite Hsub. simpl.
      rewrite Hl1. simpl. split; [done|]. split; [done|].
      by rewrite <- app_assoc.
    + intros (l1 & l2 & Hl1 & Hl2 & ->).
      inv_bind Hl1 as pose Hpose. inv_bind Hl1 as sub Hsub.
      inv_bind Hl1 as rest Hrest. inversion Hl1; subst l1; clear Hl1.
      rewrite Hpose. simpl. rewrite Hsub. simpl.
      assert (Hr : PreorderList rec H (cs1 ++ cs2) = Ok (rest ++ l2)).
      { apply IH. eauto. }
      rewrite Hr. simpl. by rewrite <- app_assoc.
Qed.

(** [RecursiveAddBones] appends to the modifier the bones of [Preorder],
    with their poses, when their names are new and distinct; it fails at
    the first bone whose name the modifier already holds. *)
Lemma RecursiveAddBones_Preorder (H : FMergedBoneHierarchy) :
  forall fuel M p l,
    Preorder fuel H p = Ok l -> p ∈ BoneNames M -> NoDup (BoneNames M) ->
    if decide (NoDup (BoneNames M ++ l.*1)) then
      exists M', RecursiveAddBones fuel H M p = Ok M' /\
                 Name <$> RawRefBoneInfo M' = (Name <$> RawRefBoneInfo M) ++ l.*1 /\
                 RawRefBonePose M' = RawRefBonePose M ++ l.*2
    else RecursiveAddBones fuel H M p = Crash.
Proof.
  induction fuel as [|fuel IH]; intros M p l HP Hp HM; [discriminate|].
  simpl in HP. simpl. inv_bind HP as k Hk. rewrite Hk. simpl.
  destruct (FindChildBonesForPath H k) as [cs|].
  2: { inversion HP; subst l. simpl. rewrite app_nil_r. rewrite decide_True by done.
       exists M. by rewrite !app_nil_r. }
  revert M l HP Hp HM. induction cs as [|c cs IHcs]; intros M l HP Hp HM; simpl in HP.
  - inversion HP; subst l. simpl. rewrite app_nil_r. rewrite decide_True by done.
    exists M. by rewrite !app_nil_r.
  - inv_bind HP as pose Hpose. inv_bind HP as sub Hsub. inv_bind HP as rest Hrest.
    inversion HP; subst l; clear HP.
    rewrite !fmap_cons, !fmap_app. cbn [foldM fst snd]. rewrite Hpose. simpl mbind.
    destruct (decide (c ∈ BoneNames M)) as [Hc|Hc].
    { rewrite (ModifierAdd_used (MkBoneInfo c c (FindBoneIndex M p)) pose M Hc).
      rewrite decide_False; [done|].
      intros Hnd. apply NoDup_app in Hnd as (_ & Hnd & _). apply (Hnd c Hc). left. }
    rewrite (ModifierAdd_child _ _ _ _ Hp Hc). simpl mbind.
    set (M1 := Appended (MkBoneInfo c c (FindBoneIndex M p)) pose M).
    assert (HN1 : BoneNames M1 = BoneNames M ++ [c]).
    { unfold BoneNames, M1. simpl. by rewrite fmap_app. }
    assert (Hc1 : c ∈ BoneNames M1).
    { rewrite HN1. apply elem_of_app. right. left. }
    assert (HM1 : NoDup (BoneNames M1)).
    { rewrite HN1. apply NoDup_app. split; [done|]. split; [|apply NoDup_singleton].
      intros x Hx Hx'. apply list_elem_of_singleton in Hx'. by subst x. }
    pose proof (IH M1 c sub Hsub Hc1 HM1) as Hrec.
    destruct (decide (NoDup (BoneNames M1 ++ sub.*1))) as [Hnd1|Hnd1].
    + destruct Hrec as (M2 & -> & Hn2 & Hp2). simpl mbind.
      assert (HN2 : BoneNames M2 = BoneNames M ++ c :: sub.*1).
      { unfold BoneNames at 1. rewrite Hn2. fold (BoneNames M1). rewrite HN1.
        by rewrite <- app_assoc. }
      assert (Hp2' : p ∈ BoneNames M2).
      { rewrite HN2. apply elem_of_app. by left. }
      assert (HM2 : NoDup (BoneNames M2)).
      { unfold BoneNames at 1. rewrite Hn2. exact Hnd1. }
      pose proof (IHcs M2 rest Hrest Hp2' HM2) as Hcs.
      assert (Hsame : BoneNames M2 ++ rest.*1 = BoneNames M ++ c :: sub.*1 ++ rest.*1).
      { rewrite HN2. rewrite <- app_assoc. done. }
      rewrite Hsame in Hcs.
      destruct (decide (NoDup (BoneNames M ++ c :: sub.*1 ++ rest.*1))) as [Hnd|Hnd].
      * destruct Hcs as (M3 & HM3 & Hn3 & Hp3). exists M3. split; [done|].
        rewrite Hn3, Hp3, Hn2, Hp2. unfold M1, Appended. cbn [RawRefBoneInfo RawRefBonePose].
        rewrite !fmap_app, <- !app_assoc. done.
      * exact Hcs.
    + rewrite Hrec. simpl mbind. rewrite decide_False; [done|].
      intros Hnd. apply Hnd1. rewrite HN1, <- app_assoc. simpl.
      rewrite app_comm_cons, app_assoc in Hnd. by apply NoDup_app in Hnd as (Hnd & _ & _).
Qed.

(** ** Termination of the walk *)

Lemma NoDup_keys_length {V : Type} (m : gmap FName V) (l : list FName) :
  NoDup l -> (forall n, n ∈ l -> is_Some (m !! n)) -> (length l <= size m)%nat.
Proof.
  intros Hnd Hin. rewrite <- size_dom.
  change (size (dom m)) with (length (elements (dom m))).
  apply submseteq_length, NoDup_submseteq; [done|].
  intros n Hn. apply elem_of_elements, elem_of_dom. by apply Hin.
Qed.

Lemma Recorded_Appended (H : FMergedBoneHierarchy) (M : FReferenceSkeleton)
    (BoneInfo : FMeshBoneInfo) (pose pose' : Pose) :
  Recorded H M -> Name BoneInfo ∉ BoneNames M ->
  BoneNamePose H !! Name BoneInfo = Some pose' ->
  Recorded H (Appended BoneInfo pose M).
Proof.
  intros [Hnd Hin] Hfresh Hpose. unfold Recorded, BoneNames. simpl. rewrite fmap_app. simpl.
  split.
  - apply NoDup_app. split; [done|]. split; [|apply NoDup_singleton].
    intros x Hx Hx'. apply list_elem_of_singleton in Hx'. by subst x.
  - intros n Hn. apply elem_of_app in Hn as [Hn|Hn]; [by apply Hin|].
    apply list_elem_of_singleton in Hn. subst n. by eexists.
Qed.

Lemma RecursiveAddBones_Recorded (H : FMergedBoneHierarchy) (fuel : nat)
    (M : FReferenceSkeleton) (p : FName) (M' : FReferenceSkeleton) :
  Recorded H M -> p ∈ BoneNames M -> RecursiveAddBones fuel H M p = Ok M' -> Recorded H M'.
Proof.
  apply (RecursiveAddBones_inv H (Recorded H)).
  intros M0 parent k l child pose HI _ _ _ _ Hpose Hfresh.
  by apply (Recorded_Appended H M0 _ pose pose).
Qed.

(** With more fuel than the hierarchy has poses, the recursion ends: it
    returns or fails a check. *)
Lemma RecursiveAddBones_ends (H : FMergedBoneHierarchy) :
  forall fuel M p,
    Recorded H M -> p ∈ BoneNames M ->
    (size (BoneNamePose H) < fuel + length (BoneNames M))%nat ->
    RecursiveAddBones fuel H M p <> OutOfFuel.
Proof.
  induction fuel as [|fuel IH]; intros M p HR Hp Hsize.
  { destruct HR as [Hnd Hin]. pose proof (NoDup_keys_length _ _ Hnd Hin). simpl in Hsize. lia. }
  simpl. unfold GetBonePathHash.
  destruct (PathToBoneNames H !! p) as [k|]; simpl; [|done].
  destruct (FindChildBonesForPath H k) as [cs|]; [|done].
  revert M HR Hp Hsize. induction cs as [|c cs IHcs]; intros M HR Hp Hsize; [done|].
  cbn [foldM]. unfold GetReferencePose.
  destruct (BoneNamePose H !! c) as [pose|] eqn:Hpose; simpl; [|done].
  destruct (ModifierAdd (MkBoneInfo c c (FindBoneIndex M p)) pose M) as [M1| |] eqn:HM1;
    simpl; [|done|].
  2: { unfold ModifierAdd in HM1. repeat destruct (decide _); discriminate. }
  apply ModifierAdd_Ok in HM1 as [-> Hfresh]. simpl in Hfresh.
  set (M1 := Appended (MkBoneInfo c c (FindBoneIndex M p)) pose M).
  assert (HR1 : Recorded H M1) by (by apply (Recorded_Appended H M _ pose pose)).
  assert (HN1 : BoneNames M1 = BoneNames M ++ [c]).
  { unfold BoneNames, M1. simpl. by rewrite fmap_app. }
  assert (Hc1 : c ∈ BoneNames M1).
  { rewrite HN1. apply elem_of_app. right. left. }
  assert (Hs1 : (size (BoneNamePose H) < fuel + length (BoneNames M1))%nat).
  { rewrite HN1, length_app. simpl. lia. }
  pose proof (IH M1 c HR1 Hc1 Hs1) as Hrec.
  destruct (RecursiveAddBones fuel H M1 c) as [M2| |] eqn:HM2; [|done|done].
  pose proof (RecursiveAddBones_prefix _ _ _ _ _ HM2) as [ex Hex].
  assert (HN2 : BoneNames M2 = BoneNames M ++ c :: (Name <$> ex)).
  { unfold BoneNames at 1. rewrite Hex. fold (BoneNames M1). rewrite fmap_app.
    fold (BoneNames M1). rewrite HN1, <- app_assoc. done. }
  apply IHcs.
  - by eapply RecursiveAddBones_Recorded.
  - rewrite HN2. apply elem_of_app. by left.
  - rewrite HN2, length_app. simpl. lia.
Qed.

(** The recursion returns only where the walk does. *)
Lemma RecursiveAddBones_Ok_Preorder (H : FMergedBoneHierarchy) :
  forall fuel M p M',
    RecursiveAddBones fuel H M p = Ok M' -> exists l, Preorder fuel H p = Ok l.
Proof.
  induction fuel as [|fuel IH]; intros M p M' HR; [discriminate|].
  simpl in HR. simpl. inv_bind HR as k Hk. rewrite Hk. simpl.
  destruct (FindChildBonesForPath H k) as [cs|]; [|by eexists].
  revert M HR. induction cs as [|c cs IHcs]; intros M HR; [by eexists|].
  apply foldM_cons_Ok in HR as (M1 & H1 & HR).
  inv_bind H1 as pose Hpose. inv_bind H1 as Ma HMa.
  apply IH in H1 as [sub Hsub]. apply IHcs in HR as [rest Hrest].
  simpl. rewrite Hpose. simpl. rewrite Hsub. simpl. rewrite Hrest. simpl. by eexists.
Qed.

(** ** PopulateSkeleton: when it fails and what it emits *)

(** C1 (as amended): on a hierarchy built with AddBone, PopulateSkeleton
    fails when no bone has parent path hash HashCombine(0,0).  It does not
    count the candidates: with one or more it takes the first in insertion
    order as root, with no parent and its recorded pose, and emits it
    followed by the bones that the walk below it finds, with their poses,
    unless that walk meets a bone name a second time, in which case it
    fails.  It returns a skeleton in no other case, and it ends: with more
    fuel than the hierarchy has poses it returns or fails a check.  A
    further candidate is in the output only if the walk below the first
    finds it. *)
Theorem C1_populate_needs_a_root (adds : list (FName * Pose * Z)) (fuel : nat) :
  let H := AddBones adds EmptyHierarchy in
  (RootCandidates H = [] -> PopulateSkeleton fuel H EmptyRefSkeleton = Crash) /\
  (forall (r : FName) (rest : list FName) (l : list (FName * Pose)),
      RootCandidates H = r :: rest -> Preorder fuel H r = Ok l ->
      exists pose,
        BoneNamePose H !! r = Some pose /\
        if decide (NoDup (r :: l.*1)) then
          exists M,
            PopulateSkeleton fuel H EmptyRefSkeleton = Ok M /\
            RawRefBoneInfo M !! 0%nat = Some (MkBoneInfo r r INDEX_NONE) /\
            BoneNames M = r :: l.*1 /\ RawRefBonePose M = pose :: l.*2
        else PopulateSkeleton fuel H EmptyRefSkeleton = Crash) /\
  (forall M : FReferenceSkeleton,
      PopulateSkeleton fuel H EmptyRefSkeleton = Ok M ->
      exists (r : FName) (rest : list FName) (l : list (FName * Pose)),
        RootCandidates H = r :: rest /\ Preorder fuel H r = Ok l /\ NoDup (r :: l.*1)) /\
  ((size (BoneNamePose H) < fuel)%nat ->
   PopulateSkeleton fuel H EmptyRefSkeleton <> OutOfFuel).
Proof.
  intros H.
  assert (HC : Closed H) by (apply Closed_AddBones, Closed_empty).
  unfold PopulateSkeleton, RootCandidates, GetChildBonesForPath.
  destruct (PathHashToBoneNames H !! RootParentHash) as [cs|] eqn:Hcs; simpl.
  2: { split; [done|]. split; [intros; discriminate|]. split; [intros; discriminate|done]. }
  destruct cs as [|r rest]; [by apply closed_nonempty in Hcs|].
  assert (Hr : r ∈ r :: rest) by left.
  destruct (closed_pose H HC _ _ r Hcs Hr) as [pose Hpose].
  unfold ArrayAt, GetReferencePose. simpl. rewrite Hpose. simpl.
  pose (M0 := Appended (MkBoneInfo r r INDEX_NONE) pose EmptyRefSkeleton).
  assert (Hr0 : r ∈ BoneNames M0) by (unfold BoneNames; simpl; left).
  assert (HM0 : NoDup (BoneNames M0)) by (unfold BoneNames; simpl; apply NoDup_singleton).
  assert (Hwalk : forall l, Preorder fuel H r = Ok l ->
            if decide (NoDup (r :: l.*1)) then
              exists M, RecursiveAddBones fuel H M0 r = Ok M /\
                RawRefBoneInfo M !! 0%nat = Some (MkBoneInfo r r INDEX_NONE) /\
                BoneNames M = r :: l.*1 /\ RawRefBonePose M = pose :: l.*2
            else RecursiveAddBones fuel H M0 r = Crash).
  { intros l Hl.
    pose proof (RecursiveAddBones_Preorder H fuel M0 r l Hl Hr0 HM0) as Hrec.
    change (BoneNames M0 ++ l.*1) with (r :: l.*1) in Hrec.
    destruct (decide (NoDup (r :: l.*1))) as [Hnd|Hnd]; [|exact Hrec].
    destruct Hrec as (M & HM & Hn & Hp). exists M. split; [done|].
    pose proof (RecursiveAddBones_prefix _ _ _ _ _ HM) as [ex Hex].
    split; [by rewrite Hex|]. split; [exact Hn|exact Hp]. }
  split; [done|]. split; [|split].
  - intros r' rest' l Heq Hl. inversion Heq; subst r' rest'.
    exists pose. split; [done|]. by apply Hwalk.
  - intros M HM. exists r, rest.
    destruct (RecursiveAddBones_Ok_Preorder H fuel M0 r M HM) as [l Hl].
    exists l. split; [done|]. split; [done|].
    specialize (Hwalk l Hl). destruct (decide (NoDup (r :: l.*1))) as [Hnd|Hnd]; [done|].
    change (RecursiveAddBones fuel H M0 r = Ok M) in HM. rewrite Hwalk in HM. discriminate.
  - intros Hsize. apply (RecursiveAddBones_ends H fuel M0 r); [|done|].
    + split; [done|]. intros n Hn. unfold BoneNames in Hn. simpl in Hn.
      apply list_elem_of_singleton in Hn. subst n. by eexists.
    + unfold BoneNames. simpl. lia.
Qed.

Lemma PreorderList_mono (rec rec' : FName -> result (list (FName * Pose))) H cs l :
  (forall c sub, c ∈ cs -> rec c = Ok sub -> rec' c = Ok sub) ->
  PreorderList rec H cs = Ok l -> PreorderList rec' H cs = Ok l.
Proof.
  revert l. induction cs as [|c cs IH]; intros l Hrec HP; simpl in *; [done|].
  inv_bind HP as pose Hpose. inv_bind HP as sub Hsub. inv_bind HP as rest Hrest.
  rewrite Hpose. simpl. rewrite (Hrec c sub) by (done || left). simpl.
  rewrite (IH rest); [done| |done]. intros c' s' Hc'. apply Hrec. by right.
Qed.

Lemma Preorder_fuel H : forall fuel p l,
  Preorder fuel H p = Ok l -> Preorder (S fuel) H p = Ok l.
Proof.
  induction fuel as [|fuel IH]; intros p l HP; [discriminate|].
  simpl in HP. inv_bind HP as k Hk.
  change (Preorder (S (S fuel)) H p) with
    (k ← GetBonePathHash H p;
     match FindChildBonesForPath H k with
     | Some cs => PreorderList (Preorder (S fuel) H) H cs
     | None => Ok []
     end).
  rewrite Hk. simpl. destruct (FindChildBonesForPath H k) as [cs|]; [|done].
  eapply PreorderList_mono; [|exact HP]. intros c sub _. apply IH.
Qed.

Lemma Preorder_fuel_le H fuel fuel' p l :
  (fuel <= fuel')%nat -> Preorder fuel H p = Ok l -> Preorder fuel' H p = Ok l.
Proof.
  induction 1 as [|f Hle IH]; [done|]. intros HP. by apply Preorder_fuel, IH.
Qed.

Lemma Ok_bind {A B : Type} (a : A) (f : A -> result B) : (Ok a ≫= f) = f a.
Proof. done. Qed.

Lemma Preorder_unfold (fuel : nat) (H : FMergedBoneHierarchy) (p : FName) :
  Preorder (S fuel) H p =
    (k ← GetBonePathHash H p;
     match FindChildBonesForPath H k with
     | Some cs => PreorderList (Preorder fuel H) H cs
     | None => Ok []
     end).
Proof. done. Qed.

Lemma cnt_app p a b : cnt p (a ++ b) = (cnt p a + cnt p b)%nat.
Proof. unfold cnt. by rewrite filter_app, length_app. Qed.

Lemma cnt_cons p x a :
  cnt p (x :: a) = ((if decide (x = p) then 1 else 0) + cnt p a)%nat.
Proof. unfold cnt. rewrite filter_cons. by destruct (decide (x = p)). Qed.

Lemma cnt_notin p names : p ∉ names -> cnt p names = 0%nat.
Proof.
  induction names as [|x l IH]; intros Hp; [done|].
  rewrite cnt_cons. apply not_elem_of_cons in Hp as [Hne Hp].
  rewrite decide_False by done. by rewrite IH.
Qed.

Lemma cnt_NoDup p names : NoDup names -> p ∈ names -> cnt p names = 1%nat.
Proof.
  induction 1 as [|x l Hx Hnd IH]; intros Hp; [by apply elem_of_nil in Hp|].
  rewrite cnt_cons. destruct (decide (x = p)) as [->|Hne].
  - by rewrite cnt_notin.
  - apply elem_of_cons in Hp as [?|Hp]; [congruence|]. by rewrite IH.
Qed.

Lemma cnt_Permutation p a b : a ≡ₚ b -> cnt p a = cnt p b.
Proof. intros Hab. unfold cnt. by rewrite Hab. Qed.

(** Adding a leaf [n] under [p]: every listing gains [n] once for each
    occurrence of [p]. *)
Section AddLeaf.
Variables (H : FMergedBoneHierarchy) (n p : FName) (pose : Pose) (P : Z).
Hypothesis Hclosed : Closed H.
Hypothesis Hfresh_path : PathToBoneNames H !! n = None.
Hypothesis Hfresh_child : forall k l, PathHashToBoneNames H !! k = Some l -> n ∉ l.
Hypothesis Hp : PathToBoneNames H !! p = Some P.
Hypothesis Hinj : forall q, PathToBoneNames H !! q = Some P -> q = p.
Hypothesis HK : PathHashToBoneNames H !! HashCombine P (GetTypeHash n) = None.
Hypothesis HKP : HashCombine P (GetTypeHash n) ≠ P.

Local Abbreviation H' := (AddBone n pose P H).

Lemma AddLeaf_pose_other c : c ≠ n -> GetReferencePose H' c = GetReferencePose H c.
Proof. intros Hc. unfold GetReferencePose. simpl. by rewrite lookup_insert_ne. Qed.

Lemma AddLeaf_pose_new : GetReferencePose H' n = Ok pose.
Proof. unfold GetReferencePose. simpl. by rewrite lookup_insert_eq. Qed.

Lemma leaf_listing (fuel : nat) : Preorder (S fuel) H' n = Ok [].
Proof.
  simpl. unfold GetBonePathHash. simpl. rewrite lookup_insert_eq. simpl.
  unfold FindChildBonesForPath. simpl. rewrite lookup_insert_ne by done.
  by rewrite HK.
Qed.

Lemma AddLeaf_list (f : nat) :
  (forall q l, is_Some (PathToBoneNames H !! q) -> Preorder f H q = Ok l ->
     exists l', Preorder (S f) H' q = Ok l' /\
                l' ≡ₚ l ++ replicate (cnt p (q :: l.*1)) (n, pose)) ->
  forall cs l,
    (forall c, c ∈ cs -> c ≠ n /\ is_Some (PathToBoneNames H !! c)) ->
    PreorderList (Preorder f H) H cs = Ok l ->
    exists l', PreorderList (Preorder (S f) H') H' cs = Ok l' /\
               l' ≡ₚ l ++ replicate (cnt p l.*1) (n, pose).
Proof.
  intros IH. induction cs as [|c cs IHcs]; intros l Hcs HP.
  - inversion HP; subst l. exists []. done.
  - cbn [PreorderList] in HP.
    inv_bind HP as posec Hposec. inv_bind HP as sub Hsub. inv_bind HP as rest Hrest.
    inversion HP; subst l; clear HP.
    destruct (Hcs c (list_elem_of_here _ _)) as [Hcn Hcpath].
    destruct (IH c sub Hcpath Hsub) as (sub' & Hsub' & Hpsub).
    destruct (IHcs rest (fun c' Hc' => Hcs c' (list_elem_of_further _ _ _ Hc')) Hrest)
      as (rest' & Hrest' & Hprest).
    exists ((c, posec) :: sub' ++ rest'). split.
    + cbn [PreorderList]. rewrite AddLeaf_pose_other by done.
      rewrite Hposec, Ok_bind, Hsub', Ok_bind, Hrest', Ok_bind. done.
    + rewrite Hpsub, Hprest. rewrite fmap_cons, fmap_app. simpl fst.
      assert (Hcnt : cnt p (c :: sub.*1 ++ rest.*1)
                     = (cnt p (c :: sub.*1) + cnt p rest.*1)%nat).
      { rewrite !cnt_cons, cnt_app. lia. }
      rewrite Hcnt, replicate_add.
      set (RA := replicate (cnt p (c :: sub.*1)) (n, pose)).
      set (RB := replicate (cnt p rest.*1) (n, pose)).
      rewrite <- !app_comm_cons. constructor.
      rewrite <- !app_assoc. apply Permutation_app_head.
      rewrite !app_assoc. apply Permutation_app_tail. apply Permutation_app_comm.
Qed.

Lemma AddLeaf_path_other q : q ≠ n -> GetBonePathHash H' q = GetBonePathHash H q.
Proof. intros Hq. unfold GetBonePathHash. simpl. by rewrite lookup_insert_ne. Qed.

Lemma AddLeaf_children k :
  FindChildBonesForPath H' k =
    if decide (P = k) then Some (TSetAdd n (default [] (FindChildBonesForPath H k)))
    else FindChildBonesForPath H k.
Proof.
  unfold FindChildBonesForPath. simpl. destruct (decide (P = k)) as [->|Hne].
  - by rewrite lookup_insert_eq.
  - by rewrite lookup_insert_ne.
Qed.

Lemma AddLeaf_listing :
  forall fuel q l,
    is_Some (PathToBoneNames H !! q) -> Preorder fuel H q = Ok l ->
    exists l', Preorder (S fuel) H' q = Ok l' /\
               l' ≡ₚ l ++ replicate (cnt p (q :: l.*1)) (n, pose).
Proof.
  induction fuel as [|fuel IH]; intros q l Hq HP; [discriminate|].
  destruct Hq as [kq Hkq].
  assert (Hqn : q ≠ n) by (intros ->; congruence).
  rewrite Preorder_unfold in HP. rewrite (Preorder_unfold (S fuel)).
  rewrite AddLeaf_path_other by done.
  unfold GetBonePathHash in *. rewrite Hkq in HP |- *. cbn [checked] in HP |- *.
  rewrite Ok_bind in HP. rewrite Ok_bind.
  rewrite AddLeaf_children. rewrite cnt_cons.
  unfold FindChildBonesForPath in *.
  destruct (decide (P = kq)) as [<-|HPk].
  - (* q is the parent of the new leaf *)
    assert (q = p) by auto. subst q. rewrite decide_True by done.
    destruct (PathHashToBoneNames H !! P) as [cs|] eqn:Hcs; simpl default.
    + assert (Hn : n ∉ cs) by eauto.
      unfold TSetAdd. rewrite decide_False by done.
      destruct (AddLeaf_list fuel IH cs l) as (l' & Hl' & Hperm); [|done|].
      { intros c Hc. split; [intros ->; done|]. by eapply closed_path. }
      exists (l' ++ [(n, pose)]). split.
      * apply PreorderList_app. exists l', [(n, pose)]. split; [done|]. split; [|done].
        cbn [PreorderList]. rewrite AddLeaf_pose_new, Ok_bind, leaf_listing. done.
      * rewrite Hperm. change (1 + cnt p l.*1)%nat with (S (cnt p l.*1)).
        rewrite replicate_S.
        rewrite <- app_assoc. apply Permutation_app_head.
        symmetry. apply Permutation_cons_append.
    + inversion HP; subst l. unfold TSetAdd. rewrite decide_False by apply not_elem_of_nil.
      simpl app. exists [(n, pose)]. split; [|done].
      cbn [PreorderList]. rewrite AddLeaf_pose_new, Ok_bind, leaf_listing. done.
  - assert (Hqp : q ≠ p) by (intros ->; congruence).
    rewrite decide_False by done.
    destruct (PathHashToBoneNames H !! kq) as [cs|] eqn:Hcs.
    + apply (AddLeaf_list fuel IH cs l); [|done].
      intros c Hc. split; [intros ->; by eapply Hfresh_child|]. by eapply closed_path.
    + inversion HP; subst l. exists []. done.
Qed.

End AddLeaf.

Lemma Tree_root (r : FName) (pose0 : Pose) :
  HashCombine RootParentHash (GetTypeHash r) ≠ RootParentHash ->
  Tree (AddBone r pose0 RootParentHash EmptyHierarchy) r pose0 [(r, pose0)].
Proof.
  intros HK. split.
  - apply Closed_AddBone, Closed_empty.
  - intros n. simpl. rewrite list_elem_of_singleton.
    destruct (decide (r = n)) as [->|Hne].
    + rewrite lookup_insert_eq. split; eauto.
    + rewrite lookup_insert_ne, lookup_empty by done. split; [by intros [? ?]|congruence].
  - intros k l n. simpl. destruct (decide (RootParentHash = k)) as [<-|Hne].
    + rewrite lookup_insert_eq, lookup_empty. intros Hl. inversion Hl; subst l. simpl.
      unfold TSetAdd. rewrite decide_False by apply not_elem_of_nil. done.
    + rewrite lookup_insert_ne, lookup_empty by done. done.
  - intros q1 q2 k. simpl. intros H1 H2.
    destruct (decide (r = q1)) as [<-|Hne1]; [|by rewrite lookup_insert_ne, lookup_empty in H1].
    destruct (decide (r = q2)) as [<-|Hne2]; [done|by rewrite lookup_insert_ne, lookup_empty in H2].
  - intros q. simpl. destruct (decide (r = q)) as [<-|Hne].
    + rewrite lookup_insert_eq. congruence.
    + by rewrite lookup_insert_ne, lookup_empty.
  - intros k. simpl. destruct (decide (RootParentHash = k)) as [<-|Hne]; [by left|].
    rewrite lookup_insert_ne, lookup_empty by done. by intros [? ?].
  - simpl. by rewrite lookup_insert_eq, lookup_empty.
  - simpl. by rewrite lookup_insert_eq.
  - simpl. apply NoDup_singleton.
  - exists []. split; [|done]. simpl length. rewrite Preorder_unfold.
    unfold GetBonePathHash, FindChildBonesForPath. simpl.
    rewrite lookup_insert_eq. simpl. rewrite lookup_insert_ne by done.
    by rewrite lookup_empty.
Qed.

Lemma Tree_child (H : FMergedBoneHierarchy) (r : FName) (pose0 : Pose)
    (pairs : list (FName * Pose)) (n p : FName) (pose : Pose) (P : Z) :
  Tree H r pose0 pairs ->
  PathToBoneNames H !! p = Some P ->
  n ∉ pairs.*1 ->
  HashCombine P (GetTypeHash n) ≠ RootParentHash ->
  (forall q, PathToBoneNames H !! q ≠ Some (HashCombine P (GetTypeHash n))) ->
  Tree (AddBone n pose P H) r pose0 (pairs ++ [(n, pose)]).
Proof.
  intros HT Hp Hn HKroot HKnew.
  assert (Hfresh : PathToBoneNames H !! n = None).
  { destruct (PathToBoneNames H !! n) eqn:Hq; [|done].
    exfalso. apply Hn. apply (tree_names _ _ _ _ HT). eauto. }
  assert (Hpn : p ≠ n) by (intros ->; congruence).
  assert (HPR : P ≠ RootParentHash).
  { intros ->. by apply (tree_keys_root _ _ _ _ HT p). }
  assert (HKP : HashCombine P (GetTypeHash n) ≠ P).
  { intros Heq. apply (HKnew p). by rewrite Heq. }
  assert (HKnone : PathHashToBoneNames H !! HashCombine P (GetTypeHash n) = None).
  { destruct (PathHashToBoneNames H !! _) eqn:Hq; [|done]. exfalso.
    destruct (tree_paths _ _ _ _ HT (HashCombine P (GetTypeHash n))) as [?|[q Hq']];
      [eauto|done|]. by apply (HKnew q). }
  assert (Hrin : r ∈ pairs.*1).
  { destruct (tree_dfs _ _ _ _ HT) as (l & _ & Hperm).
    rewrite <- Hperm. rewrite fmap_cons. left. }
  split.
  - apply Closed_AddBone, HT.
  - intros x. rewrite fmap_app, elem_of_app. simpl. rewrite list_elem_of_singleton.
    destruct (decide (n = x)) as [->|Hne].
    + rewrite lookup_insert_eq. split; eauto.
    + rewrite lookup_insert_ne by done. rewrite (tree_names _ _ _ _ HT).
      split; [tauto|]. intros [?|?]; [done|congruence].
  - intros k l x. rewrite fmap_app, elem_of_app. simpl. rewrite list_elem_of_singleton.
    destruct (decide (P = k)) as [<-|Hne].
    + rewrite lookup_insert_eq. intros Hl. inversion Hl; subst l.
      rewrite TSetAdd_elem. intros [->|Hx]; [by right|]. left.
      destruct (PathHashToBoneNames H !! P) eqn:Hq; simpl in Hx.
      * by eapply (tree_children _ _ _ _ HT).
      * by apply elem_of_nil in Hx.
    + rewrite lookup_insert_ne by done. intros Hl Hx. left.
      by eapply (tree_children _ _ _ _ HT).
  - intros q1 q2 k. simpl.
    destruct (decide (n = q1)) as [<-|Hne1]; destruct (decide (n = q2)) as [<-|Hne2];
      rewrite ?lookup_insert_eq, ?lookup_insert_ne by done; intros H1 H2.
    + done.
    + inversion H1; subst k. by apply HKnew in H2.
    + inversion H2; subst k. by apply HKnew in H1.
    + by eapply (tree_keys_inj _ _ _ _ HT).
  - intros q. simpl. destruct (decide (n = q)) as [<-|Hne].
    + rewrite lookup_insert_eq. congruence.
    + rewrite lookup_insert_ne by done. apply HT.
  - intros k. simpl. destruct (decide (P = k)) as [<-|Hne].
    + intros _. right. exists p. by rewrite lookup_insert_ne.
    + rewrite lookup_insert_ne by done. intros Hk.
      destruct (tree_paths _ _ _ _ HT k Hk) as [?|[q Hq]]; [by left|].
      right. exists q. rewrite lookup_insert_ne; [done|]. intros ->. congruence.
  - simpl. rewrite lookup_insert_ne by done. apply HT.
  - simpl. rewrite lookup_insert_ne; [apply HT|]. intros ->. done.
  - rewrite fmap_app. apply NoDup_app. split; [apply HT|]. split; [|apply NoDup_singleton].
    intros x Hx Hx'. simpl in Hx'. apply list_elem_of_singleton in Hx'. by subst.
  - destruct (tree_dfs _ _ _ _ HT) as (l & Hl & Hperm).
    destruct (AddLeaf_listing H n p pose P (tree_closed _ _ _ _ HT) Hfresh
                (fun k l' Hk Hin => Hn (tree_children _ _ _ _ HT k l' n Hk Hin))
                Hp (fun q Hq => tree_keys_inj _ _ _ _ HT q p P Hq Hp) HKnone HKP
                (length pairs) r l) as (l' & Hl' & Hperm').
    { apply (tree_names _ _ _ _ HT). done. }
    { done. }
    exists l'. split.
    + rewrite length_app. simpl. by rewrite Nat.add_1_r.
    + rewrite Hperm'. rewrite app_comm_cons, Hperm.
      assert (Hc : cnt p (r :: l.*1) = 1%nat).
      { assert (Hnames : r :: l.*1 ≡ₚ pairs.*1) by (by rewrite <- Hperm).
        rewrite (cnt_Permutation _ _ _ Hnames). apply cnt_NoDup; [apply HT|].
        apply (tree_names _ _ _ _ HT). eauto. }
      rewrite Hc. done.
Qed.

(** The output of [PopulateSkeleton] on a tree: its bones, each once. *)
Lemma Tree_populate (H : FMergedBoneHierarchy) (r : FName) (pose0 : Pose)
    (pairs : list (FName * Pose)) (fuel : nat) :
  Tree H r pose0 pairs -> (length pairs <= fuel)%nat ->
  exists M, PopulateSkeleton fuel H EmptyRefSkeleton = Ok M /\
            length (RawRefBoneInfo M) = length pairs /\
            zip (Name <$> RawRefBoneInfo M) (RawRefBonePose M) ≡ₚ pairs.
Proof.
  intros HT Hfuel. destruct (tree_dfs _ _ _ _ HT) as (l & Hl & Hperm).
  apply (Preorder_fuel_le _ _ fuel) in Hl; [|done].
  unfold PopulateSkeleton, GetChildBonesForPath.
  rewrite (tree_root _ _ _ _ HT). simpl. unfold GetReferencePose.
  rewrite (tree_root_pose _ _ _ _ HT). simpl.
  pose (M0 := Appended (MkBoneInfo r r INDEX_NONE) pose0 EmptyRefSkeleton).
  assert (Hr0 : r ∈ BoneNames M0) by (unfold BoneNames; simpl; left).
  assert (HM0 : NoDup (BoneNames M0)) by (unfold BoneNames; simpl; apply NoDup_singleton).
  pose proof (RecursiveAddBones_Preorder H fuel M0 r l Hl Hr0 HM0) as Hrec.
  change (BoneNames M0 ++ l.*1) with (r :: l.*1) in Hrec.
  rewrite decide_True in Hrec.
  2: { assert (Hnames : r :: l.*1 ≡ₚ pairs.*1) by (by rewrite <- Hperm).
       rewrite Hnames. apply HT. }
  destruct Hrec as (M & HM & Hnames & Hposes).
  exists M. split; [done|]. simpl in Hnames, Hposes.
  assert (Hzip : zip (Name <$> RawRefBoneInfo M) (RawRefBonePose M) = (r, pose0) :: l).
  { rewrite Hnames, Hposes. simpl. f_equal. apply zip_fst_snd. }
  split.
  - rewrite <- Hperm. simpl.
    rewrite <- (length_fmap Name), Hnames. simpl. by rewrite length_fmap.
  - by rewrite Hzip.
Qed.

(** ** Source skeletons and ancestor chains *)

Lemma ChainHash_snoc names n :
  ChainHash (names ++ [n]) = HashCombine (ChainHash names) (GetTypeHash (Slash1 n)).
Proof. unfold ChainHash. by rewrite foldl_app. Qed.

Lemma Ancestors_stable (R : FReferenceSkeleton) :
  WellFormed R ->
  forall i fuel, (i < fuel)%nat ->
    Ancestors fuel (RawRefBoneInfo R) i = Ancestors (S i) (RawRefBoneInfo R) i.
Proof.
  intros HW i. induction (lt_wf i) as [i _ IH]. intros fuel Hf.
  destruct fuel as [|fuel]; [lia|]. simpl.
  destruct (RawRefBoneInfo R !! i) as [b|] eqn:Hb; [|done].
  destruct (decide (ParentIndex b = INDEX_NONE)); [done|].
  destruct i as [|i]; [by apply (wf_root R HW) in Hb|].
  pose proof (wf_parents R HW i b Hb) as Hpi.
  destruct (RawRefBoneInfo R !! Z.to_nat (ParentIndex b)) as [pb|]; [|done].
  rewrite (IH (Z.to_nat (ParentIndex b))) by lia.
  rewrite (IH (Z.to_nat (ParentIndex b)) ltac:(lia) (S i)) by lia. done.
Qed.

Lemma PathHashOf_root (R : FReferenceSkeleton) b :
  WellFormed R -> RawRefBoneInfo R !! 0%nat = Some b -> PathHashOf R 0 = RootParentHash.
Proof.
  intros HW Hb. unfold PathHashOf. simpl. rewrite Hb.
  by rewrite decide_True by (by eapply wf_root).
Qed.

Lemma PathHashOf_child (R : FReferenceSkeleton) i b j pb :
  WellFormed R -> RawRefBoneInfo R !! S i = Some b ->
  ParentIndex b = Z.of_nat j -> RawRefBoneInfo R !! j = Some pb ->
  PathHashOf R (S i) = HashCombine (PathHashOf R j) (GetTypeHash (Slash1 (Name pb))).
Proof.
  intros HW Hb Hj Hpb. pose proof (wf_parents R HW i b Hb) as Hpi.
  unfold PathHashOf. rewrite <- ChainHash_snoc. f_equal.
  change (Ancestors (S (S i)) (RawRefBoneInfo R) (S i)) with
    (match RawRefBoneInfo R !! S i with
     | Some b =>
         if decide (ParentIndex b = INDEX_NONE) then []
         else match RawRefBoneInfo R !! Z.to_nat (ParentIndex b) with
              | Some pb => Ancestors (S i) (RawRefBoneInfo R) (Z.to_nat (ParentIndex b))
                             ++ [Name pb]
              | None => []
              end
     | None => []
     end).
  rewrite Hb. rewrite decide_False by (unfold INDEX_NONE; lia).
  rewrite Hj, Nat2Z.id, Hpb. f_equal. apply Ancestors_stable; [done|lia].
Qed.

Lemma PathKeyOf_bone (R : FReferenceSkeleton) i b :
  RawRefBoneInfo R !! i = Some b ->
  PathKeyOf R i = HashCombine (PathHashOf R i) (GetTypeHash (Slash1 (Name b))).
Proof.
  intros Hb. unfold PathKeyOf, BoneChain. rewrite Hb. apply ChainHash_snoc.
Qed.

Lemma RenamedPairs_lookup R i b pose :
  RawRefBoneInfo R !! i = Some b -> RawRefBonePose R !! i = Some pose ->
  RenamedPairs R !! i = Some (Slash1 (Name b), pose).
Proof.
  intros Hb Hp. unfold RenamedPairs. apply lookup_zip_with_Some.
  exists (Slash1 (Name b)), pose. rewrite list_lookup_fmap, Hb. done.
Qed.

Lemma RenamedPairs_take_names R k n :
  n ∈ (take k (RenamedPairs R)).*1 ->
  exists i b, (i < k)%nat /\ RawRefBoneInfo R !! i = Some b /\ n = Slash1 (Name b).
Proof.
  intros Hn. apply list_elem_of_fmap in Hn as ([n' pose] & -> & Hin).
  apply list_elem_of_lookup in Hin as [i Hi].
  apply lookup_take_Some in Hi as [Hi Hik].
  unfold RenamedPairs in Hi. apply lookup_zip_with_Some in Hi as (x & y & Heq & Hx & Hy).
  inversion Heq; subst. rewrite list_lookup_fmap in Hx.
  destruct (RawRefBoneInfo R !! i) as [b|] eqn:Hb; [|done].
  inversion Hx. eauto.
Qed.

Lemma bone_name_inj R i j bi bj :
  WellFormed R -> RawRefBoneInfo R !! i = Some bi -> RawRefBoneInfo R !! j = Some bj ->
  Slash1 (Name bi) = Slash1 (Name bj) -> i = j.
Proof.
  intros HW Hi Hj Heq. apply Slash1_inj in Heq.
  eapply NoDup_lookup; [apply (wf_names R HW)| |].
  - rewrite list_lookup_fmap, Hi. done.
  - rewrite list_lookup_fmap, Hj. simpl. by rewrite Heq.
Qed.

Lemma NoCollision_root R i :
  NoCollision R -> (i < length (RawRefBoneInfo R))%nat -> PathKeyOf R i ≠ RootParentHash.
Proof.
  unfold NoCollision. intros Hnd Hi Heq. apply NoDup_cons in Hnd as [Hnin _].
  apply Hnin. rewrite <- Heq. apply list_elem_of_fmap. exists i. split; [done|].
  apply elem_of_seq. lia.
Qed.

Lemma NoCollision_inj R i j :
  NoCollision R -> (i < length (RawRefBoneInfo R))%nat ->
  (j < length (RawRefBoneInfo R))%nat -> PathKeyOf R i = PathKeyOf R j -> i = j.
Proof.
  unfold NoCollision. intros Hnd Hi Hj Heq. apply NoDup_cons in Hnd as [_ Hnd].
  assert (Hli : (PathKeyOf R <$> seq 0 (length (RawRefBoneInfo R))) !! i = Some (PathKeyOf R i)).
  { rewrite list_lookup_fmap, lookup_seq_lt by done. done. }
  assert (Hlj : (PathKeyOf R <$> seq 0 (length (RawRefBoneInfo R))) !! j = Some (PathKeyOf R i)).
  { rewrite list_lookup_fmap, lookup_seq_lt by done. simpl. by rewrite Heq. }
  eapply NoDup_lookup; eauto.
Qed.

(** ** The state after the first [k] bones of the first skeleton *)

Lemma Processed_initial R t : Processed R 0 (InitialState t).
Proof.
  split; simpl; try done; try lia.
  - intros n [x Hx]. by rewrite lookup_empty in Hx.
Qed.

Lemma MergeBone_first (Params : FSkeletonMergeParams) (nodes : list USCS_Node)
    (Skeleton : USkeleton) (k : nat) (b : bool) (st : MergeState) :
  let R := ReferenceSkeleton Skeleton in
  WellFormed R -> (k < length (RawRefBoneInfo R))%nat -> Processed R k st ->
  exists b' st', MergeBone Params nodes 0 Skeleton k b st = Ok (Continue b' st') /\
                 Processed R (S k) st'.
Proof.
  intros R HW Hk HP.
  destruct (lookup_lt_is_Some_2 (RawRefBoneInfo R) k Hk) as [bk Hbk].
  assert (Hkp : (k < length (RawRefBonePose R))%nat) by (by rewrite (wf_poses R HW)).
  destruct (lookup_lt_is_Some_2 (RawRefBonePose R) k Hkp) as [pose Hpose].
  (* parent name, parent hash and path hash of the bone *)
  assert (HBP : exists pn ph,
             BoneParent nodes 0 Skeleton bk (BoneNode st) = Ok (BoneNode st, pn, ph) /\
             HashCombine (default 0 (BoneNamesToPathHash st !! pn)) ph = PathHashOf R k).
  { unfold BoneParent. fold R. destruct k as [|i].
    - pose proof (wf_root R HW bk Hbk) as Hroot.
      destruct (decide (ParentIndex bk ≠ INDEX_NONE)) as [Hc|_]; [by exfalso; apply Hc|].
      rewrite Ok_bind.
      destruct (decide ((0 < 0)%nat ∧ ParentIndex bk = INDEX_NONE)) as [[? _]|_]; [lia|].
      eexists _, _. split; [done|].
      rewrite (PathHashOf_root R bk HW Hbk).
      destruct (BoneNamesToPathHash st !! Slash1 NAME_None) as [x|] eqn:Hx; [|done].
      destruct (pr_path_dom R 0 st HP (Slash1 NAME_None)) as (i & ? & ? & _); [eauto|lia].
    - pose proof (wf_parents R HW i bk Hbk) as Hpi.
      assert (Hne : ParentIndex bk ≠ INDEX_NONE) by (unfold INDEX_NONE; lia).
      destruct (decide (ParentIndex bk ≠ INDEX_NONE)) as [_|Hc]; [|done].
      destruct (decide ((0 < 0)%nat ∧ ParentIndex bk = INDEX_NONE)) as [[? _]|_]; [lia|].
      set (j := Z.to_nat (ParentIndex bk)).
      assert (Hj : ParentIndex bk = Z.of_nat j) by (unfold j; lia).
      assert (Hjk : (j < S i)%nat) by lia.
      destruct (lookup_lt_is_Some_2 (RawRefBoneInfo R) j ltac:(lia)) as [pb Hpb].
      rewrite Hj, (ArrayAt_lookup _ _ _ Hpb), !Ok_bind.
      eexists _, _. split; [done|].
      rewrite (pr_path R (S i) st HP j pb Hjk Hpb). simpl.
      symmetry. by eapply PathHashOf_child. }
  destruct HBP as (pn & ph & HBP & Hhash).
  (* the bone is not yet recorded *)
  assert (Hnew : BoneNamesToPathHash st !! Slash1 (Name bk) = None).
  { destruct (BoneNamesToPathHash st !! Slash1 (Name bk)) as [x|] eqn:Hx; [|done].
    destruct (pr_path_dom R k st HP (Slash1 (Name bk))) as (i & bi & Hi & Hbi & Heq); [eauto|].
    pose proof (bone_name_inj R k i bk bi HW Hbk Hbi Heq). lia. }
  assert (HC : exists poses,
             CheckCompatibility Params Skeleton k (Slash1 (Name bk)) (PathHashOf R k) b st
             = Ok (Compatible b poses (Log st))).
  { unfold CheckCompatibility. fold R. destruct (bCheckSkeletonsCompatibility Params); [|eauto].
    rewrite Hnew, Ok_bind, (ArrayAt_lookup _ _ _ Hpose), Ok_bind. eauto. }
  destruct HC as (poses & HC).
  eexists b, _. split.
  { unfold MergeBone. fold R. rewrite (ArrayAt_lookup _ _ _ Hbk), Ok_bind.
    rewrite HBP, Ok_bind. cbn beta iota. rewrite Hhash, HC, Ok_bind.
    rewrite (ArrayAt_lookup _ _ _ Hpose), Ok_bind.
    unfold GraftTransform. rewrite decide_False by lia. rewrite Ok_bind. done. }
  assert (Hother : forall i bi, (i < k)%nat -> RawRefBoneInfo R !! i = Some bi ->
                                Slash1 (Name bk) ≠ Slash1 (Name bi)).
  { intros i bi Hi Hbi Heq. pose proof (bone_name_inj R k i bk bi HW Hbk Hbi Heq). lia. }
  split; simpl.
  - intros i bi Hi Hbi. destruct (decide (i = k)) as [->|Hik].
    + rewrite Hbk in Hbi. inversion Hbi; subst bi. by rewrite lookup_insert_eq.
    + rewrite lookup_insert_ne by (apply (Hother i); [lia|done]).
      apply (pr_path R k st HP); [lia|done].
  - intros n Hn. destruct (decide (Slash1 (Name bk) = n)) as [<-|Hne].
    + exists k, bk. split; [lia|done].
    + rewrite lookup_insert_ne in Hn by done.
      destruct (pr_path_dom R k st HP n Hn) as (i & bi & ? & ? & ?).
      exists i, bi. split; [lia|done].
  - intros i bi Hi Hbi. destruct (decide (i = k)) as [->|Hik].
    + rewrite Hbk in Hbi. inversion Hbi; subst bi. rewrite lookup_insert_eq.
      by rewrite (PathKeyOf_bone R k bk Hbk).
    + rewrite lookup_insert_ne by (apply (Hother i); [lia|done]).
      apply (pr_key R k st HP); [lia|done].
  - apply (pr_flags R k st HP).
  - lia.
  - intros HNC _.
    assert (Hpair : RenamedPairs R !! k = Some (Slash1 (Name bk), pose))
      by (by apply RenamedPairs_lookup).
    rewrite (take_S_r _ _ _ Hpair).
    destruct k as [|i].
    + exists (Slash1 (Name bk)), pose. split; [done|]. simpl take.
      rewrite (pr_empty R 0 st HP) by done.
      rewrite (PathHashOf_root R bk HW Hbk). apply Tree_root.
      intros Heq. apply (NoCollision_root R 0 HNC Hk).
      by rewrite (PathKeyOf_bone R 0 bk Hbk), (PathHashOf_root R bk HW Hbk).
    + destruct (pr_tree R (S i) st HP HNC ltac:(lia)) as (r & pose0 & Hr & HT).
      exists r, pose0. split; [done|].
      pose proof (wf_parents R HW i bk Hbk) as Hpi.
      set (j := Z.to_nat (ParentIndex bk)).
      assert (Hj : ParentIndex bk = Z.of_nat j) by (unfold j; lia).
      assert (Hjk : (j < S i)%nat) by lia.
      destruct (lookup_lt_is_Some_2 (RawRefBoneInfo R) j ltac:(lia)) as [pb Hpb].
      assert (HPK : PathHashOf R (S i) = PathKeyOf R j).
      { rewrite (PathHashOf_child R i bk j pb HW Hbk Hj Hpb).
        by rewrite (PathKeyOf_bone R j pb Hpb). }
      apply (Tree_child _ _ _ _ _ (Slash1 (Name pb))); [done| | | |].
      * rewrite HPK. by apply (pr_key R (S i) st HP).
      * intros Hin. apply RenamedPairs_take_names in Hin as (i' & bi & Hi' & Hbi & Heq).
        by apply (Hother i' bi).
      * rewrite <- (PathKeyOf_bone R (S i) bk Hbk). by apply NoCollision_root.
      * intros q Hq. rewrite <- (PathKeyOf_bone R (S i) bk Hbk) in Hq.
        assert (Hqin : q ∈ (take (S i) (RenamedPairs R)).*1).
        { apply (tree_names _ _ _ _ HT). eauto. }
        apply RenamedPairs_take_names in Hqin as (i' & bi & Hi' & Hbi & ->).
        rewrite (pr_key R (S i) st HP i' bi Hi' Hbi) in Hq. inversion Hq as [Hq'].
        apply NoCollision_inj in Hq'; [lia|done| |done].
        apply lookup_lt_Some in Hbi. done.
Qed.

Lemma MergeBones_first (Params : FSkeletonMergeParams) (nodes : list USCS_Node)
    (Skeleton : USkeleton) :
  let R := ReferenceSkeleton Skeleton in
  WellFormed R ->
  forall m k b st,
    (k + m = length (RawRefBoneInfo R))%nat -> Processed R k st ->
    exists st', MergeBones Params nodes 0 Skeleton (seq k m) b st = Ok st' /\
                Processed R (length (RawRefBoneInfo R)) st'.
Proof.
  intros R HW. induction m as [|m IH]; intros k b st Hkm HP.
  - exists st. split; [done|]. by replace (length (RawRefBoneInfo R)) with k by lia.
  - assert (Hk : (k < length (RawRefBoneInfo R))%nat) by lia.
    destruct (MergeBone_first Params nodes Skeleton k b st HW Hk HP)
      as (b' & st1 & HM & HP1).
    assert (Hkm' : (S k + m = length (RawRefBoneInfo R))%nat) by lia.
    destruct (IH (S k) b' st1 Hkm' HP1) as (st' & HMs & HP').
    exists st'. split; [|done]. simpl. rewrite HM, Ok_bind. done.
Qed.

Lemma MergeSkeleton_first (Params : FSkeletonMergeParams) (nodes : list USCS_Node)
    (Skeleton : USkeleton) (t : Z) :
  let R := ReferenceSkeleton Skeleton in
  WellFormed R ->
  exists st,
    MergeSkeleton Params nodes 0 (Some Skeleton) (InitialState t) = Ok st /\
    bMergeSkeletonsFailed st = false /\
    (forall i b, RawRefBoneInfo R !! i = Some b ->
       PathToBoneNames (MergedBoneHierarchy st) !! Slash1 (Name b) = Some (PathKeyOf R i)) /\
    (NoCollision R -> RawRefBoneInfo R ≠ [] ->
     exists r pose0, Tree (MergedBoneHierarchy st) r pose0 (RenamedPairs R)).
Proof.
  intros R HW.
  destruct (MergeBones_first Params nodes Skeleton HW (length (RawRefBoneInfo R)) 0 false
              (InitialState t)) as (st & HM & HP); [done|apply Processed_initial|].
  fold R in HM, HP.
  assert (Hres : exists st',
             MergeSkeleton Params nodes 0 (Some Skeleton) (InitialState t) = Ok st' /\
             MergedBoneHierarchy st' = MergedBoneHierarchy st /\
             bMergeSkeletonsFailed st' = false).
  { unfold MergeSkeleton. simpl checked. rewrite Ok_bind. fold R. rewrite HM, Ok_bind.
    destruct (pr_flags R _ st HP) as [Hf _]. rewrite Hf, andb_false_r.
    destruct (bMergeSockets Params); eauto. }
  destruct Hres as (st' & HM' & Hh & Hf). exists st'. rewrite Hh.
  split; [done|]. split; [done|]. split.
  - intros i b Hb. apply (pr_key R _ st HP); [|done]. by apply lookup_lt_Some in Hb.
  - intros HNC Hne.
    destruct (pr_tree R _ st HP HNC) as (r & pose0 & _ & HT).
    { destruct (RawRefBoneInfo R); [done|simpl; lia]. }
    exists r, pose0. rewrite take_ge in HT; [done|].
    unfold RenamedPairs. rewrite length_zip_with, length_fmap. lia.
Qed.

(** C4 (as amended): for the bones of a skeleton merged as first source
    (its root is not re-parented), the path key recorded for a bone is the
    hash of its ancestor-name chain; so two bones of two such skeletons
    whose chains from root to bone are identical are recorded under the same
    key. *)
Theorem C4_first_source_key_is_chain_hash
    (Params1 Params2 : FSkeletonMergeParams) (nodes1 nodes2 : list USCS_Node)
    (Skeleton1 Skeleton2 : USkeleton) (t1 t2 : Z) :
  let R1 := ReferenceSkeleton Skeleton1 in
  let R2 := ReferenceSkeleton Skeleton2 in
  WellFormed R1 -> WellFormed R2 ->
  exists st1 st2,
    MergeSkeleton Params1 nodes1 0 (Some Skeleton1) (InitialState t1) = Ok st1 /\
    MergeSkeleton Params2 nodes2 0 (Some Skeleton2) (InitialState t2) = Ok st2 /\
    forall i1 b1 i2 b2,
      RawRefBoneInfo R1 !! i1 = Some b1 -> RawRefBoneInfo R2 !! i2 = Some b2 ->
      let Key1 := PathToBoneNames (MergedBoneHierarchy st1) !! Slash1 (Name b1) in
      let Key2 := PathToBoneNames (MergedBoneHierarchy st2) !! Slash1 (Name b2) in
      Key1 = Some (ChainHash (BoneChain R1 i1)) /\
      Key2 = Some (ChainHash (BoneChain R2 i2)) /\
      (BoneChain R1 i1 = BoneChain R2 i2 -> Key1 = Key2).
Proof.
  intros R1 R2 HW1 HW2.
  destruct (MergeSkeleton_first Params1 nodes1 Skeleton1 t1 HW1) as (st1 & HM1 & _ & HK1 & _).
  destruct (MergeSkeleton_first Params2 nodes2 Skeleton2 t2 HW2) as (st2 & HM2 & _ & HK2 & _).
  exists st1, st2. split; [done|]. split; [done|].
  intros i1 b1 i2 b2 Hb1 Hb2 Key1 Key2. unfold Key1, Key2.
  rewrite (HK1 i1 b1 Hb1), (HK2 i2 b2 Hb2). unfold PathKeyOf. fold R1 R2.
  split; [done|]. split; [done|]. by intros ->.
Qed.

Lemma UniqueSkeletons_replicate (Params : FSkeletonMergeParams) (m : nat) (p : option USkeleton) :
  SkeletonsToMerge Params = replicate (S m) p -> UniqueSkeletons Params = [p].
Proof.
  unfold UniqueSkeletons. intros ->. simpl.
  assert (H1 : AddUnique p [] = [p]).
  { unfold AddUnique. rewrite decide_False; [done|]. by intros ?%Exists_nil. }
  assert (H2 : AddUnique p [p] = [p]).
  { unfold AddUnique. rewrite decide_True; [done|]. apply Exists_cons. by left. }
  rewrite H1. induction m as [|m IH]; [done|]. simpl. by rewrite H2.
Qed.

(** C9 (as amended): merging a list that holds one skeleton several times
    merges that skeleton with itself removed from the list; when the path
    keys of its bones do not collide, the output has as many bones as the
    skeleton, and its bones with their poses are the skeleton's bones with
    their poses, each under its name followed by "/1" (in the order of the
    traversal, which may differ from the source order). *)
Theorem C9_duplicated_skeleton_reproduced (fuel m : nat) (Params : FSkeletonMergeParams)
    (SkeletalNodes : list USCS_Node) (Skeleton : USkeleton) :
  let R := ReferenceSkeleton Skeleton in
  SkeletonsToMerge Params = replicate (S m) (Some Skeleton) ->
  WellFormed R -> RawRefBoneInfo R ≠ [] -> NoCollision R ->
  (length (RawRefBoneInfo R) <= fuel)%nat ->
  exists Out,
    MergeSkeletons fuel Params SkeletalNodes = Ok (Some Out) /\
    length (RawRefBoneInfo (ReferenceSkeleton Out)) = length (RawRefBoneInfo R) /\
    zip (Name <$> RawRefBoneInfo (ReferenceSkeleton Out))
        (RawRefBonePose (ReferenceSkeleton Out))
      ≡ₚ zip ((fun b => String.append (Name b) "/1") <$> RawRefBoneInfo R)
             (RawRefBonePose R).
Proof.
  intros R Hlist HW Hne HNC Hfuel.
  pose proof (UniqueSkeletons_replicate Params m (Some Skeleton) Hlist) as HU.
  set (t := 0 + Z.of_nat (length (RawRefBoneInfo R))).
  destruct (MergeSkeleton_first Params SkeletalNodes Skeleton t HW)
    as (st & HM & Hf & _ & HT).
  destruct (HT HNC Hne) as (r & pose0 & HTree).
  assert (Hacc : AccumulateSkeletons Params SkeletalNodes = Ok (Some st)).
  { unfold AccumulateSkeletons. rewrite HU. simpl. fold R. fold t.
    rewrite decide_False.
    - rewrite HM. done.
    - unfold t. destruct (RawRefBoneInfo R); [done|simpl; lia]. }
  assert (Hlen : length (RenamedPairs R) = length (RawRefBoneInfo R)).
  { unfold RenamedPairs. rewrite length_zip_with, length_fmap.
    rewrite (wf_poses R HW). lia. }
  destruct (Tree_populate _ r pose0 (RenamedPairs R) fuel HTree) as (M & HPop & HlenM & Hperm).
  { by rewrite Hlen. }
  unfold MergeSkeletons. rewrite Hacc, Ok_bind, Hf, HPop, Ok_bind.
  eexists. split; [done|].
  assert (HRef : forall Sk0 : USkeleton,
             ReferenceSkeleton (if bMergeSockets Params
                                then AddSockets Sk0 (GenerateValueArray (HashToSockets st))
                                else Sk0) = ReferenceSkeleton Sk0).
  { intros Sk0. destruct (bMergeSockets Params); [apply AddSockets_bones|done]. }
  rewrite HRef. simpl. split; [by rewrite HlenM|]. exact Hperm.
Qed.

End Properties.

(** * Further properties of the skeleton merge *)

Section MergeSkeletonsMore.
Context `{E : Engine}.

Abbreviation Pose := (FTransform FVector FQuat).

Tactic Notation "inv_bind" hyp(H) "as" ident(a) ident(Ha) :=
  apply bind_Ok in H as (a & Ha & H).

(** ** MergeSkeletons: the guards, null entries and the shape of the output *)

Lemma AddUnique_keeps p l q : q ∈ l -> q ∈ AddUnique p l.
Proof.
  unfold AddUnique. destruct (decide _); [done|]. intros. apply elem_of_app. by left.
Qed.

Lemma AddUnique_null l : None ∈ AddUnique None l.
Proof.
  unfold AddUnique. destruct (decide _) as [Hex|Hex].
  - apply Exists_exists in Hex as (q & Hq & Hs). unfold SamePtr in Hs.
    destruct q; [discriminate|done].
  - apply elem_of_app. right. left.
Qed.

Lemma UniqueSkeletons_null Params :
  None ∈ SkeletonsToMerge Params -> None ∈ UniqueSkeletons Params.
Proof.
  unfold UniqueSkeletons.
  cut (forall l acc, None ∈ acc \/ None ∈ l ->
          None ∈ foldl (fun l p => AddUnique p l) acc l).
  { intros Hgen Hin. apply Hgen. by right. }
  induction l as [|q l IH]; intros acc [Hin|Hin]; simpl.
  - done.
  - by apply elem_of_nil in Hin.
  - apply IH. left. by apply AddUnique_keeps.
  - apply IH. apply elem_of_cons in Hin as [<-|Hin]; [left; apply AddUnique_null|by right].
Qed.

Lemma TotalPossibleBones_null (l : list (option USkeleton)) :
  None ∈ l -> TotalPossibleBones l = Crash.
Proof.
  unfold TotalPossibleBones. generalize 0.
  induction l as [|p l IH]; intros z Hin; [by apply elem_of_nil in Hin|].
  simpl. destruct p as [Sk|]; simpl; [|done].
  apply IH. apply elem_of_cons in Hin as [?|?]; [discriminate|done].
Qed.

(** X1: a null entry in the list of skeletons makes MergeSkeletons fail at
    the bone count of lines 820-823, which dereferences every entry: the
    list is not filtered (AddUnique keeps one null entry). *)
Theorem MergeSkeletons_null_entry (fuel : nat) (Params : FSkeletonMergeParams)
    (SkeletalNodes : list USCS_Node) :
  None ∈ SkeletonsToMerge Params ->
  MergeSkeletons fuel Params SkeletalNodes = Crash.
Proof.
  intros Hin. apply UniqueSkeletons_null in Hin.
  unfold MergeSkeletons, AccumulateSkeletons.
  destruct (decide _) as [Hlen|_].
  - destruct (UniqueSkeletons Params); [by apply elem_of_nil in Hin|discriminate].
  - by rewrite (TotalPossibleBones_null _ Hin).
Qed.

Lemma TotalPossibleBones_Ok (l : list (option USkeleton)) (z t : Z) :
  foldM (fun Sum SkeletonPtr =>
           Skeleton ← checked SkeletonPtr;
           Ok (Sum + Z.of_nat (length (RawRefBoneInfo (ReferenceSkeleton Skeleton)))))
        l z = Ok t ->
  z <= t /\
  (t = z <-> Forall (fun p => exists Sk, p = Some Sk /\
                               RawRefBoneInfo (ReferenceSkeleton Sk) = []) l) /\
  Forall (fun p => p ≠ None) l.
Proof.
  revert z. induction l as [|p l IH]; intros z Hf.
  - inversion Hf; subst. split; [lia|]. split; [|constructor]. split; [constructor|done].
  - simpl in Hf. destruct p as [Sk|]; [|discriminate]. simpl in Hf.
    apply IH in Hf as (Hle & Hiff & Hnn). split; [lia|]. split.
    + split.
      * intros ->. assert (Hz : length (RawRefBoneInfo (ReferenceSkeleton Sk)) = 0%nat) by lia.
        constructor.
        -- exists Sk. split; [done|]. by apply nil_length_inv.
        -- apply Hiff. lia.
      * intros HF. apply Forall_cons in HF as [(Sk' & Heq & Hnil) HF].
        inversion Heq; subst Sk'. apply Hiff in HF. rewrite Hnil in HF. simpl in HF. lia.
    + constructor; [done|done].
Qed.

Lemma MergeBones_unchecked Params nodes idx Skeleton l :
  bCheckSkeletonsCompatibility Params = false ->
  forall b st st', MergeBones Params nodes idx Skeleton l b st = Ok st' ->
    bMergeSkeletonsFailed st' = bMergeSkeletonsFailed st.
Proof.
  intros Hflag. induction l as [|i l IH]; intros b st st' HM; simpl in HM.
  - by inversion HM.
  - inv_bind HM as c Hc. destruct c as [b' st1|st1].
    + apply IH in HM. rewrite HM. apply MergeBone_sockets in Hc. tauto.
    + apply MergeBone_Break in Hc as [Hc _]. congruence.
Qed.

Lemma MergeSkeletonsFrom_unchecked Params nodes l :
  bCheckSkeletonsCompatibility Params = false ->
  forall idx st st', MergeSkeletonsFrom Params nodes idx l st = Ok st' ->
    bMergeSkeletonsFailed st' = bMergeSkeletonsFailed st.
Proof.
  intros Hflag. induction l as [|p l IH]; intros idx st st' HM; simpl in HM.
  - by inversion HM.
  - inv_bind HM as st1 Hst1. apply IH in HM. rewrite HM.
    unfold MergeSkeleton in Hst1. inv_bind Hst1 as Sk HS. inv_bind Hst1 as st0 Hst0.
    apply (MergeBones_unchecked _ _ _ _ _ Hflag) in Hst0.
    rewrite Hflag in Hst1. simpl in Hst1.
    destruct (bMergeSockets Params); inversion Hst1; subst; done.
Qed.

(** X2: without the compatibility check, MergeSkeletons returns nullptr
    only at its two guards, that is, exactly when every skeleton it is to
    merge is valid and has no bone (which includes the empty list); no
    later step can make it return nullptr. *)
Theorem MergeSkeletons_unchecked_null_result (fuel : nat) (Params : FSkeletonMergeParams)
    (SkeletalNodes : list USCS_Node) :
  bCheckSkeletonsCompatibility Params = false ->
  (MergeSkeletons fuel Params SkeletalNodes = Ok None <->
   Forall (fun p => exists Sk, p = Some Sk /\ RawRefBoneInfo (ReferenceSkeleton Sk) = [])
          (UniqueSkeletons Params)).
Proof.
  intros Hflag. unfold MergeSkeletons, AccumulateSkeletons.
  destruct (decide (length (UniqueSkeletons Params) = 0%nat)) as [Hlen|Hlen].
  { apply nil_length_inv in Hlen. rewrite Hlen. simpl. split; [constructor|done]. }
  unfold TotalPossibleBones.
  destruct (foldM _ (UniqueSkeletons Params) 0) as [t| |] eqn:Ht; simpl.
  - apply TotalPossibleBones_Ok in Ht as (Hle & Hiff & _).
    destruct (decide (t = 0)) as [->|Hne]; simpl.
    + split; [|done]. intros _. by apply Hiff.
    + destruct (MergeSkeletonsFrom _ _ _ _ _) as [st| |] eqn:Hst; simpl.
      * apply (MergeSkeletonsFrom_unchecked _ _ _ Hflag) in Hst. simpl in Hst.
        rewrite Hst. split.
        -- intros HP. inv_bind HP as M HM. discriminate.
        -- intros HF. apply Hiff in HF. done.
      * split; [discriminate|]. intros HF. apply Hiff in HF. done.
      * split; [discriminate|]. intros HF. apply Hiff in HF. done.
  - split; [discriminate|]. intros HF. exfalso.
    revert Ht. generalize 0. clear Hlen.
    induction HF as [|p l (Sk & -> & Hnil) HF IH]; intros z Hz; [discriminate|].
    simpl in Hz. by apply IH in Hz.
  - split; [discriminate|]. intros HF. exfalso.
    revert Ht. generalize 0. clear Hlen.
    induction HF as [|p l (Sk & -> & Hnil) HF IH]; intros z Hz; [discriminate|].
    simpl in Hz. by apply IH in Hz.
Qed.

(** An invariant of the merged hierarchy that AddBone keeps is kept by the
    loops of the merge. *)
Lemma MergeBones_hierarchy (P : FMergedBoneHierarchy -> Prop) Params nodes idx Skeleton l :
  (forall n T k H, P H -> P (AddBone n T k H)) ->
  forall b st st', MergeBones Params nodes idx Skeleton l b st = Ok st' ->
    P (MergedBoneHierarchy st) -> P (MergedBoneHierarchy st').
Proof.
  intros Hadd. induction l as [|i l IH]; intros b st st' HM HP; simpl in HM.
  - by inversion HM; subst.
  - inv_bind HM as c Hc. destruct c as [b' st1|st1].
    + eapply IH; [exact HM|].
      apply MergeBone_Continue in Hc
        as (Bone & node & pn & ph & poses & log & sp & T & _ & _ & _ & _ & _ & ->).
      simpl. by apply Hadd.
    + inversion HM; subst. apply MergeBone_Break in Hc as (_ & node & ->). done.
Qed.

Lemma MergeSkeleton_hierarchy (P : FMergedBoneHierarchy -> Prop) Params nodes idx p st st' :
  (forall n T k H, P H -> P (AddBone n T k H)) ->
  MergeSkeleton Params nodes idx p st = Ok st' ->
  P (MergedBoneHierarchy st) -> P (MergedBoneHierarchy st').
Proof.
  intros Hadd HM HP. unfold MergeSkeleton in HM.
  inv_bind HM as Sk HS. inv_bind HM as st0 Hst0.
  apply (MergeBones_hierarchy P _ _ _ _ _ Hadd) in Hst0; [|done].
  destruct (_ && _); [by inversion HM; subst|].
  destruct (bMergeSockets Params); by inversion HM; subst.
Qed.

Lemma MergeSkeletonsFrom_hierarchy (P : FMergedBoneHierarchy -> Prop) Params nodes l :
  (forall n T k H, P H -> P (AddBone n T k H)) ->
  forall idx st st', MergeSkeletonsFrom Params nodes idx l st = Ok st' ->
    P (MergedBoneHierarchy st) -> P (MergedBoneHierarchy st').
Proof.
  intros Hadd. induction l as [|p l IH]; intros idx st st' HM HP; simpl in HM.
  - by inversion HM; subst.
  - inv_bind HM as st1 Hst1. eapply IH; [exact HM|].
    by eapply MergeSkeleton_hierarchy.
Qed.

Lemma Accumulate_Closed Params nodes st :
  AccumulateSkeletons Params nodes = Ok (Some st) -> Closed (MergedBoneHierarchy st).
Proof.
  unfold AccumulateSkeletons. intros Hacc.
  destruct (decide _); [discriminate|]. inv_bind Hacc as t Ht.
  destruct (decide _); [discriminate|]. inv_bind Hacc as st0 Hst0.
  inversion Hacc; subst st0; clear Hacc.
  eapply (MergeSkeletonsFrom_hierarchy Closed); [|exact Hst0|apply Closed_empty].
  intros. by apply Closed_AddBone.
Qed.

Lemma RootCandidates_first (n : FName) (T : Pose) :
  RootCandidates (AddBone n T RootParentHash EmptyHierarchy) = [n].
Proof.
  unfold RootCandidates, AddBone. cbn [PathHashToBoneNames EmptyHierarchy].
  rewrite lookup_insert_eq, lookup_empty. done.
Qed.

Lemma RootCandidates_head_AddBone (r : FName) n T k H :
  (exists rest, RootCandidates H = r :: rest) ->
  exists rest, RootCandidates (AddBone n T k H) = r :: rest.
Proof.
  intros [rest Hr]. unfold RootCandidates in *. simpl.
  destruct (decide (k = RootParentHash)) as [->|Hne].
  - rewrite lookup_insert_eq. simpl. rewrite Hr. unfold TSetAdd.
    destruct (decide _); [eauto|]. simpl. eauto.
  - rewrite lookup_insert_ne by done. eauto.
Qed.

Lemma UniqueSkeletons_head Params p l :
  SkeletonsToMerge Params = p :: l -> exists l', UniqueSkeletons Params = p :: l'.
Proof.
  unfold UniqueSkeletons. intros ->. simpl.
  assert (H1 : AddUnique p [] = [p]).
  { unfold AddUnique. rewrite decide_False; [done|]. by intros ?%Exists_nil. }
  rewrite H1. generalize (@nil (option USkeleton)).
  induction l as [|q l IH]; intros tl; simpl; [eauto|].
  unfold AddUnique. destruct (decide _); [apply IH|]. simpl. apply IH.
Qed.

Lemma MergeSkeletonsFrom_failed Params nodes l :
  forall idx st st', MergeSkeletonsFrom Params nodes idx l st = Ok st' ->
    bMergeSkeletonsFailed st = true -> bMergeSkeletonsFailed st' = true.
Proof.
  induction l as [|p l IH]; intros idx st st' HM Hf; simpl in HM.
  - by inversion HM; subst.
  - inv_bind HM as st1 Hst1. eapply IH; [exact HM|].
    unfold MergeSkeleton in Hst1. inv_bind Hst1 as Sk HS. inv_bind Hst1 as st0 Hst0.
    apply MergeBones_sockets in Hst0 as [Hm _]. specialize (Hm Hf).
    destruct (_ && _); [by inversion Hst1; subst|].
    destruct (bMergeSockets Params); by inversion Hst1; subst.
Qed.

Lemma PopulateSkeleton_shape fuel H M :
  PopulateSkeleton fuel H EmptyRefSkeleton = Ok M ->
  exists r pose rest,
    RootCandidates H = r :: rest /\
    RawRefBoneInfo M !! 0%nat = Some (MkBoneInfo r r INDEX_NONE) /\
    BoneNamePose H !! r = Some pose /\ RawRefBonePose M !! 0%nat = Some pose /\
    length (RawRefBonePose M) = length (RawRefBoneInfo M).
Proof.
  unfold PopulateSkeleton. intros HP.
  inv_bind HP as l Hl. apply checked_Ok in Hl.
  inv_bind HP as r Hr. inv_bind HP as pose Hpose. apply checked_Ok in Hpose.
  unfold ArrayAt in Hr. destruct (IsValidIndex l 0); [|discriminate].
  apply checked_Ok in Hr. destruct l as [|r' rest]; [discriminate|].
  inversion Hr; subst r'; clear Hr.
  inv_bind HP as M0 HM0. apply ModifierAdd_Ok in HM0 as [-> _].
  exists r, pose, rest. split; [unfold RootCandidates; unfold GetChildBonesForPath in Hl; by rewrite Hl|].
  pose proof (RecursiveAddBones_prefix _ _ _ _ _ HP) as [ex Hex].
  pose proof (RecursiveAddBones_prefix_pose _ _ _ _ _ HP) as [ex' Hex'].
  simpl in Hex, Hex'. rewrite Hex, Hex'. repeat split; try done.
  rewrite <- Hex, <- Hex'.
  eapply (RecursiveAddBones_inv H
            (fun M => length (RawRefBonePose M) = length (RawRefBoneInfo M)));
    [| | |exact HP].
  - intros M1 parent k l1 child pose1 HI _ _ _ _ _ _. simpl. rewrite !length_app, HI. done.
  - done.
  - unfold BoneNames. simpl. left.
Qed.

(** X3: when the first entry of the list is a skeleton whose bone 0 has no
    parent, that bone, renamed, is the first root candidate of the merged
    hierarchy whatever the later sources add: bone 0 of every skeleton
    MergeSkeletons returns is that bone, without parent. *)
Theorem MergeSkeletons_root_is_first_root (fuel : nat) (Params : FSkeletonMergeParams)
    (SkeletalNodes : list USCS_Node) (First : USkeleton) (Others : list (option USkeleton))
    (Bone : FMeshBoneInfo) (Out : USkeleton) :
  SkeletonsToMerge Params = Some First :: Others ->
  RawRefBoneInfo (ReferenceSkeleton First) !! 0%nat = Some Bone ->
  ParentIndex Bone = INDEX_NONE ->
  MergeSkeletons fuel Params SkeletalNodes = Ok (Some Out) ->
  RawRefBoneInfo (ReferenceSkeleton Out) !! 0%nat
    = Some (MkBoneInfo (Slash1 (Name Bone)) (Slash1 (Name Bone)) INDEX_NONE).
Proof.
  intros Hlist HBone Hroot HOut.
  unfold MergeSkeletons in HOut. inv_bind HOut as acc Hacc.
  destruct acc as [st|]; [|discriminate].
  destruct (bMergeSkeletonsFailed st) eqn:Hok; [discriminate|].
  pose proof (Accumulate_Closed _ _ _ Hacc) as HC.
  assert (Hhead : exists rest, RootCandidates (MergedBoneHierarchy st)
                               = Slash1 (Name Bone) :: rest).
  { destruct (UniqueSkeletons_head _ _ _ Hlist) as [l' HU].
    unfold AccumulateSkeletons in Hacc. rewrite HU in Hacc.
    destruct (decide _); [discriminate|]. inv_bind Hacc as t Ht.
    destruct (decide _); [discriminate|]. inv_bind Hacc as st0 Hst0.
    inversion Hacc; subst st0; clear Hacc.
    simpl in Hst0. inv_bind Hst0 as st1 Hst1.
    assert (Hf1 : bMergeSkeletonsFailed st1 = false).
    { destruct (bMergeSkeletonsFailed st1) eqn:Hf; [|done].
      apply MergeSkeletonsFrom_failed in Hst0; [congruence|done]. }
    eapply (MergeSkeletonsFrom_hierarchy
              (fun H => exists rest, RootCandidates H = Slash1 (Name Bone) :: rest));
      [|exact Hst0|].
    { intros. by apply RootCandidates_head_AddBone. }
    unfold MergeSkeleton in Hst1. simpl in Hst1. inv_bind Hst1 as st2 Hst2.
    assert (Hf2 : bMergeSkeletonsFailed st2 = false).
    { destruct (_ && _); [by inversion Hst1; subst|].
      destruct (bMergeSockets Params); by inversion Hst1; subst. }
    assert (Hh : MergedBoneHierarchy st1 = MergedBoneHierarchy st2).
    { destruct (_ && _); [by inversion Hst1; subst|].
      destruct (bMergeSockets Params); by inversion Hst1; subst. }
    rewrite Hh. clear Hst1 Hh Hf1 Hst0.
    assert (Hlen : exists nb, length (RawRefBoneInfo (ReferenceSkeleton First)) = S nb).
    { apply lookup_lt_Some in HBone.
      destruct (length (RawRefBoneInfo (ReferenceSkeleton First))); [lia|eauto]. }
    destruct Hlen as [nb Hlen]. rewrite Hlen in Hst2.
    simpl in Hst2. inv_bind Hst2 as c Hc.
    destruct c as [b' st3|st3].
    - eapply (MergeBones_hierarchy
                (fun H => exists rest, RootCandidates H = Slash1 (Name Bone) :: rest));
        [|exact Hst2|].
      { intros. by apply RootCandidates_head_AddBone. }
      apply MergeBone_Continue in Hc
        as (Bone' & node & pn & ph & poses & log & sp & T & HB & HP & _ & _ & _ & ->).
      rewrite HBone in HB. inversion HB; subst Bone'; clear HB.
      unfold BoneParent in HP. rewrite Hroot in HP.
      rewrite decide_False in HP by (intros Hc; by apply Hc). simpl in HP.
      inversion HP; subst node pn ph; clear HP.
      simpl. rewrite lookup_empty. simpl. fold RootParentHash.
      exists []. apply RootCandidates_first.
    - inversion Hst2; subst st3. apply MergeBone_Break in Hc as (_ & node & ->).
      discriminate. }
  destruct Hhead as [rest Hhead].
  inv_bind HOut as M HM.
  apply PopulateSkeleton_shape in HM as (r & pose' & rest' & Hcand & H0 & _).
  rewrite Hhead in Hcand. inversion Hcand; subst r rest'.
  destruct (bMergeSockets Params); inversion HOut; subst Out; simpl.
  - by rewrite AddSockets_bones.
  - done.
Qed.

Lemma PopulateSkeleton_poses fuel H M :
  PopulateSkeleton fuel H EmptyRefSkeleton = Ok M ->
  forall i b, RawRefBoneInfo M !! i = Some b ->
    exists pose, RawRefBonePose M !! i = Some pose /\ BoneNamePose H !! Name b = Some pose.
Proof.
  unfold PopulateSkeleton. intros HP.
  inv_bind HP as l Hl. inv_bind HP as r Hr. inv_bind HP as pose0 Hpose. apply checked_Ok in Hpose.
  inv_bind HP as M0 HM0. apply ModifierAdd_Ok in HM0 as [-> _].
  eapply (RecursiveAddBones_inv H
            (fun M => length (RawRefBonePose M) = length (RawRefBoneInfo M) /\
                      forall i b, RawRefBoneInfo M !! i = Some b ->
                        exists pose, RawRefBonePose M !! i = Some pose /\
                                     BoneNamePose H !! Name b = Some pose));
    [| | |exact HP].
  - intros M1 parent k l1 child pose1 [Hlen HI] _ _ _ _ Hc _. simpl. split.
    + rewrite !length_app, Hlen. done.
    + intros i b Hb. apply lookup_app_Some in Hb as [Hb|[Hge Hb]].
      * destruct (HI i b Hb) as (pose & Hp & Hn). exists pose. split; [|done].
        apply lookup_app_l_Some. done.
      * apply list_lookup_singleton_Some in Hb as [Hi <-]. simpl. exists pose1.
        split; [|done]. rewrite lookup_app_r by lia.
        replace (i - length (RawRefBonePose M1))%nat with 0%nat by lia. done.
  - simpl. split; [done|]. intros i b Hb.
    apply list_lookup_singleton_Some in Hb as [-> <-]. simpl. eauto.
  - unfold BoneNames. simpl. left.
Qed.

(** X4: a skeleton returned by MergeSkeletons has at least one bone and one
    pose per bone, and the pose emitted at each position is the transform
    the merged hierarchy holds for the name of the bone at that position
    (the one AddBone entered last under that name). *)
Theorem MergeSkeletons_output_poses (fuel : nat) (Params : FSkeletonMergeParams)
    (SkeletalNodes : list USCS_Node) (Out : USkeleton) :
  MergeSkeletons fuel Params SkeletalNodes = Ok (Some Out) ->
  let R := ReferenceSkeleton Out in
  RawRefBoneInfo R ≠ [] /\
  length (RawRefBonePose R) = length (RawRefBoneInfo R) /\
  exists st, AccumulateSkeletons Params SkeletalNodes = Ok (Some st) /\
    forall i b, RawRefBoneInfo R !! i = Some b ->
      exists pose, RawRefBonePose R !! i = Some pose /\
                   BoneNamePose (MergedBoneHierarchy st) !! Name b = Some pose.
Proof.
  intros HM R. unfold MergeSkeletons in HM.
  inv_bind HM as acc Hacc. destruct acc as [st|]; [|discriminate].
  destruct (bMergeSkeletonsFailed st); [discriminate|].
  inv_bind HM as M HP.
  assert (HR : R = M).
  { unfold R. destruct (bMergeSockets Params); inversion HM; subst Out; simpl; [|done].
    by rewrite AddSockets_bones. }
  rewrite HR.
  pose proof (PopulateSkeleton_shape _ _ _ HP) as (r & pose & rest & _ & H0 & _ & _ & Hlen).
  split; [by destruct (RawRefBoneInfo M)|]. split; [done|].
  exists st. split; [done|]. by apply (PopulateSkeleton_poses fuel).
Qed.

Lemma MergeSockets_elem (L : list USkeletalMeshSocket) :
  forall m e, e ∈ foldl (fun m Socket => TMapAdd (SocketHash Socket) Socket m) m L ->
    e ∈ m \/ e.2 ∈ L.
Proof.
  induction L as [|s L IH]; intros m e He; [by left|]. simpl in He.
  apply IH in He as [He|He]; [|right; by right].
  apply TMapAdd_elem in He as [->|He]; [right; left|by left].
Qed.

(** X5: the sockets of a skeleton returned by MergeSkeletons are sockets of
    the merged sources (none is made up), no two of them have the same key
    hash(socket name, bone name), and there is none at all when socket
    merging is off. *)
Theorem MergeSkeletons_output_sockets (fuel : nat) (Params : FSkeletonMergeParams)
    (SkeletalNodes : list USCS_Node) (Out : USkeleton) :
  MergeSkeletons fuel Params SkeletalNodes = Ok (Some Out) ->
  (bMergeSockets Params = false -> Sockets Out = []) /\
  (forall s, s ∈ Sockets Out -> s ∈ AllSockets (UniqueSkeletons Params)) /\
  NoDup (SocketHash <$> Sockets Out).
Proof.
  intros HM. unfold MergeSkeletons in HM.
  inv_bind HM as acc Hacc. destruct acc as [st|]; [|discriminate].
  destruct (bMergeSkeletonsFailed st) eqn:Hf; [discriminate|].
  inv_bind HM as Ref HRef.
  destruct (bMergeSockets Params) eqn:Hflag; inversion HM; subst Out; clear HM.
  2: { simpl. split; [done|]. split; [by intros s ?%elem_of_nil|apply NoDup_nil_2]. }
  rewrite AddSockets_sockets. simpl. split; [discriminate|].
  unfold AccumulateSkeletons in Hacc.
  destruct (decide _); [discriminate|]. inv_bind Hacc as t Ht.
  destruct (decide _); [discriminate|]. inv_bind Hacc as st0 Hst0.
  inversion Hacc; subst st0; clear Hacc.
  apply (MergeSkeletonsFrom_sockets _ _ _ Hflag) in Hst0 as [_ Hst0].
  specialize (Hst0 Hf). simpl in Hst0.
  assert (HK : Keyed (HashToSockets st)).
  { rewrite Hst0. apply MergeSockets_Keyed. split; [apply NoDup_nil_2|].
    intros k v Hin. by apply elem_of_nil in Hin. }
  split.
  - intros s Hs. unfold GenerateValueArray in Hs.
    apply list_elem_of_fmap in Hs as ([k v] & -> & He). rewrite Hst0 in He.
    apply MergeSockets_elem in He as [He|He]; [by apply elem_of_nil in He|done].
  - destruct HK as [Hnd Hk]. unfold GenerateValueArray.
    assert (Heq : SocketHash <$> (HashToSockets st).*2 = (HashToSockets st).*1).
    { clear -Hk. induction (HashToSockets st) as [|[k v] m IH]; [done|].
      rewrite !fmap_cons. simpl. f_equal.
      - symmetry. apply Hk. left.
      - apply IH. intros k' v' Hin. apply Hk. by right. }
    by rewrite Heq.
Qed.

Lemma AddUnique_sublist (p : option USkeleton) (l l0 : list (option USkeleton)) :
  l `sublist_of` l0 -> AddUnique p l `sublist_of` l0 ++ [p].
Proof.
  intros Hs. unfold AddUnique. destruct (decide _).
  - by apply sublist_inserts_r.
  - by apply sublist_app.
Qed.

Lemma AddUnique_NoDup (p : option USkeleton) (l : list (option USkeleton)) :
  NoDup (fmap (M := option) Address <$> l) -> NoDup (fmap (M := option) Address <$> AddUnique p l).
Proof.
  intros Hnd. unfold AddUnique. destruct (decide _) as [Hex|Hex]; [done|].
  rewrite fmap_app. apply NoDup_app. split; [done|]. split; [|apply NoDup_singleton].
  intros a Ha Ha'. apply list_elem_of_singleton in Ha'. subst a.
  apply list_elem_of_fmap in Ha as (q & Hq & Hin). apply Hex.
  apply Exists_exists. exists q. split; [done|]. unfold SamePtr. done.
Qed.

Lemma AddUnique_covers (p : option USkeleton) (l : list (option USkeleton)) (q : option USkeleton) :
  (q ∈ l \/ q = p) -> exists q', q' ∈ AddUnique p l /\ SamePtr q q'.
Proof.
  unfold AddUnique. intros [Hq| ->].
  - exists q. split; [|done]. destruct (decide _); [done|]. apply elem_of_app. by left.
  - destruct (decide _) as [Hex|Hex].
    + apply Exists_exists in Hex as (q' & Hq' & Hs). eauto.
    + exists p. split; [|done]. apply elem_of_app. right. left.
Qed.

(** X6: the list MergeSkeletons goes through holds every pointer of the
    input list exactly once: it is a subsequence of the input without two
    entries of the same pointer, and every input entry has its pointer in
    it.  (A null pointer is kept as well.) *)
Theorem UniqueSkeletons_each_pointer_once (Params : FSkeletonMergeParams) :
  UniqueSkeletons Params `sublist_of` SkeletonsToMerge Params /\
  NoDup (fmap (M := option) Address <$> UniqueSkeletons Params) /\
  forall p, p ∈ SkeletonsToMerge Params ->
    exists q, q ∈ UniqueSkeletons Params /\ SamePtr p q.
Proof.
  unfold UniqueSkeletons.
  cut (forall (l acc l0 : list (option USkeleton)),
          acc `sublist_of` l0 -> NoDup (fmap (M := option) Address <$> acc) ->
          let r := foldl (fun l p => AddUnique p l) acc l in
          r `sublist_of` l0 ++ l /\ NoDup (fmap (M := option) Address <$> r) /\
          forall p, (p ∈ acc \/ p ∈ l) -> exists q, q ∈ r /\ SamePtr p q).
  { intros Hgen. destruct (Hgen (SkeletonsToMerge Params) [] []) as (H1 & H2 & H3).
    - done.
    - apply NoDup_nil_2.
    - split; [done|]. split; [done|]. intros p Hp. apply H3. by right. }
  induction l as [|p l IH]; intros acc l0 Hsub Hnd; simpl.
  - rewrite app_nil_r. split; [done|]. split; [done|].
    intros p [Hp|Hp]; [by exists p|by apply elem_of_nil in Hp].
  - destruct (IH (AddUnique p acc) (l0 ++ [p])) as (H1 & H2 & H3).
    + by apply AddUnique_sublist.
    + by apply AddUnique_NoDup.
    + rewrite <- app_assoc in H1. split; [done|]. split; [done|].
      intros q Hq.
      assert (Hq' : q ∈ acc \/ q = p \/ q ∈ l).
      { destruct Hq as [?|Hq]; [by left|]. apply elem_of_cons in Hq. tauto. }
      destruct Hq' as [Hq'|[Hq'|Hq']].
      * destruct (AddUnique_covers p acc q (or_introl Hq')) as (q' & Hin & Hs).
        destruct (H3 q' (or_introl Hin)) as (q'' & Hin' & Hs').
        exists q''. split; [done|]. unfold SamePtr in *. congruence.
      * destruct (AddUnique_covers p acc q (or_intror Hq')) as (q' & Hin & Hs).
        destruct (H3 q' (or_introl Hin)) as (q'' & Hin' & Hs').
        exists q''. split; [done|]. unfold SamePtr in *. congruence.
      * apply H3. by right.
Qed.

End MergeSkeletonsMore.

(** * Properties of the material layers *)

Section MaterialProperties.
Context `{G : GuidEngine}.

Tactic Notation "inv_bind" hyp(H) "as" ident(a) ident(Ha) :=
  apply bind_Ok in H as (a & Ha & H).

Lemma Last_Ok {A : Type} (l : list A) (x : A) : Last l = Ok x <-> last l = Some x.
Proof. unfold Last. destruct (last l); simpl; split; congruence. Qed.

Lemma SetLast_Ok {A : Type} (l : list A) (x : A) :
  l ≠ [] -> SetLast l x = Ok (<[pred (length l) := x]> l).
Proof. by destruct l. Qed.

Lemma SetLast_snoc {A : Type} (l : list A) (y x : A) : SetLast (l ++ [y]) x = Ok (l ++ [x]).
Proof.
  rewrite SetLast_Ok by (by destruct l). f_equal.
  rewrite length_app. simpl. replace (pred (length l + 1)) with (length l + 0)%nat by lia.
  by rewrite insert_app_r.
Qed.

Lemma SetLast_length {A : Type} (l l' : list A) (x : A) :
  SetLast l x = Ok l' -> length l' = length l /\ last l' = Some x /\
                         take (pred (length l)) l' = take (pred (length l)) l.
Proof.
  destruct l as [|a l] using rev_ind; [discriminate|]. rewrite SetLast_snoc.
  intros Heq. inversion Heq; subst l'. rewrite !length_app. simpl.
  split; [done|]. split; [by rewrite last_snoc|].
  replace (pred (length l + 1)) with (length l) by lia.
  by rewrite !take_app_length.
Qed.

Lemma nonempty_length {A : Type} (l : list A) : (0 < length l)%nat -> l ≠ [].
Proof. destruct l; simpl; [lia|done]. Qed.

Lemma insert_lookup_0 {A : Type} (l : list A) (x y : A) :
  (2 <= length l)%nat -> l !! 0%nat = Some y -> <[pred (length l) := x]> l !! 0%nat = Some y.
Proof.
  intros Hlen H0. rewrite list_lookup_insert_ne by lia. done.
Qed.

(** X7: on an instance whose layer stack is built as the engine builds it
    (a background layer with the background guid and no blend, then blended
    layers), UpdateMaterialLayers succeeds without failing a bounds check,
    leaves such a stack, changes the number of layers by nought or one and
    touches no layer but the last. *)
Theorem UpdateMaterialLayers_keeps_stack (Inst : UMaterialInstanceConstant)
    (MaterialLayer BlendLayer : option N) (bVisible : bool)
    (LinkState : EMaterialLayerLinkState) (NewGuid : FGuid) :
  LayerStack (MaterialLayers Inst) ->
  exists Inst',
    UpdateMaterialLayers (Some Inst) MaterialLayer BlendLayer bVisible LinkState NewGuid
      = Ok (true, Some Inst') /\
    LayerStack (MaterialLayers Inst') /\
    (length (Layers (MaterialLayers Inst)) <= length (Layers (MaterialLayers Inst'))
       <= S (length (Layers (MaterialLayers Inst))))%nat /\
    take (pred (length (Layers (MaterialLayers Inst)))) (Layers (MaterialLayers Inst'))
      = take (pred (length (Layers (MaterialLayers Inst)))) (Layers (MaterialLayers Inst)).
Proof.
  intros HS. destruct Inst as [F open n]. simpl in *.
  destruct HS as [Hb Hbr Hst Hnm Hlr Hg Hl Hbg].
  assert (Hpos : (0 < length (Layers F))%nat) by lia.
  unfold UpdateMaterialLayers. simpl. rewrite decide_True by done.
  destruct (last (Layers F)) as [LastLayer|] eqn:Hlast.
  2: { apply last_None in Hlast. rewrite Hlast in Hpos. simpl in Hpos. lia. }
  unfold Last. rewrite Hlast. simpl. destruct LastLayer as [a|].
  - destruct (decide (Some a ≠ MaterialLayer)) as [Hne|Heq].
    + eexists. split; [reflexivity|].
      unfold ReopenEditor. simpl.
      assert (HS' : forall o m, LayerStack
                (MaterialLayers (if open then MkMaterialInstance
                   (MkLayers (Layers F ++ [MaterialLayer]) (Blends F ++ [BlendLayer])
                      (LayerStates F ++ [bVisible])
                      (LayerNames F ++ [LayerPrefix (Z.of_nat (length (Layers F ++ [MaterialLayer])) - 1)])
                      (RestrictToLayerRelatives F ++ [false])
                      (RestrictToBlendRelatives F ++ [false])
                      (LayerGuids F ++ [NewGuid]) (LayerLinkStates F ++ [LinkState])) true o
                 else MkMaterialInstance
                   (MkLayers (Layers F ++ [MaterialLayer]) (Blends F ++ [BlendLayer])
                      (LayerStates F ++ [bVisible])
                      (LayerNames F ++ [LayerPrefix (Z.of_nat (length (Layers F ++ [MaterialLayer])) - 1)])
                      (RestrictToLayerRelatives F ++ [false])
                      (RestrictToBlendRelatives F ++ [false])
                      (LayerGuids F ++ [NewGuid]) (LayerLinkStates F ++ [LinkState])) open m))).
      { intros o m. destruct open; simpl; constructor; simpl; rewrite ?length_app; simpl;
          try lia; apply lookup_app_l_Some; done. }
      split; [apply HS'|]. destruct open; simpl; rewrite length_app; simpl.
      * split; [lia|]. rewrite take_app_le by lia. done.
      * split; [lia|]. rewrite take_app_le by lia. done.
    + eexists. split; [reflexivity|]. simpl. split; [by constructor|]. split; [lia|done].
  - destruct (last (LayerGuids F)) as [LastGuid|] eqn:Hlg.
    2: { apply last_None in Hlg. rewrite Hlg in Hg. simpl in Hg. lia. }
    simpl.
    rewrite (SetLast_Ok (Layers F)) by (by apply nonempty_length).
    rewrite (SetLast_Ok (LayerLinkStates F)) by (apply nonempty_length; lia).
    destruct (decide (LastGuid = BackgroundGuid)) as [->|Hne]; simpl.
    + eexists. split; [reflexivity|]. unfold ReopenEditor. simpl.
      split; [|split].
      * destruct open; simpl; constructor; simpl; rewrite ?length_insert; try done.
      * destruct open; simpl; rewrite length_insert; lia.
      * destruct open; simpl; apply take_insert_ge; lia.
    + assert (H2 : (2 <= length (Layers F))%nat).
      { destruct (decide (length (Layers F) = 1%nat)) as [H1|H1]; [|lia].
        exfalso. apply Hne. rewrite H1 in Hg.
        destruct (LayerGuids F) as [|g0 [|g1 gs]]; simpl in Hg; try lia.
        simpl in Hbg, Hlg. congruence. }
      rewrite (SetLast_Ok (Blends F)) by (apply nonempty_length; lia). simpl.
      rewrite (SetLast_Ok (LayerStates F)) by (apply nonempty_length; lia). simpl.
      rewrite (SetLast_Ok (LayerNames F)) by (apply nonempty_length; lia). simpl.
      rewrite (SetLast_Ok (RestrictToLayerRelatives F)) by (apply nonempty_length; lia). simpl.
      rewrite (SetLast_Ok (RestrictToBlendRelatives F)) by (apply nonempty_length; lia). simpl.
      rewrite (SetLast_Ok (LayerGuids F)) by (apply nonempty_length; lia). simpl.
      eexists. split; [reflexivity|]. unfold ReopenEditor. simpl.
      split; [|split].
      * destruct open; simpl; constructor; simpl; rewrite ?length_insert; try done;
          apply insert_lookup_0; try done; lia.
      * destruct open; simpl; rewrite length_insert; lia.
      * destruct open; simpl; apply take_insert_ge; lia.
Qed.

Lemma ReopenEditor_layers (Inst : UMaterialInstanceConstant) :
  MaterialLayers (ReopenEditor Inst) = MaterialLayers Inst.
Proof. unfold ReopenEditor. by destruct (bEditorOpen Inst). Qed.

Lemma UpdateMaterialLayers_last (Inst Inst' : UMaterialInstanceConstant)
    (MaterialLayer BlendLayer : option N) (bVisible : bool)
    (LinkState : EMaterialLayerLinkState) (NewGuid : FGuid) :
  UpdateMaterialLayers (Some Inst) MaterialLayer BlendLayer bVisible LinkState NewGuid
    = Ok (true, Some Inst') ->
  last (Layers (MaterialLayers Inst')) = Some MaterialLayer.
Proof.
  unfold UpdateMaterialLayers. destruct (decide _); [|discriminate].
  intros HU. inv_bind HU as LastLayer HL. apply Last_Ok in HL.
  destruct LastLayer as [a|].
  - destruct (decide _) as [Hne|Heq].
    + inversion HU; subst Inst'. rewrite ReopenEditor_layers. simpl. by rewrite last_snoc.
    + inversion HU; subst Inst'. rewrite HL. f_equal.
      destruct (decide (Some a = MaterialLayer)); [done|]. by exfalso.
  - inv_bind HU as LastGuid Hg. inv_bind HU as F1 HF1. inversion HU; subst Inst'.
    rewrite ReopenEditor_layers. simpl.
    destruct (decide _).
    + inv_bind HF1 as L1 HL1. inv_bind HF1 as Ls HLs. inversion HF1; subst F1. simpl.
      by apply SetLast_length in HL1 as (_ & ? & _).
    + inv_bind HF1 as L1 HL1. inv_bind HF1 as x1 H1. inv_bind HF1 as x2 H2.
      inv_bind HF1 as x3 H3. inv_bind HF1 as x4 H4. inv_bind HF1 as x5 H5.
      inv_bind HF1 as x6 H6. inv_bind HF1 as x7 H7. inversion HF1; subst F1. simpl.
      by apply SetLast_length in HL1 as (_ & ? & _).
Qed.

(** X8: UpdateMaterialLayers is idempotent in the layer it is given: a
    second call with the same non-null layer, whatever the other arguments
    are, returns the same result and leaves the instance as the first call
    left it; after a successful call the last layer is the given one. *)
Theorem UpdateMaterialLayers_idempotent (Instance Instance' : option UMaterialInstanceConstant)
    (MaterialLayer : N) (BlendLayer BlendLayer' : option N) (bVisible bVisible' : bool)
    (LinkState LinkState' : EMaterialLayerLinkState) (NewGuid NewGuid' : FGuid)
    (Success : bool) :
  UpdateMaterialLayers Instance (Some MaterialLayer) BlendLayer bVisible LinkState NewGuid
    = Ok (Success, Instance') ->
  UpdateMaterialLayers Instance' (Some MaterialLayer) BlendLayer' bVisible' LinkState' NewGuid'
    = Ok (Success, Instance') /\
  (Success = true -> last (GetMaterialLayers Instance') = Some (Some MaterialLayer)).
Proof.
  intros HU. destruct Instance as [Inst|].
  2: { inversion HU; subst. done. }
  destruct Success.
  - assert (exists Inst', Instance' = Some Inst') as [Inst' ->].
    { unfold UpdateMaterialLayers in HU. destruct (decide _); [|discriminate].
      inv_bind HU as LastLayer HL. destruct LastLayer as [a|].
      - destruct (decide _); inversion HU; eauto.
      - inv_bind HU as g Hg. inv_bind HU as F1 HF1. inversion HU; eauto. }
    pose proof (UpdateMaterialLayers_last _ _ _ _ _ _ _ HU) as Hlast.
    split; [|done].
    unfold UpdateMaterialLayers. rewrite decide_True.
    + unfold Last. rewrite Hlast. simpl. rewrite decide_False; [done|].
      intros Hc. by apply Hc.
    + destruct (Layers (MaterialLayers Inst')); [discriminate|simpl; lia].
  - split; [|discriminate].
    unfold UpdateMaterialLayers in HU. destruct (decide _) as [Hpos|Hpos].
    + inv_bind HU as LastLayer HL. destruct LastLayer as [a|].
      * destruct (decide _); inversion HU.
      * inv_bind HU as g Hg. inv_bind HU as F1 HF1. inversion HU.
    + inversion HU; subst. unfold UpdateMaterialLayers. by rewrite decide_False.
Qed.

(** X9: a layer added empty is a placeholder that the next update fills:
    AddMaterialLayer with a null layer followed by UpdateMaterialLayers
    leaves the layer stack that one AddMaterialLayer with the arguments of
    the update builds (the guid of the placeholder not being the background
    guid). *)
Theorem UpdateMaterialLayers_fills_placeholder (Inst : UMaterialInstanceConstant)
    (MaterialLayer BlendLayer BlendLayer0 : option N) (bVisible bVisible0 : bool)
    (LinkState LinkState0 : EMaterialLayerLinkState) (NewGuid NewGuid0 : FGuid) :
  NewGuid0 ≠ BackgroundGuid ->
  exists Inst1 Inst2,
    UpdateMaterialLayers
      (AddMaterialLayer (Some Inst) None BlendLayer0 bVisible0 LinkState0 NewGuid0)
      MaterialLayer BlendLayer bVisible LinkState NewGuid = Ok (true, Some Inst1) /\
    AddMaterialLayer (Some Inst) MaterialLayer BlendLayer bVisible LinkState NewGuid
      = Some Inst2 /\
    MaterialLayers Inst1 = MaterialLayers Inst2.
Proof.
  intros Hne. unfold AddMaterialLayer, UpdateMaterialLayers.
  rewrite !ReopenEditor_layers. cbn [MaterialLayers Layers LayerGuids].
  rewrite decide_True by (rewrite length_app; simpl; lia).
  unfold Last. rewrite !last_snoc. simpl.
  rewrite decide_False by done.
  cbn [Blends LayerStates LayerNames RestrictToLayerRelatives RestrictToBlendRelatives
       LayerLinkStates].
  repeat (rewrite SetLast_snoc; simpl). eexists _, _. split; [reflexivity|]. split; [reflexivity|].
  rewrite !ReopenEditor_layers. simpl. by rewrite !length_app.
Qed.

(** X10: when the only layer of the instance is empty and its guid is not
    the background guid, UpdateMaterialLayers runs into Blends.Last() on an
    array that holds no blend, and fails there. *)
Theorem UpdateMaterialLayers_no_blend (Inst : UMaterialInstanceConstant)
    (MaterialLayer BlendLayer : option N) (bVisible : bool)
    (LinkState : EMaterialLayerLinkState) (NewGuid Guid : FGuid) :
  last (Layers (MaterialLayers Inst)) = Some None ->
  last (LayerGuids (MaterialLayers Inst)) = Some Guid ->
  Guid ≠ BackgroundGuid ->
  Blends (MaterialLayers Inst) = [] ->
  UpdateMaterialLayers (Some Inst) MaterialLayer BlendLayer bVisible LinkState NewGuid
    = Crash.
Proof.
  intros Hlast Hguid Hne Hblends. unfold UpdateMaterialLayers.
  rewrite decide_True.
  - unfold Last. rewrite Hlast. simpl. rewrite Hguid. simpl. rewrite decide_False by done.
    rewrite Hblends. simpl.
    destruct (Layers (MaterialLayers Inst)); [discriminate|done].
  - destruct (Layers (MaterialLayers Inst)); [discriminate|simpl; lia].
Qed.

End MaterialProperties.

(** * Properties of the blueprint queries *)

Section BlueprintProperties.
Context `{E : Engine}.

Lemma filter_loop {A : Type} (P : A -> bool) (l acc : list A) :
  foldl (fun Nodes Node => if P Node then Nodes ++ [Node] else Nodes) acc l
    = acc ++ filter (fun Node => P Node = true) l.
Proof.
  revert acc. induction l as [|x l IH]; intros acc; simpl.
  - by rewrite app_nil_r.
  - rewrite IH, filter_cons. destruct (P x).
    + rewrite decide_True by done. by rewrite <- app_assoc.
    + rewrite decide_False by done. done.
Qed.

Lemma mapM_snoc {A : Type} (l : list (option A)) (x : option A) :
  mapM id (l ++ [x]) = ls ← mapM id l; a ← x; Some (ls ++ [a]).
Proof.
  induction l as [|y l IH]; simpl.
  - destruct x; done.
  - destruct y as [b|]; simpl; [|done]. rewrite IH.
    destruct (mapM id l); simpl; [|done]. destruct x; done.
Qed.

Lemma GetNodesByClass_scripts (T : FName) (ActorClass : Blueprint.UActorClass) :
  Blueprint.GetNodesByClass T ActorClass =
    match mapM id (ConstructionScripts ActorClass) with
    | Some Scripts =>
        Ok (flat_map (filter (fun Node =>
                        Blueprint.IsChildOf (Blueprint.ComponentClass Node) T = true))
                     Scripts)
    | None => Crash
    end.
Proof.
  induction ActorClass as [|ParentClass IH Script]; [done|].
  cbn [Blueprint.GetNodesByClass ConstructionScripts].
  assert (Hp : match ParentClass with
               | Blueprint.BlueprintGeneratedClass _ _ =>
                   Blueprint.GetNodesByClass T ParentClass
               | Blueprint.NativeClass => Ok []
               end = Blueprint.GetNodesByClass T ParentClass) by (by destruct ParentClass).
  rewrite Hp, IH, mapM_snoc.
  destruct (mapM id (ConstructionScripts ParentClass)) as [ss|]; simpl; [|done].
  destruct Script as [s|]; simpl; [|done].
  rewrite filter_loop, flat_map_app. simpl. by rewrite app_nil_r.
Qed.

(** X11: GetNodesByClass<T> returns the nodes whose component class derives
    from T of every generated class from the most basic one down to the
    given class, inherited nodes first and each script in its own order; it
    fails exactly when a generated class of that chain has no construction
    script.  GetSkeletalNodesByClass is its instance at
    USkeletalMeshComponent. *)
Theorem GetNodesByClass_inherited_first (T : FName) (ActorClass : Blueprint.UActorClass) :
  Blueprint.GetNodesByClass T ActorClass =
    match mapM id (ConstructionScripts ActorClass) with
    | Some Scripts =>
        Ok (flat_map (filter (fun Node =>
                        Blueprint.IsChildOf (Blueprint.ComponentClass Node) T = true))
                     Scripts)
    | None => Crash
    end /\
  Blueprint.GetSkeletalNodesByClass ActorClass =
    Blueprint.GetNodesByClass Blueprint.USkeletalMeshComponent_StaticClass ActorClass.
Proof.
  split; [apply GetNodesByClass_scripts|].
  induction ActorClass as [|ParentClass IH Script]; [done|].
  cbn [Blueprint.GetNodesByClass Blueprint.GetSkeletalNodesByClass].
  destruct ParentClass; by rewrite ?IH.
Qed.

Lemma Swap_first_last {A : Type} (acc : list A) (c : A) :
  exists l, Blueprint.Swap (acc ++ [c]) 0 (Z.of_nat (length (acc ++ [c])) - 1) = Ok l /\
            head l = Some c /\ l ≡ₚ acc ++ [c].
Proof.
  unfold Blueprint.Swap. destruct acc as [|a acc].
  - simpl. exists [c]. done.
  - assert (H0 : ArrayAt ((a :: acc) ++ [c]) 0 = Ok a) by (by apply (ArrayAt_lookup _ 0)).
    assert (Hl : ArrayAt ((a :: acc) ++ [c]) (Z.of_nat (length ((a :: acc) ++ [c])) - 1)
                 = Ok c).
    { replace (Z.of_nat (length ((a :: acc) ++ [c])) - 1) with (Z.of_nat (length (a :: acc)))
        by (rewrite length_app; simpl; lia).
      apply ArrayAt_lookup. rewrite lookup_app_r by lia.
      by replace (length (a :: acc) - length (a :: acc))%nat with 0%nat by lia. }
    rewrite H0, Hl. simpl.
    replace (Z.to_nat (Z.of_nat (S (length (acc ++ [c]))) - 1)) with (S (length acc + 0))
      by (rewrite length_app; simpl; lia).
    simpl. rewrite insert_app_r. simpl. eexists. split; [done|]. split; [done|].
    rewrite (Permutation_app_comm acc [a]), (Permutation_app_comm acc [c]). simpl.
    apply perm_swap.
Qed.

(** X12: GetSkeletalMeshByClass returns the skeletal mesh components of the
    nodes found by GetSkeletalNodesByClass, each once (nodes without a
    template, or with a template of another class, are passed over), and
    never fails on its own.  When a root node holds one, the component of
    the first such node comes first (the component that stood first takes
    its place); without such a node the components keep the order of the
    nodes. *)
Theorem GetSkeletalMeshByClass_root_first (ActorClass : Blueprint.UActorClass)
    (Nodes : list Blueprint.USCS_Node) :
  Blueprint.GetSkeletalNodesByClass ActorClass = Ok Nodes ->
  exists SkelMeshes,
    Blueprint.GetSkeletalMeshByClass ActorClass = Ok SkelMeshes /\
    SkelMeshes ≡ₚ omap SkeletalTemplate Nodes /\
    match list_find (fun Node => Blueprint.IsRootNode Node = true /\
                                 is_Some (SkeletalTemplate Node)) Nodes with
    | Some (_, Root) => head SkelMeshes = SkeletalTemplate Root
    | None => SkelMeshes = omap SkeletalTemplate Nodes
    end.
Proof.
  intros HN. unfold Blueprint.GetSkeletalMeshByClass. rewrite HN. simpl.
  set (F := fun (st : bool * list USkeletalMeshComponent) (Node : Blueprint.USCS_Node) => _).
  assert (Hrooted : forall l acc, foldM F l (true, acc) = Ok (true, acc ++ omap SkeletalTemplate l)).
  { induction l as [|n l IH]; intros acc; simpl; [by rewrite app_nil_r|].
    unfold SkeletalTemplate at 1.
    destruct (Blueprint.ComponentTemplate n) as [t|]; simpl; [|apply IH].
    destruct (Blueprint.CastSkeletalMeshComponent t) as [c|]; simpl; [|apply IH].
    rewrite IH. by rewrite <- app_assoc. }
  cut (forall l acc, exists b r,
          foldM F l (false, acc) = Ok (b, r) /\ r ≡ₚ acc ++ omap SkeletalTemplate l /\
          match list_find (fun Node => Blueprint.IsRootNode Node = true /\
                                       is_Some (SkeletalTemplate Node)) l with
          | Some (_, Root) => head r = SkeletalTemplate Root
          | None => r = acc ++ omap SkeletalTemplate l
          end).
  { intros Hgen. destruct (Hgen Nodes []) as (b & r & Hf & Hp & Hm).
    rewrite Hf. simpl. exists r. done. }
  induction l as [|n l IH]; intros acc.
  - simpl. exists false, acc. by rewrite app_nil_r.
  - cbn [foldM list_find].
    change (omap SkeletalTemplate (n :: l))
      with (match SkeletalTemplate n with
            | Some c => c :: omap SkeletalTemplate l
            | None => omap SkeletalTemplate l
            end).
    destruct (decide (Blueprint.IsRootNode n = true /\ is_Some (SkeletalTemplate n)))
      as [[Hroot [c Hc]]|Hnot].
    + destruct (Swap_first_last acc c) as (l1 & Hs & Hh & Hp).
      assert (HF : F (false, acc) n = Ok (true, l1)).
      { unfold F. unfold SkeletalTemplate in Hc.
        destruct (Blueprint.ComponentTemplate n) as [t|]; [|discriminate]. simpl in Hc.
        rewrite Hc, Hroot. simpl. by rewrite Hs. }
      rewrite HF, Hrooted, Hc. exists true, (l1 ++ omap SkeletalTemplate l).
      split; [done|]. split.
      * rewrite Hp. rewrite <- app_assoc. done.
      * destruct l1; [discriminate|done].
    + destruct (SkeletalTemplate n) as [c|] eqn:Hc.
      * assert (HF : F (false, acc) n = Ok (false, acc ++ [c])).
        { unfold F. unfold SkeletalTemplate in Hc.
          destruct (Blueprint.ComponentTemplate n) as [t|]; [|discriminate]. simpl in Hc.
          rewrite Hc. destruct (Blueprint.IsRootNode n); [|done].
          exfalso. apply Hnot. split; [done|]. by eexists. }
        rewrite HF. destruct (IH (acc ++ [c])) as (b & r & Hf & Hp & Hm). exists b, r.
        rewrite Hf. split; [done|]. rewrite <- app_assoc in Hp, Hm. split; [done|].
        destruct (list_find _ l) as [[i Root]|]; done.
      * assert (HF : F (false, acc) n = Ok (false, acc)).
        { unfold F. unfold SkeletalTemplate in Hc.
          destruct (Blueprint.ComponentTemplate n) as [t|]; [|done]. simpl in Hc.
          by rewrite Hc. }
        rewrite HF. destruct (IH acc) as (b & r & Hf & Hp & Hm). exists b, r.
        rewrite Hf. split; [done|]. split; [done|].
        destruct (list_find _ l) as [[i Root]|]; done.
Qed.

Lemma USCS_Node_nested_ind (P : Blueprint.USCS_Node -> Prop) :
  (forall c t r l, Forall P l -> P (Blueprint.MkNode c t r l)) -> forall Node, P Node.
Proof.
  intros Hstep. fix IH 1. intros [c t r l]. apply Hstep.
  induction l as [|n l IHl]; [constructor|constructor; [apply IH|exact IHl]].
Qed.

Lemma Descendants_unfold c t r l :
  Descendants (Blueprint.MkNode c t r l) = l ++ flat_map Descendants l.
Proof.
  cbn [Descendants]. f_equal.
Qed.

Lemma Components_loop (l : list Blueprint.USCS_Node) acc :
  foldl (fun Components ChildNode =>
           if decide (length (Blueprint.GetChildNodes ChildNode) = 0%nat)
           then Components ++ [Blueprint.ComponentTemplate ChildNode] else Components)
        acc l
    = acc ++ (Blueprint.ComponentTemplate <$> filter Childless l).
Proof.
  revert acc. induction l as [|n l IH]; intros acc; simpl.
  - by rewrite app_nil_r.
  - rewrite filter_cons. destruct (decide (Childless n)) as [Hc|Hc].
    + rewrite decide_True by (by rewrite Hc). rewrite IH, fmap_cons, <- app_assoc. done.
    + rewrite decide_False; [apply IH|]. intros Hl. apply Hc. by apply nil_length_inv.
Qed.

Lemma CreateComponentsByNode_unfold c t r l :
  Blueprint.CreateComponentsByNode (Blueprint.MkNode c t r l) =
    Blueprint.MkAddComponents (Blueprint.MkNode c t r l)
      (Blueprint.ComponentTemplate <$> filter Childless l) ::
    flat_map Blueprint.CreateComponentsByNode (filter (fun n => ~ Childless n) l).
Proof.
  cbn [Blueprint.CreateComponentsByNode]. rewrite Components_loop. simpl. f_equal.
  induction l as [|n l IH]; [done|]. rewrite filter_cons.
  destruct (decide (~ Childless n)) as [Hc|Hc].
  - rewrite decide_False.
    + simpl. by rewrite IH.
    + intros Hl. apply Hc. by apply nil_length_inv.
  - rewrite decide_True; [apply IH|].
    destruct (decide (Childless n)) as [Hc'|Hc']; [by rewrite Hc'|by exfalso].
Qed.

Lemma Descendants_childless (Node : Blueprint.USCS_Node) :
  Childless Node -> Descendants Node = [].
Proof.
  destruct Node as [c t r l]. unfold Childless. simpl. intros ->. done.
Qed.

Lemma flat_map_Permutation {A B : Type} (f g : A -> list B) (l : list A) :
  Forall (fun x => f x ≡ₚ g x) l -> flat_map f l ≡ₚ flat_map g l.
Proof.
  induction 1 as [|x l Hx Hl IH]; [done|]. simpl. by rewrite Hx, IH.
Qed.

Lemma flat_map_inner (l : list Blueprint.USCS_Node) :
  flat_map Descendants l = flat_map Descendants (filter (fun n => ~ Childless n) l).
Proof.
  induction l as [|n l IH]; [done|]. rewrite filter_cons. simpl.
  destruct (decide (~ Childless n)) as [Hn|Hn]; simpl; [by rewrite IH|].
  rewrite Descendants_childless; [done|]. by destruct (decide (Childless n)).
Qed.

Lemma filter_flat_map {A B : Type} (P : B -> Prop) `{forall x, Decision (P x)}
    (f : A -> list B) (l : list A) :
  filter P (flat_map f l) = flat_map (fun x => filter P (f x)) l.
Proof.
  induction l as [|x l IH]; [done|]. simpl. by rewrite filter_app, IH.
Qed.

Lemma fmap_flat_map {A B C : Type} (h : B -> C) (f : A -> list B) (l : list A) :
  h <$> flat_map f l = flat_map (fun x => h <$> f x) l.
Proof.
  induction l as [|x l IH]; [done|]. simpl. by rewrite fmap_app, IH.
Qed.

Lemma flat_map_flat_map {A B C : Type} (g : B -> list C) (f : A -> list B) (l : list A) :
  flat_map g (flat_map f l) = flat_map (fun x => flat_map g (f x)) l.
Proof.
  induction l as [|x l IH]; [done|]. simpl. by rewrite flat_map_app, IH.
Qed.

(** X13: CreateComponentsByNode hands to AddComponentsToBlueprint the
    templates of the nodes below the given node that have no child, each
    once and under its parent as new root; the template of a node that has
    children is never handed over.  It makes one call for the given node
    and one for each node below it that has children. *)
Theorem CreateComponentsByNode_childless_only (RootNode : Blueprint.USCS_Node) :
  flat_map Blueprint.Components (Blueprint.CreateComponentsByNode RootNode)
    ≡ₚ Blueprint.ComponentTemplate <$> filter Childless (Descendants RootNode) /\
  Blueprint.OptionalNewRootNode <$> Blueprint.CreateComponentsByNode RootNode
    ≡ₚ RootNode :: filter (fun n => ~ Childless n) (Descendants RootNode) /\
  Forall (fun Call =>
            Blueprint.Components Call =
              Blueprint.ComponentTemplate <$>
                filter Childless (Blueprint.GetChildNodes (Blueprint.OptionalNewRootNode Call)))
         (Blueprint.CreateComponentsByNode RootNode).
Proof.
  induction RootNode as [c t r l IH] using USCS_Node_nested_ind.
  rewrite CreateComponentsByNode_unfold, Descendants_unfold.
  set (inner := filter (fun n => ~ Childless n) l).
  assert (IHi : Forall (fun n =>
            flat_map Blueprint.Components (Blueprint.CreateComponentsByNode n)
              ≡ₚ Blueprint.ComponentTemplate <$> filter Childless (Descendants n) /\
            Blueprint.OptionalNewRootNode <$> Blueprint.CreateComponentsByNode n
              ≡ₚ n :: filter (fun n => ~ Childless n) (Descendants n) /\
            Forall (fun Call =>
                      Blueprint.Components Call =
                        Blueprint.ComponentTemplate <$>
                          filter Childless
                            (Blueprint.GetChildNodes (Blueprint.OptionalNewRootNode Call)))
                   (Blueprint.CreateComponentsByNode n)) inner).
  { rewrite Forall_forall in IH. apply Forall_forall. intros n Hn. apply IH.
    unfold inner in Hn. by apply list_elem_of_filter in Hn as [_ ?]. }
  split; [|split].
  - cbn [flat_map Blueprint.Components]. rewrite filter_app, fmap_app.
    apply Permutation_app; [done|].
    rewrite flat_map_flat_map, (flat_map_inner l), filter_flat_map, fmap_flat_map.
    apply flat_map_Permutation. eapply Forall_impl; [exact IHi|]. by intros n (? & _).
  - rewrite fmap_cons. cbn [Blueprint.OptionalNewRootNode]. constructor.
    rewrite filter_app. fold inner.
    rewrite fmap_flat_map, (flat_map_inner l), filter_flat_map. fold inner.
    transitivity (flat_map (fun n => n :: filter (fun n => ~ Childless n) (Descendants n))
                    inner).
    + apply flat_map_Permutation. eapply Forall_impl; [exact IHi|]. by intros n (_ & ? & _).
    + clear. induction inner as [|n ns IHn]; [done|]. simpl.
      rewrite IHn. constructor. rewrite !app_assoc.
      apply Permutation_app; [apply Permutation_app_comm|done].
  - constructor; [done|]. apply Forall_flat_map.
    eapply Forall_impl; [exact IHi|]. by intros n (_ & _ & ?).
Qed.

End BlueprintProperties.

(** * Properties of the bone-name checks and of the duplicate report *)

Section BoneNamesProperties.
Context `{E : Engine}.

Lemma FindBoneInfo_found (l : list FMeshBoneInfo) (b : FMeshBoneInfo) :
  FindBoneInfo l b ≠ INDEX_NONE <-> Name b ∈ Name <$> l.
Proof.
  unfold FindBoneInfo, INDEX_NONE.
  destruct (list_find _ l) as [[i x]|] eqn:Hf.
  - apply list_find_Some in Hf as (Hi & Hx & _). split; [|lia].
    intros _. apply list_elem_of_fmap. exists x. split; [done|].
    by eapply list_elem_of_lookup_2.
  - split; [done|]. intros Hin. apply list_elem_of_fmap in Hin as (x & Hx & Hin).
    apply list_find_None in Hf. rewrite Forall_forall in Hf. by destruct (Hf x Hin).
Qed.

Lemma CheckAgainst_round (SourceName : string) (LastBoneInfo l : list FMeshBoneInfo)
    (f : bool) (acc : list FMeshBoneInfo) :
  foldl (fun (st' : bool * list FMeshBoneInfo) BoneInfo =>
           if decide (FindBoneInfo LastBoneInfo BoneInfo ≠ INDEX_NONE)
           then (true, st'.2 ++ [RenameBone SourceName BoneInfo])
           else (st'.1, st'.2 ++ [BoneInfo]))
        (f, acc) l
  = (f || bool_decide (Exists (fun b => Name b ∈ Name <$> LastBoneInfo) l),
     acc ++ (CheckedBone SourceName LastBoneInfo <$> l)).
Proof.
  revert f acc. induction l as [|b l IH]; intros f acc.
  - simpl. rewrite app_nil_r. f_equal. by destruct f.
  - rewrite fmap_cons. cbn [foldl].
    destruct (decide (FindBoneInfo LastBoneInfo b ≠ INDEX_NONE)) as [Hb|Hb];
      cbn [fst snd]; rewrite IH; rewrite <- app_assoc; cbn [app].
    + assert (Hc : CheckedBone SourceName LastBoneInfo b = RenameBone SourceName b)
        by (unfold CheckedBone; by rewrite decide_True).
      rewrite Hc. f_equal.
      rewrite (bool_decide_eq_true_2 (Exists _ (b :: l))); [by rewrite orb_true_r|].
      left. by apply FindBoneInfo_found.
    + assert (Hc : CheckedBone SourceName LastBoneInfo b = b)
        by (unfold CheckedBone; by rewrite decide_False).
      rewrite Hc. f_equal. f_equal. apply bool_decide_ext. rewrite Exists_cons.
      rewrite <- FindBoneInfo_found. tauto.
Qed.

(** The loop of [ModifySameBoneName] once [RootSkeleton] is set. *)
Lemma ModifySameBoneName_rooted (l : list (option USkeleton)) (Root : USkeleton) :
  foldM (fun (RootSkeleton SourceSkeleton : option USkeleton) =>
           match RootSkeleton with
           | Some _ =>
               Source ← checked SourceSkeleton;
               let CurrentBoneInfo := RawRefBoneInfo (ReferenceSkeleton Source) in
               let LastBoneInfo := RawRefBoneInfo (ReferenceSkeleton Source) in
               let CurrentBoneInfo1 :=
                 (fun BoneInfo =>
                    if decide (FindBoneInfo LastBoneInfo BoneInfo ≠ INDEX_NONE)
                    then RenameBone (GetName Source) BoneInfo else BoneInfo)
                 <$> CurrentBoneInfo in
               Ok RootSkeleton
           | None => Ok SourceSkeleton
           end) l (Some Root)
  = if decide (Forall is_Some l) then Ok (Some Root) else Crash.
Proof.
  set (F := fun RootSkeleton SourceSkeleton : option USkeleton => _).
  induction l as [|p l IH]; cbn [foldM].
  - by rewrite decide_True.
  - destruct p as [S|].
    + change (F (Some Root) (Some S)) with (Ok (A := option USkeleton) (Some Root)).
      cbv beta iota. rewrite IH. destruct (decide (Forall is_Some l)) as [Hin|Hin].
      * rewrite decide_True; [done|]. by constructor.
      * rewrite decide_False; [done|]. intros Hc. apply Forall_cons_1 in Hc as [_ Hc]. done.
    + change (F (Some Root) None) with (Crash (A := option USkeleton)).
      cbv beta iota. rewrite decide_False; [done|].
      intros Hc%Forall_cons_1. by destruct Hc as [[? ?] _].
Qed.

Lemma ModifySameBoneName_loop (l : list (option USkeleton)) :
  foldM (fun (RootSkeleton SourceSkeleton : option USkeleton) =>
           match RootSkeleton with
           | Some _ =>
               Source ← checked SourceSkeleton;
               let CurrentBoneInfo := RawRefBoneInfo (ReferenceSkeleton Source) in
               let LastBoneInfo := RawRefBoneInfo (ReferenceSkeleton Source) in
               let CurrentBoneInfo1 :=
                 (fun BoneInfo =>
                    if decide (FindBoneInfo LastBoneInfo BoneInfo ≠ INDEX_NONE)
                    then RenameBone (GetName Source) BoneInfo else BoneInfo)
                 <$> CurrentBoneInfo in
               Ok RootSkeleton
           | None => Ok SourceSkeleton
           end) l None = Crash
  <-> exists i j Skeleton, (i < j)%nat /\ l !! i = Some (Some Skeleton) /\ l !! j = Some None.
Proof.
  pose proof (ModifySameBoneName_rooted) as Hrooted. revert Hrooted.
  set (F := fun RootSkeleton SourceSkeleton : option USkeleton => _). intros Hrooted.
  induction l as [|p l IH].
  - simpl. split; [done|]. by intros (i & j & S & _ & Hi & _).
  - destruct p as [Root|].
    + cbn [foldM]. change (F None (Some Root)) with (Ok (A := option USkeleton) (Some Root)).
      cbv beta iota. rewrite Hrooted.
      destruct (decide (Forall is_Some l)) as [Hin|Hin].
      * split; [done|]. intros (i & j & S & Hij & Hi & Hj).
        destruct j as [|j]; [lia|]. simpl in Hj.
        rewrite Forall_lookup in Hin. by destruct (Hin j None Hj).
      * split; [intros _|done]. apply not_Forall_Exists in Hin; [|apply _].
        apply Exists_exists in Hin as (p & Hp & Hnone).
        apply list_elem_of_lookup in Hp as (j & Hj).
        exists 0%nat, (S j), Root. split; [lia|]. split; [done|]. simpl.
        destruct p; [|done]. destruct Hnone. by eexists.
    + cbn [foldM]. change (F None None) with (Ok (A := option USkeleton) None).
      cbv beta iota. rewrite IH. split.
      * intros (i & j & S & Hij & Hi & Hj). exists (Datatypes.S i), (Datatypes.S j), S.
        split; [lia|]. by split.
      * intros (i & j & S & Hij & Hi & Hj). destruct i as [|i]; [done|].
        destruct j as [|j]; [lia|]. exists i, j, S. split; [lia|]. by split.
Qed.

Lemma ModifySameBoneName_loop_no_fuel (l : list (option USkeleton)) (Root : option USkeleton) :
  foldM (fun (RootSkeleton SourceSkeleton : option USkeleton) =>
           match RootSkeleton with
           | Some _ =>
               Source ← checked SourceSkeleton;
               let CurrentBoneInfo := RawRefBoneInfo (ReferenceSkeleton Source) in
               let LastBoneInfo := RawRefBoneInfo (ReferenceSkeleton Source) in
               let CurrentBoneInfo1 :=
                 (fun BoneInfo =>
                    if decide (FindBoneInfo LastBoneInfo BoneInfo ≠ INDEX_NONE)
                    then RenameBone (GetName Source) BoneInfo else BoneInfo)
                 <$> CurrentBoneInfo in
               Ok RootSkeleton
           | None => Ok SourceSkeleton
           end) l Root ≠ OutOfFuel.
Proof.
  set (F := fun RootSkeleton SourceSkeleton : option USkeleton => _).
  revert Root. induction l as [|p l IH]; intros Root; [done|].
  cbn [foldM]. destruct Root as [R|].
  - destruct p as [S|].
    + change (F (Some R) (Some S)) with (Ok (A := option USkeleton) (Some R)).
      cbv beta iota. apply IH.
    + done.
  - change (F None p) with (Ok (A := option USkeleton) p). cbv beta iota. apply IH.
Qed.

Lemma ModifySameBoneName_null_free (l : list (option USkeleton)) :
  None ∉ l -> ModifySameBoneName l = Ok l.
Proof.
  intros Hno. unfold ModifySameBoneName.
  pose proof (ModifySameBoneName_loop l) as Hloop.
  pose proof (ModifySameBoneName_loop_no_fuel l None) as Hfuel.
  destruct (foldM _ l None) as [r| |] eqn:Hf; simpl; [done| |done].
  destruct Hloop as [Hloop _]. destruct (Hloop eq_refl) as (i & j & S & _ & _ & Hj).
  destruct Hno. by eapply list_elem_of_lookup_2.
Qed.

(** X14: ModifySameBoneName fails exactly when a null entry of the array
    comes after a non-null one.  In every other case it returns and the
    array, with the skeletons it points to, is as it was: the new names
    are given to a copy of the bones only. *)
Theorem ModifySameBoneName_null_after_first (Skeletons : list (option USkeleton)) :
  (ModifySameBoneName Skeletons = Crash <->
     exists i j Skeleton, (i < j)%nat /\ Skeletons !! i = Some (Some Skeleton) /\
                          Skeletons !! j = Some None) /\
  (ModifySameBoneName Skeletons = Crash \/ ModifySameBoneName Skeletons = Ok Skeletons).
Proof.
  unfold ModifySameBoneName.
  pose proof (ModifySameBoneName_loop Skeletons) as Hloop.
  pose proof (ModifySameBoneName_loop_no_fuel Skeletons None) as Hfuel.
  destruct (foldM _ Skeletons None) as [r| |] eqn:Hf; simpl.
  - split; [|by right]. rewrite <- Hloop. done.
  - split; [|by left]. by rewrite <- Hloop.
  - done.
Qed.

Lemma filter_nonnull_no_null (l : list (option USkeleton)) :
  None ∉ filter (fun InSkeleton : option USkeleton => InSkeleton ≠ None) l.
Proof. intros Hin. apply list_elem_of_filter in Hin as [Hne _]. done. Qed.

Lemma filter_nonnull_length (l : list (option USkeleton)) :
  length (filter (fun InSkeleton : option USkeleton => InSkeleton ≠ None) l)
  = length (omap id l).
Proof.
  induction l as [|[S|] l IH]; [done| |].
  - rewrite filter_cons_True by done. simpl. by rewrite IH.
  - rewrite filter_cons_False by (intros Hc; by apply Hc). done.
Qed.

(** X15: MergeSkeletal never fails, whatever null entries the list of
    skeletons holds, and merges nothing: it logs its warning when at most
    one entry of the list is a skeleton, and nothing otherwise. *)
Theorem MergeSkeletal_only_warns (SkeletonMergeParams : FSkeletonMergeParams)
    (SkeletalNodes : list USCS_Node) :
  MergeSkeletal SkeletonMergeParams SkeletalNodes =
    Ok (if decide (length (omap id (SkeletonsToMerge SkeletonMergeParams)) <= 1)%nat
        then [LogMustProvideMultipleMeshes] else []).
Proof.
  unfold MergeSkeletal. rewrite filter_nonnull_length.
  destruct (decide (Z.of_nat _ <= 1)) as [Hle|Hgt].
  - rewrite decide_True by lia. done.
  - rewrite decide_False by lia.
    pose proof (ModifySameBoneName_null_free
                  (filter (fun InSkeleton : option USkeleton => InSkeleton ≠ None)
                          (SkeletonsToMerge SkeletonMergeParams))
                  (filter_nonnull_no_null _)) as ->.
    done.
Qed.

Lemma Suffixed_S k s n : Suffixed (S k) s n = String.append (Suffixed k s n) (String.append "_" s).
Proof. done. Qed.

(** X16: in BoneNameCheck, the bones of a skeleton keep their number, their
    order and their parent indices.  A bone whose name is the name of no
    bone of an earlier skeleton is left as it is; any other bone gets its
    name followed by "_" and the skeleton's name, once or several times
    but at most once for each earlier skeleton, and its export name is set
    to the new name.  bRename is set exactly when some bone has the name
    of a bone of an earlier skeleton. *)
Theorem BoneNameCheck_renames_clashes (SkeletonsCache : list USkeleton)
    (SourceSkeleton : USkeleton) :
  let CurrentBoneInfo := RawRefBoneInfo (ReferenceSkeleton SourceSkeleton) in
  let Checked := CheckAgainstCache SkeletonsCache SourceSkeleton in
  length Checked.2 = length CurrentBoneInfo /\
  (forall i b, CurrentBoneInfo !! i = Some b ->
     (Forall (fun Skeleton => Name b ∉ SkeletonBoneNames Skeleton) SkeletonsCache /\
      Checked.2 !! i = Some b) \/
     (Exists (fun Skeleton => Name b ∈ SkeletonBoneNames Skeleton) SkeletonsCache /\
      exists k, (0 < k <= length SkeletonsCache)%nat /\
        Checked.2 !! i =
          Some (MkBoneInfo (Suffixed k (GetName SourceSkeleton) (Name b))
                           (Suffixed k (GetName SourceSkeleton) (Name b))
                           (ParentIndex b)))) /\
  (Checked.1 = true <->
     Exists (fun b => Exists (fun Skeleton => Name b ∈ SkeletonBoneNames Skeleton) SkeletonsCache)
            CurrentBoneInfo).
Proof.
  intros CurrentBoneInfo Checked. subst Checked. unfold CheckAgainstCache.
  fold CurrentBoneInfo. generalize CurrentBoneInfo. clear CurrentBoneInfo.
  intros CurrentBoneInfo.
  induction SkeletonsCache as [|Last Cache IH] using rev_ind.
  - simpl. split; [done|]. split.
    + intros i b Hb. left. by split.
    + split; [done|]. intros Hex. apply Exists_exists in Hex as (b & _ & Hex).
      by apply Exists_nil in Hex.
  - rewrite foldl_snoc.
    destruct (foldl _ _ Cache) as [f cur] eqn:Hfold. simpl in IH |- *.
    rewrite CheckAgainst_round. simpl.
    destruct IH as (Hlen & Hbones & Hflag).
    split; [by rewrite length_fmap|]. split.
    + intros i b Hb. rewrite list_lookup_fmap.
      destruct (Hbones i b Hb) as [[Hno Hi]|[Hsome (k & Hk & Hi)]]; rewrite Hi; simpl.
      * unfold CheckedBone.
        destruct (decide (FindBoneInfo _ b ≠ INDEX_NONE)) as [Hf|Hf].
        -- right. split.
           ++ apply Exists_app. right. left. by apply FindBoneInfo_found.
           ++ exists 1%nat. rewrite length_app. simpl. split; [lia|done].
        -- left. split; [|done]. apply Forall_app. split; [done|].
           constructor; [|done]. unfold SkeletonBoneNames. by rewrite <- FindBoneInfo_found.
      * right. split; [apply Exists_app; by left|].
        unfold CheckedBone.
        destruct (decide (FindBoneInfo _ _ ≠ INDEX_NONE)) as [Hf|Hf].
        -- exists (S k). rewrite length_app. simpl. split; [lia|done].
        -- exists k. rewrite length_app. simpl. split; [lia|done].
    + rewrite orb_true_iff, Hflag, bool_decide_eq_true. split.
      * intros [Hex|Hex].
        -- eapply Exists_impl; [exact Hex|]. intros b Hb. apply Exists_app. by left.
        -- apply Exists_exists in Hex as (c & Hc & Hname).
           apply list_elem_of_lookup in Hc as (i & Hc).
           assert (Hi : is_Some (CurrentBoneInfo !! i)).
           { apply lookup_lt_is_Some. rewrite <- Hlen. by eapply lookup_lt_Some. }
           destruct Hi as (b & Hb).
           apply Exists_exists. exists b. split; [by eapply list_elem_of_lookup_2|].
           destruct (Hbones i b Hb) as [[Hno Hi]|[Hsome _]].
           ++ rewrite Hc in Hi. injection Hi as ->. apply Exists_app. right. by left.
           ++ apply Exists_app. by left.
      * intros Hex. apply Exists_exists in Hex as (b & Hb & Hex).
        apply Exists_app in Hex as [Hex|Hex].
        -- left. apply Exists_exists. by exists b.
        -- apply Exists_cons in Hex as [Hex|Hex]; [|by apply Exists_nil in Hex].
           apply list_elem_of_lookup in Hb as (i & Hb).
           destruct (Hbones i b Hb) as [[Hno Hi]|[Hsome _]].
           ++ right. apply Exists_exists. exists b. split; [by eapply list_elem_of_lookup_2|done].
           ++ left. apply Exists_exists. exists b. split; [by eapply list_elem_of_lookup_2|done].
Qed.

Lemma collect_names (l : list (option FName)) (acc : list FName) :
  foldl (fun Names Socket => match Socket with
                             | Some SocketFName => Names ++ [SocketFName]
                             | None => Names
                             end) acc l = acc ++ omap id l.
Proof.
  revert acc. induction l as [|[n|] l IH]; intros acc; simpl.
  - by rewrite app_nil_r.
  - rewrite IH. by rewrite <- app_assoc.
  - apply IH.
Qed.

Lemma TSetAppend_elem (l acc : list FName) (x : FName) :
  x ∈ foldl (fun s n => TSetAdd n s) acc l <-> x ∈ acc \/ x ∈ l.
Proof.
  revert acc. induction l as [|n l IH]; intros acc; simpl.
  - rewrite elem_of_nil. tauto.
  - rewrite IH, TSetAdd_elem, elem_of_cons. tauto.
Qed.

Lemma TSetAdd_length (n : FName) (s : list FName) :
  length (TSetAdd n s) = if decide (n ∈ s) then length s else S (length s).
Proof.
  unfold TSetAdd. destruct (decide (n ∈ s)); [done|]. rewrite length_app. simpl. lia.
Qed.

Lemma TSetAppend_length (l acc : list FName) :
  (length (foldl (fun s n => TSetAdd n s) acc l) <= length acc + length l)%nat /\
  (length (foldl (fun s n => TSetAdd n s) acc l) = (length acc + length l)%nat <->
   NoDup l /\ forall x, x ∈ l -> x ∉ acc).
Proof.
  revert acc. induction l as [|n l IH]; intros acc; simpl.
  - split; [lia|]. split; [|lia]. intros _. split; [constructor|]. by intros x ?%elem_of_nil.
  - destruct (IH (TSetAdd n acc)) as [Hle Heq]. rewrite TSetAdd_length in Hle, Heq.
    destruct (decide (n ∈ acc)) as [Hin|Hin].
    + split; [lia|]. split; [lia|]. intros [_ Hfresh]. destruct (Hfresh n); [by left|done].
    + split; [lia|]. rewrite NoDup_cons.
      replace (length acc + S (length l))%nat with (S (length acc) + length l)%nat by lia.
      rewrite Heq. split.
      * intros [Hnd Hfresh]. split; [split; [|done]|].
        -- intros Hn. apply (Hfresh n Hn). apply TSetAdd_elem. by left.
        -- intros x Hx Hacc. apply elem_of_cons in Hx as [->|Hx]; [done|].
           apply (Hfresh x Hx). apply TSetAdd_elem. by right.
      * intros [[Hn Hnd] Hfresh]. split; [done|]. intros x Hx Hacc.
        apply TSetAdd_elem in Hacc as [->|Hacc]; [done|].
        apply (Hfresh x); [by right|done].
Qed.

(** X17: the duplicate report of MergeMeshes says "True" exactly when the
    name of a socket occurs twice among the sockets of the mesh or twice
    among the sockets of the skeleton.  A name that a socket of the mesh
    shares with a socket of the skeleton does not count, and null entries
    are passed over. *)
Theorem FoundDuplicates_within_one_list (MeshOnlySocketList SkeletonSockets : list (option FName)) :
  FoundDuplicates MeshOnlySocketList SkeletonSockets = true <->
  ~ NoDup (omap id MeshOnlySocketList) \/ ~ NoDup (omap id SkeletonSockets).
Proof.
  unfold FoundDuplicates. rewrite !collect_names. simpl.
  destruct (TSetAppend_length (omap id MeshOnlySocketList) []) as [HleA HeqA].
  destruct (TSetAppend_length (omap id SkeletonSockets) []) as [HleB HeqB].
  simpl in HleA, HeqA, HleB, HeqB.
  rewrite bool_decide_eq_true. split.
  - intros Hne.
    destruct (decide (NoDup (omap id MeshOnlySocketList))) as [HA|HA]; [|by left].
    destruct (decide (NoDup (omap id SkeletonSockets))) as [HB|HB]; [|by right].
    destruct Hne.
    assert (length (foldl (fun s n => TSetAdd n s) [] (omap id MeshOnlySocketList))
            = length (omap id MeshOnlySocketList)) as ->.
    { apply HeqA. split; [done|]. by intros x _ ?%elem_of_nil. }
    assert (length (foldl (fun s n => TSetAdd n s) [] (omap id SkeletonSockets))
            = length (omap id SkeletonSockets)) as ->.
    { apply HeqB. split; [done|]. by intros x _ ?%elem_of_nil. }
    lia.
  - intros Hdup Heq.
    assert (HA : length (foldl (fun s n => TSetAdd n s) [] (omap id MeshOnlySocketList))
                 = length (omap id MeshOnlySocketList)) by lia.
    assert (HB : length (foldl (fun s n => TSetAdd n s) [] (omap id SkeletonSockets))
                 = length (omap id SkeletonSockets)) by lia.
    apply HeqA in HA as [HA _]. apply HeqB in HB as [HB _]. tauto.
Qed.

End BoneNamesProperties.

(** * The merged hierarchy under AddBone *)

Section HierarchyProperties.
Context `{E : Engine}.

Abbreviation Pose := (FTransform FVector FQuat).

(** X18: after AddBone the hierarchy answers for the bone with the pose
    given, with the hash of the parent path combined with the hash of the
    name, and lists the bone under the parent path; what it answers for
    any other bone is as before.  No bone is ever taken off a list of
    children, also when it is added again under another path: each list
    only grows at its end. *)
Theorem AddBone_lookup (BoneName : FName) (ReferencePose : Pose) (PathHash : Z)
    (H : FMergedBoneHierarchy) :
  let H1 := AddBone BoneName ReferencePose PathHash H in
  GetReferencePose H1 BoneName = Ok ReferencePose /\
  GetBonePathHash H1 BoneName = Ok (HashCombine PathHash (GetTypeHash BoneName)) /\
  (exists Children, GetChildBonesForPath H1 PathHash = Ok Children /\
                     BoneName ∈ Children) /\
  (forall Other, Other ≠ BoneName ->
     GetReferencePose H1 Other = GetReferencePose H Other /\
     GetBonePathHash H1 Other = GetBonePathHash H Other) /\
  (forall Path Children, FindChildBonesForPath H Path = Some Children ->
     exists Children1, FindChildBonesForPath H1 Path = Some Children1 /\
                        Children `prefix_of` Children1).
Proof.
  intros H1. subst H1.
  unfold GetReferencePose, GetBonePathHash, GetChildBonesForPath, FindChildBonesForPath,
    AddBone. simpl.
  rewrite !lookup_insert_eq. simpl. repeat split.
  - eexists. split; [done|]. apply TSetAdd_elem. by left.
  - by rewrite lookup_insert_ne.
  - by rewrite lookup_insert_ne.
  - intros Path Children HP. destruct (decide (Path = PathHash)) as [->|Hne].
    + rewrite lookup_insert_eq. eexists. split; [done|]. rewrite HP. simpl.
      unfold TSetAdd. destruct (decide (BoneName ∈ Children)); [done|].
      by apply prefix_app_r.
    + rewrite lookup_insert_ne by done. by exists Children.
Qed.

End HierarchyProperties.

(** * A failed compatibility check, and the guards of the merge *)

Section MismatchAndGuards.
Context `{E : Engine}.

Abbreviation Pose := (FTransform FVector FQuat).

Tactic Notation "inv_bind" hyp(H) "as" ident(a) ident(Ha) :=
  apply bind_Ok in H as (a & Ha & H).

(** The bone loop stops at a bone whose chain hash mismatches. *)
Lemma MergeBone_mismatch Params nodes idx Skeleton i b st :
  bCheckSkeletonsCompatibility Params = true ->
  ChainMismatch nodes idx Skeleton i st ->
  exists node,
    MergeBone Params nodes idx Skeleton i b st =
      Ok (Break (MkState (MergedBoneHierarchy st) (BoneNamesToPathHash st)
                   (BoneNamesToBonePose st) (HashToSockets st) true node
                   (Log st ++ [LogInvalidBoneChain (GetName Skeleton)]))).
Proof.
  intros Hflag (Bone & Existing & Computed & HB & HC & HL & Hne).
  unfold ComputedPathHash in HC. rewrite HB in HC.
  destruct (BoneParent nodes idx Skeleton Bone (BoneNode st)) as [[[node pn] ph]| |] eqn:HP;
    [|discriminate|discriminate].
  inversion HC; subst Computed; clear HC.
  exists node. unfold MergeBone. rewrite (ArrayAt_lookup _ _ _ HB), Ok_bind, HP, Ok_bind.
  unfold CheckCompatibility. rewrite Hflag, HL.
  rewrite decide_True by done. done.
Qed.

Lemma MergeBone_flag Params nodes idx Skeleton i b st c :
  MergeBone Params nodes idx Skeleton i b st = Ok c ->
  match c with
  | Continue _ st' => bMergeSkeletonsFailed st' = bMergeSkeletonsFailed st
  | Break st' => bMergeSkeletonsFailed st' = true
  end.
Proof.
  intros HM. destruct c as [b' st'|st'].
  - apply MergeBone_Continue in HM
      as (Bone & node & pn & ph & poses & log & sp & T & _ & _ & _ & _ & _ & ->). done.
  - apply MergeBone_Break in HM as (_ & node & ->). done.
Qed.

Lemma MergeBones_flag Params nodes idx Skeleton l :
  forall b st st', MergeBones Params nodes idx Skeleton l b st = Ok st' ->
    bMergeSkeletonsFailed st = true -> bMergeSkeletonsFailed st' = true.
Proof.
  induction l as [|i l IH]; intros b st st' HM Hf; simpl in HM.
  - by inversion HM; subst.
  - inv_bind HM as c Hc. apply MergeBone_flag in Hc. destruct c as [b' st1|st1].
    + eapply IH; [exact HM|]. by rewrite Hc.
    + by inversion HM; subst.
Qed.

(** A part of the bone loop that ends without the failure flag has not
    left the loop: the loop goes on from its state. *)
Lemma MergeBones_app Params nodes idx Skeleton l1 l2 :
  forall b st st1,
    MergeBones Params nodes idx Skeleton l1 b st = Ok st1 ->
    bMergeSkeletonsFailed st1 = false ->
    exists b1, MergeBones Params nodes idx Skeleton (l1 ++ l2) b st
               = MergeBones Params nodes idx Skeleton l2 b1 st1.
Proof.
  induction l1 as [|i l1 IH]; intros b st st1 HM Hf; simpl in HM.
  - inversion HM; subst. by exists b.
  - inv_bind HM as c Hc. simpl. rewrite Hc, Ok_bind.
    destruct c as [b' st'|st'].
    + by apply IH.
    + inversion HM; subst st'. apply MergeBone_flag in Hc. congruence.
Qed.

Lemma MergeSkeletonsFrom_app Params nodes l1 l2 :
  forall idx st,
    MergeSkeletonsFrom Params nodes idx (l1 ++ l2) st =
      (st1 ← MergeSkeletonsFrom Params nodes idx l1 st;
       MergeSkeletonsFrom Params nodes (idx + length l1) l2 st1).
Proof.
  induction l1 as [|p l1 IH]; intros idx st; simpl.
  - by rewrite Nat.add_0_r.
  - destruct (MergeSkeleton Params nodes idx p st) as [st'| |]; simpl; [|done|done].
    rewrite IH. by rewrite Nat.add_succ_r.
Qed.

Lemma MergeSkeletonsFrom_valid Params nodes l :
  forall idx st st', MergeSkeletonsFrom Params nodes idx l st = Ok st' -> Forall is_Some l.
Proof.
  induction l as [|p l IH]; intros idx st st' HM; [constructor|]. simpl in HM.
  inv_bind HM as st1 Hst1. constructor; [|by eapply IH].
  unfold MergeSkeleton in Hst1. inv_bind Hst1 as Sk HS. apply checked_Ok in HS. by eexists.
Qed.

Lemma TotalPossibleBones_valid (l : list (option USkeleton)) (z : Z) :
  Forall is_Some l ->
  exists t,
    foldM (fun Sum SkeletonPtr =>
             Skeleton ← checked SkeletonPtr;
             Ok (Sum + Z.of_nat (length (RawRefBoneInfo (ReferenceSkeleton Skeleton)))))
          l z = Ok t.
Proof.
  intros HF. revert z. induction HF as [|p l [Sk ->] HF IH]; intros z; simpl; [eauto|].
  apply IH.
Qed.

(** C2 (as amended): with the compatibility check enabled, let a source
    reach, without having failed, a bone whose chain hash mismatches the
    recorded one.  Then the error is logged and the source is left there:
    the bones it entered before stay, its remaining bones and its sockets
    are not entered.  The loop goes on with the later sources, each of
    which runs through its bone loop in full: the accumulation ends
    exactly as the loop over the later sources ends from that state.  But
    the failure flag is never reset: whenever the accumulation ends, the
    merge returns no skeleton, whatever the other sources are. *)
Theorem C2_any_mismatch_fails_the_merge (fuel : nat) (Params : FSkeletonMergeParams)
    (SkeletalNodes : list USCS_Node) (Before After : list (option USkeleton))
    (Skeleton : USkeleton) (BoneIndex : nat) (st0 sti : MergeState) :
  bCheckSkeletonsCompatibility Params = true ->
  UniqueSkeletons Params = Before ++ Some Skeleton :: After ->
  MergeSkeletonsFrom Params SkeletalNodes 0 Before (InitialState 0) = Ok st0 ->
  MergeBones Params SkeletalNodes (length Before) Skeleton (seq 0 BoneIndex) false st0
    = Ok sti ->
  bMergeSkeletonsFailed sti = false ->
  ChainMismatch SkeletalNodes (length Before) Skeleton BoneIndex sti ->
  exists st1,
    MergeSkeleton Params SkeletalNodes (length Before) (Some Skeleton) st0 = Ok st1 /\
    MergedBoneHierarchy st1 = MergedBoneHierarchy sti /\
    BoneNamesToPathHash st1 = BoneNamesToPathHash sti /\
    BoneNamesToBonePose st1 = BoneNamesToBonePose sti /\
    HashToSockets st1 = HashToSockets sti /\
    Log st1 = Log sti ++ [LogInvalidBoneChain (GetName Skeleton)] /\
    bMergeSkeletonsFailed st1 = true /\
    (forall (Later : USkeleton) (idx : nat) (st : MergeState),
        bMergeSkeletonsFailed st = true ->
        MergeSkeleton Params SkeletalNodes idx (Some Later) st =
          MergeBones Params SkeletalNodes idx Later
            (seq 0 (length (RawRefBoneInfo (ReferenceSkeleton Later)))) false st) /\
    (forall fin : MergeState,
        AccumulateSkeletons Params SkeletalNodes = Ok (Some fin) <->
        MergeSkeletonsFrom Params SkeletalNodes (S (length Before)) After st1 = Ok fin) /\
    (forall fin : MergeState,
        AccumulateSkeletons Params SkeletalNodes = Ok (Some fin) ->
        MergeSkeletons fuel Params SkeletalNodes = Ok None).
Proof.
  intros Hflag HU Hst0 Hsti Hfi Hmis.
  destruct (MergeBone_mismatch Params SkeletalNodes (length Before) Skeleton BoneIndex
              false sti Hflag Hmis) as [node0 _].
  assert (Hlt : (BoneIndex < length (RawRefBoneInfo (ReferenceSkeleton Skeleton)))%nat).
  { destruct Hmis as (Bone & _ & _ & HB & _). by apply lookup_lt_Some in HB. }
  set (n := length (RawRefBoneInfo (ReferenceSkeleton Skeleton))) in *.
  assert (Hseq : seq 0 n = seq 0 BoneIndex ++ BoneIndex :: seq (S BoneIndex) (n - S BoneIndex)).
  { replace n with (BoneIndex + S (n - S BoneIndex))%nat at 1 by lia.
    by rewrite seq_app. }
  destruct (MergeBones_app Params SkeletalNodes (length Before) Skeleton (seq 0 BoneIndex)
              (BoneIndex :: seq (S BoneIndex) (n - S BoneIndex)) false st0 sti Hsti Hfi)
    as [b1 Happ].
  destruct (MergeBone_mismatch Params SkeletalNodes (length Before) Skeleton BoneIndex
              b1 sti Hflag Hmis) as [node Hbreak].
  set (st1 := MkState (MergedBoneHierarchy sti) (BoneNamesToPathHash sti)
                (BoneNamesToBonePose sti) (HashToSockets sti) true node
                (Log sti ++ [LogInvalidBoneChain (GetName Skeleton)])) in *.
  assert (HM1 : MergeSkeleton Params SkeletalNodes (length Before) (Some Skeleton) st0
                = Ok st1).
  { unfold MergeSkeleton. simpl checked. rewrite Ok_bind. fold n.
    rewrite Hseq, Happ. cbn [MergeBones]. rewrite Hbreak, Ok_bind, Ok_bind.
    by rewrite Hflag. }
  assert (Hloop : forall fin : MergeState,
             AccumulateSkeletons Params SkeletalNodes = Ok (Some fin) <->
             MergeSkeletonsFrom Params SkeletalNodes (S (length Before)) After st1 = Ok fin).
  { intros fin.
    assert (Hrun : forall t, MergeSkeletonsFrom Params SkeletalNodes 0
                               (UniqueSkeletons Params) (InitialState t)
                             = MergeSkeletonsFrom Params SkeletalNodes (S (length Before))
                                 After st1).
    { intros t. rewrite HU, MergeSkeletonsFrom_app.
      change (InitialState t) with (InitialState 0).
      rewrite Hst0, Ok_bind. cbn [MergeSkeletonsFrom Nat.add]. by rewrite HM1, Ok_bind. }
    unfold AccumulateSkeletons. split.
    - intros Hacc. destruct (decide _); [discriminate|]. inv_bind Hacc as t Ht.
      destruct (decide _); [discriminate|]. inv_bind Hacc as fin' Hfin.
      inversion Hacc; subst fin'. by rewrite <- (Hrun t).
    - intros Hfin.
      assert (Hsome : Forall is_Some (UniqueSkeletons Params)).
      { rewrite HU. apply Forall_app. split.
        - by eapply MergeSkeletonsFrom_valid.
        - constructor; [by eexists|]. by eapply MergeSkeletonsFrom_valid. }
      destruct (TotalPossibleBones_valid _ 0 Hsome) as [t Ht].
      rewrite decide_False.
      2: { rewrite HU, length_app. simpl. lia. }
      unfold TotalPossibleBones. rewrite Ht, Ok_bind.
      apply TotalPossibleBones_Ok in Ht as (_ & Hiff & _).
      rewrite decide_False.
      + by rewrite (Hrun t), Hfin.
      + intros ->. destruct Hiff as [Hiff _]. specialize (Hiff eq_refl).
        rewrite HU in Hiff. apply Forall_app in Hiff as [_ Hiff].
        apply Forall_cons in Hiff as [(Sk & Heq & Hnil) _]. inversion Heq; subst Sk.
        unfold n in Hlt. rewrite Hnil in Hlt. simpl in Hlt. lia. }
  exists st1. split; [exact HM1|]. do 6 (split; [done|]). split; [|split; [exact Hloop|]].
  - intros Later idx st Hf. unfold MergeSkeleton. simpl checked. rewrite Ok_bind.
    destruct (MergeBones Params SkeletalNodes idx Later
                (seq 0 (length (RawRefBoneInfo (ReferenceSkeleton Later)))) false st)
      as [st'| |] eqn:HMB; simpl; [|done|done].
    apply MergeBones_flag in HMB; [|done]. by rewrite Hflag, HMB.
  - intros fin Hacc. pose proof (proj1 (Hloop fin) Hacc) as Hfin.
    pose proof (MergeSkeletonsFrom_failed _ _ _ _ _ _ Hfin eq_refl) as Hfailed.
    unfold MergeSkeletons. rewrite Hacc, Ok_bind. by rewrite Hfailed.
Qed.


End MismatchAndGuards.


(** * The properties on concrete skeletons

    The engine of [Demo] runs the model; the skeletons and blueprint nodes
    are those of [Demo]. *)

#[local] Existing Instance Demo.DemoEngine.

(** C1, counterexample: two bones are filed under HashCombine(0,0), and
    PopulateSkeleton emits a skeleton all the same: the first of them with
    its child; the second one is left out. *)
Lemma C1_counterexample :
  RootCandidates Demo.TwoRoots = ["Root/1"; "Stray/1"]%string /\
  PopulateSkeleton 3 Demo.TwoRoots EmptyRefSkeleton = Ok Demo.TwoRootsOutput.
Proof. split; reflexivity. Qed.

(** C1 on the same hierarchy: the output is the first candidate and the
    bone found below it. *)
Lemma C1_witness :
  RootCandidates Demo.TwoRoots = ["Root/1"; "Stray/1"]%string /\
  Preorder 3 Demo.TwoRoots "Root/1" = Ok [("Arm/1"%string, Demo.At 1 0 0)] /\
  exists M,
    PopulateSkeleton 3 Demo.TwoRoots EmptyRefSkeleton = Ok M /\
    RawRefBoneInfo M !! 0%nat = Some (MkBoneInfo "Root/1" "Root/1" INDEX_NONE) /\
    BoneNames M = ["Root/1"; "Arm/1"]%string /\
    RawRefBonePose M = [Demo.At 0 0 0; Demo.At 1 0 0].
Proof.
  split; [reflexivity|]. split; [reflexivity|].
  destruct (proj1 (proj2 (C1_populate_needs_a_root (E := Demo.DemoEngine)
                             Demo.TwoRootAdds 3))
              "Root/1"%string ["Stray/1"%string] [("Arm/1"%string, Demo.At 1 0 0)]
              eq_refl eq_refl) as (pose & Hpose & Hif).
  assert (Heq : Some (Demo.At 0 0 0) = Some pose) by exact Hpose.
  injection Heq as <-.
  destruct (decide (NoDup ("Root/1"%string :: [("Arm/1"%string, Demo.At 1 0 0)].*1)))
    as [_|Hdup].
  - exact Hif.
  - destruct Hdup. apply (@bool_decide_eq_true_1 _ (@NoDup_dec string _ _)). reflexivity.
Defined.

(** C5 on the hierarchy of [Demo.TwoRoots]. *)
Lemma C5_witness :
  PopulateSkeleton 3 Demo.TwoRoots EmptyRefSkeleton = Ok Demo.TwoRootsOutput /\
  ParentsFirst Demo.TwoRoots Demo.TwoRootsOutput.
Proof.
  split; [reflexivity|].
  apply (C5_parent_before_child 3 Demo.TwoRoots Demo.TwoRootsOutput). reflexivity.
Defined.

(** C2, counterexample: Body and Tail merge into a skeleton of five bones.
    With Clash between them (its bone Arm, attached under Leg, has another
    chain hash than Body's Arm), the loop goes on to Tail, whose bone is
    accumulated, and the merge returns no skeleton although two usable
    sources remain. *)
Lemma C2_counterexample :
  MergeSkeletons 10 Demo.MergeNoClash Demo.Nodes
    = Ok (Some (MkSkeleton 4 EmptyString Demo.TailOutput [])) /\
  Log (Demo.ClashAccumulated) = [LogInvalidBoneChain "Clash"] /\
  BoneNamePose (MergedBoneHierarchy (Demo.ClashAccumulated)) !! "Tail/1"%string
    = Some (Demo.At 0 0 3) /\
  MergeSkeletons 10 Demo.MergeClash Demo.Nodes = Ok None.
Proof. repeat split; reflexivity. Qed.

Lemma Clash_mismatch : ChainMismatch Demo.Nodes 1 Demo.Clash 0 Demo.BodyChecked.
Proof.
  exists (Demo.Bone "Arm" (-1)), 2030065475, 4113017113.
  split; [reflexivity|]. split; [reflexivity|]. split; [reflexivity|]. discriminate.
Qed.

(** C2 on the merge of Body, Clash and Tail: Clash is left at its first
    bone, and the merge returns no skeleton. *)
Lemma C2_witness :
  ChainMismatch Demo.Nodes 1 Demo.Clash 0 Demo.BodyChecked /\
  exists st1,
    MergeSkeleton Demo.MergeClash Demo.Nodes 1 (Some Demo.Clash) Demo.BodyChecked = Ok st1 /\
    MergedBoneHierarchy st1 = MergedBoneHierarchy Demo.BodyChecked /\
    Log st1 = [LogInvalidBoneChain "Clash"] /\
    (forall fin, AccumulateSkeletons Demo.MergeClash Demo.Nodes = Ok (Some fin) <->
                 MergeSkeletonsFrom Demo.MergeClash Demo.Nodes 2 [Some Demo.Tail] st1
                   = Ok fin) /\
    (forall fin, AccumulateSkeletons Demo.MergeClash Demo.Nodes = Ok (Some fin) ->
                 MergeSkeletons 10 Demo.MergeClash Demo.Nodes = Ok None).
Proof.
  split; [exact Clash_mismatch|].
  destruct (C2_any_mismatch_fails_the_merge 10 Demo.MergeClash Demo.Nodes
              [Some Demo.Body] [Some Demo.Tail] Demo.Clash 0 Demo.BodyChecked
              Demo.BodyChecked eq_refl eq_refl eq_refl eq_refl eq_refl Clash_mismatch)
    as (st1 & H1 & H2 & _ & _ & _ & H6 & _ & _ & H9 & H10).
  exists st1. split; [exact H1|]. split; [exact H2|]. split; [exact H6|].
  split; [exact H9|exact H10].
Defined.


(** C7, counterexample: Body and Glove both declare the socket Grip on
    Hand; the output holds Glove's, the later one. *)
Lemma C7_counterexample :
  AllSockets (UniqueSkeletons Demo.MergeGlove) = [Demo.Grip 1; Demo.Grip 9] /\
  SocketHash (Demo.Grip 1) = SocketHash (Demo.Grip 9) /\
  MergeSkeletons 10 Demo.MergeGlove Demo.Nodes
    = Ok (Some (MkSkeleton 9 EmptyString Demo.GloveOutput [Demo.Grip 9])).
Proof. repeat split; reflexivity. Qed.

Lemma C7_witness :
  exists t,
    last (filter (fun x => SocketHash x = SocketHash (Demo.Grip 1))
            (AllSockets (UniqueSkeletons Demo.MergeGlove))) = Some t /\
    filter (fun x => SocketHash x = SocketHash (Demo.Grip 1)) [Demo.Grip 9] = [t].
Proof.
  apply (C7_sockets_last_occurrence_kept 10 Demo.MergeGlove Demo.Nodes
           (MkSkeleton 9 EmptyString Demo.GloveOutput [Demo.Grip 9]) (Demo.Grip 1)).
  - reflexivity.
  - reflexivity.
  - apply (list_elem_of_lookup_2 _ 0%nat). reflexivity.
Defined.

(** C10 on the merge of Body alone. *)
Lemma C10_witness :
  Forall (fun b => Renamed (SkeletonsToMerge Demo.MergeAlone) (Name b))
         (RawRefBoneInfo Demo.BodyOutput).
Proof.
  apply Forall_forall. intros b Hb.
  apply (proj2 (proj2 (C10_bones_renamed_with_slash_1 10 Demo.MergeAlone Demo.Nodes))
           (MkSkeleton 2 EmptyString Demo.BodyOutput []) b).
  - reflexivity.
  - exact Hb.
Defined.

Lemma Body_WellFormed : WellFormed Demo.BodyRef.
Proof.
  constructor.
  - reflexivity.
  - apply (@bool_decide_eq_true_1 _ (@NoDup_dec string _ _)). reflexivity.
  - intros b Hb. injection Hb as <-. reflexivity.
  - intros i b Hb.
    do 3 (destruct i as [|i]; [injection Hb as <-; simpl; lia|]). discriminate Hb.
Qed.

Lemma Twin_WellFormed : WellFormed (ReferenceSkeleton Demo.Twin).
Proof.
  constructor.
  - reflexivity.
  - apply (@bool_decide_eq_true_1 _ (@NoDup_dec string _ _)). reflexivity.
  - intros b Hb. injection Hb as <-. reflexivity.
  - intros i b Hb. discriminate Hb.
Qed.

Lemma Body_NoCollision : NoCollision Demo.BodyRef.
Proof. apply (@bool_decide_eq_true_1 _ (@NoDup_dec Z _ _)). vm_compute. reflexivity. Qed.


(** C4, counterexample.  The root of Body and the root of Twin have the
    same chain, and are recorded under different keys: Twin, merged second,
    has its root filed under its attach name.  The bone Hand of Body and the
    root Hand of GraftedHand, attached to Arm, have different chains, and
    are recorded under the same key: the output holds one bone Hand/1, with
    the pose of GraftedHand. *)
Lemma C4_counterexample :
  (BoneChain Demo.BodyRef 0 = ["Root"]%string /\
   BoneChain (ReferenceSkeleton Demo.Twin) 0 = ["Root"]%string /\
   PathToBoneNames (MergedBoneHierarchy Demo.BodyMerged) !! "Root/1"%string
     = Some 2030065475 /\
   MergeSkeleton Demo.MergeTwin Demo.Nodes 1 (Some Demo.Twin) Demo.BodyMerged
     = Ok Demo.TwinAccumulated /\
   PathToBoneNames (MergedBoneHierarchy Demo.TwinAccumulated) !! "Root/1"%string
     = Some 2295369650) /\
  (BoneChain Demo.BodyRef 2 = ["Root"; "Arm"; "Hand"]%string /\
   BoneChain (ReferenceSkeleton Demo.GraftedHand) 0 = ["Hand"]%string /\
   PathToBoneNames (MergedBoneHierarchy Demo.BodyMerged) !! "Hand/1"%string
     = Some 3570136619 /\
   MergeSkeleton Demo.MergeGraftedHand Demo.Nodes 1 (Some Demo.GraftedHand) Demo.BodyMerged
     = Ok Demo.GraftedHandAccumulated /\
   PathToBoneNames (MergedBoneHierarchy Demo.GraftedHandAccumulated) !! "Hand/1"%string
     = Some 3570136619 /\
   MergeSkeletons 10 Demo.MergeGraftedHand Demo.Nodes
     = Ok (Some (MkSkeleton 6 EmptyString Demo.GraftedHandOutput []))).
Proof. repeat split; reflexivity. Qed.

Lemma C4_witness :
  exists st1 st2,
    MergeSkeleton Demo.MergeAlone Demo.Nodes 0 (Some Demo.Body) (InitialState 4) = Ok st1 /\
    MergeSkeleton Demo.MergeTwin Demo.Nodes 0 (Some Demo.Twin) (InitialState 1) = Ok st2 /\
    PathToBoneNames (MergedBoneHierarchy st1) !! "Root/1"%string
      = Some (ChainHash ["Root"%string]) /\
    PathToBoneNames (MergedBoneHierarchy st2) !! "Root/1"%string
      = Some (ChainHash ["Root"%string]).
Proof.
  destruct (C4_first_source_key_is_chain_hash Demo.MergeAlone Demo.MergeTwin
              Demo.Nodes Demo.Nodes Demo.Body Demo.Twin 4 1
              Body_WellFormed Twin_WellFormed) as (st1 & st2 & H1 & H2 & HK).
  exists st1, st2. split; [exact H1|]. split; [exact H2|].
  destruct (HK 0%nat (Demo.Bone "Root" (-1)) 0%nat (Demo.Bone "Root" (-1)) eq_refl eq_refl)
    as (K1 & K2 & _).
  split; [exact K1|exact K2].
Defined.

(** C9, counterexample: the output of merging Body twice has the bones of
    Body under other names. *)
Lemma C9_counterexample :
  MergeSkeletons 10 Demo.MergeTwice Demo.Nodes
    = Ok (Some (MkSkeleton 2 EmptyString Demo.BodyOutput [])) /\
  BoneNames Demo.BodyOutput = ["Root/1"; "Arm/1"; "Hand/1"; "Leg/1"]%string /\
  BoneNames Demo.BodyRef = ["Root"; "Arm"; "Hand"; "Leg"]%string.
Proof. repeat split; reflexivity. Qed.

Lemma C9_witness :
  exists Out,
    MergeSkeletons 10 Demo.MergeTwice Demo.Nodes = Ok (Some Out) /\
    length (RawRefBoneInfo (ReferenceSkeleton Out)) = 4%nat /\
    zip (Name <$> RawRefBoneInfo (ReferenceSkeleton Out))
        (RawRefBonePose (ReferenceSkeleton Out))
      ≡ₚ zip ((fun b => String.append (Name b) "/1") <$> RawRefBoneInfo Demo.BodyRef)
             (RawRefBonePose Demo.BodyRef).
Proof.
  apply (C9_duplicated_skeleton_reproduced 10 1 Demo.MergeTwice Demo.Nodes Demo.Body).
  - reflexivity.
  - exact Body_WellFormed.
  - simpl. discriminate.
  - exact Body_NoCollision.
  - simpl. lia.
Defined.

(** C6, counterexample.  Blade2 is attached to Hand with the relative
    transform Shift 10, and its mesh asset passes the lookup of lines
    961-962.  Hand lies under Arm under Root in Body, with the local poses
    At 2 0 0, At 1 0 0 and At 0 0 0, so that it sits at (3, 0, 0) in the
    space of Body.  The root of Blade2 is entered at At 11 0 0: Shift 10
    applied to the location of its own bone 0, which is neither Shift 10
    applied to the place of Hand, (13, 0, 0), nor to its local pose,
    (12, 0, 0). *)
Lemma C6_counterexample :
  RawRefBoneInfo Demo.BodyRef
    = [Demo.Bone "Root" (-1); Demo.Bone "Arm" 0; Demo.Bone "Hand" 1; Demo.Bone "Leg" 0] /\
  RawRefBonePose Demo.BodyRef
    = [Demo.At 0 0 0; Demo.At 1 0 0; Demo.At 2 0 0; Demo.At 0 1 0] /\
  TransformPosition (Demo.Shift 10) (3, 0, 0) = (13, 0, 0) /\
  TransformPosition (Demo.Shift 10) (2, 0, 0) = (12, 0, 0) /\
  list_find (NodeUsesSkeleton Demo.Blade2) Demo.Nodes
    = Some (5%nat, Demo.NodeFor Demo.Blade2 "Hand" (Demo.Shift 10)) /\
  RawRefBonePose (ReferenceSkeleton Demo.Blade2) !! 0%nat = Some (Demo.At 1 0 0) /\
  MergeBone (Demo.Merge [] false false) Demo.Nodes 1 Demo.Blade2 0 false Demo.BodyMerged
    = Ok (Continue false Demo.Blade2Merged) /\
  BoneNamePose (MergedBoneHierarchy Demo.Blade2Merged) !! "Blade/1"%string
    = Some (Demo.At 11 0 0).
Proof. repeat split; reflexivity. Qed.

Lemma C6_witness :
  exists st',
    MergeBone (Demo.Merge [] false false) Demo.Nodes 1 Demo.Blade2 0 false Demo.BodyMerged
      = Ok (Continue false st') /\
    BoneNamePose (MergedBoneHierarchy st') !! "Blade/1"%string
      = Some (MkTransform (TransformRotation (Demo.Shift 10) tt)
                (TransformPosition (Demo.Shift 10) (1, 0, 0)) (1, 1, 1)).
Proof.
  assert (H1 : (0 < 1)%nat) by lia.
  assert (H2 : RawRefBoneInfo (ReferenceSkeleton Demo.Blade2) !! 0%nat
               = Some (Demo.Bone "Blade" (-1))) by reflexivity.
  assert (H3 : ParentIndex (Demo.Bone "Blade" (-1)) = INDEX_NONE) by reflexivity.
  assert (H4 : RawRefBonePose (ReferenceSkeleton Demo.Blade2) !! 0%nat
               = Some (Demo.At 1 0 0)) by reflexivity.
  assert (H5 : list_find (NodeUsesSkeleton Demo.Blade2) Demo.Nodes
               = Some (5%nat, Demo.NodeFor Demo.Blade2 "Hand" (Demo.Shift 10)))
    by reflexivity.
  assert (H6 : MeshHasBone (Demo.NodeFor Demo.Blade2 "Hand" (Demo.Shift 10))
                 (Slash1 (Name (Demo.Bone "Blade" (-1)))) = true) by reflexivity.
  destruct (C6_secondary_root_transform (Demo.Merge [] false false) Demo.Nodes 1
              Demo.Blade2 0 false Demo.BodyMerged (Demo.Bone "Blade" (-1)) (Demo.At 1 0 0)
              5 (Demo.NodeFor Demo.Blade2 "Hand" (Demo.Shift 10)) H1 H2 H3 H4 H5 H6)
    as (RootPose & H0 & Hstep & Hgo).
  injection H0 as <-.
  destruct (Hgo eq_refl) as [st' Hst'].
  exists st'. split; [exact Hst'|]. exact (proj2 (Hstep false st' Hst')).
Defined.

(** C8, counterexample.  Hand2, attached to Arm with the relative transform
    Shift 10, has the root Hand with the pose At 5 0 0, under the path key of
    Body's Hand, whose pose is At 2 0 0.  The merge goes on with a warning;
    the pose the merged hierarchy records for Hand/1 is neither: it is
    Shift 10 applied to the location of bone 0 of the mesh asset, which
    holds a bone called Hand/1. *)
Lemma C8_counterexample :
  BoneNamesToBonePose Demo.BodyChecked !! "Hand/1"%string = Some (Demo.At 2 0 0) /\
  RawRefBonePose (ReferenceSkeleton Demo.Hand2) !! 0%nat = Some (Demo.At 5 0 0) /\
  MergeBone (Demo.Merge [] false true) Demo.Nodes 1 Demo.Hand2 0 false Demo.BodyChecked
    = Ok (Continue true Demo.Hand2Merged) /\
  Log Demo.Hand2Merged = [LogDifferentReferencePose "Hand2"] /\
  BoneNamePose (MergedBoneHierarchy Demo.Hand2Merged) !! "Hand/1"%string
    = Some (Demo.At 15 0 0).
Proof. repeat split; reflexivity. Qed.

Lemma C8_witness :
  exists st',
    MergeBone (Demo.Merge [] false true) Demo.Nodes 1 Demo.GraftedHand 0 false
      Demo.BodyChecked = Ok (Continue true st') /\
    bMergeSkeletonsFailed st' = false /\
    Log st' = [LogDifferentReferencePose "GraftedHand"] /\
    BoneNamesToBonePose st' !! "Hand/1"%string = Some (Demo.At 5 0 0) /\
    BoneNamePose (MergedBoneHierarchy st') !! "Hand/1"%string = Some (Demo.At 5 0 0).
Proof.
  assert (H1 : bCheckSkeletonsCompatibility (Demo.Merge [] false true) = true)
    by reflexivity.
  assert (H2 : RawRefBoneInfo (ReferenceSkeleton Demo.GraftedHand) !! 0%nat
               = Some (Demo.Bone "Hand" (-1))) by reflexivity.
  assert (H3 : RawRefBonePose (ReferenceSkeleton Demo.GraftedHand) !! 0%nat
               = Some (Demo.At 5 0 0)) by reflexivity.
  assert (H4 : BoneParent Demo.Nodes 1 Demo.GraftedHand (Demo.Bone "Hand" (-1))
                 (BoneNode Demo.BodyChecked)
               = Ok (Some (Demo.NodeFor Demo.GraftedHand "Arm" (Demo.Shift 0)),
                     "Arm/1"%string, GetTypeHash "Arm/1"%string)) by reflexivity.
  assert (H5 : BoneNamesToPathHash Demo.BodyChecked !! Slash1 (Name (Demo.Bone "Hand" (-1)))
               = Some (HashCombine
                         (default 0 (BoneNamesToPathHash Demo.BodyChecked !! "Arm/1"%string))
                         (GetTypeHash "Arm/1"%string))) by reflexivity.
  assert (H6 : BoneNamesToBonePose Demo.BodyChecked !! Slash1 (Name (Demo.Bone "Hand" (-1)))
               = Some (Demo.At 2 0 0)) by reflexivity.
  assert (H7 : TransformEquals (Demo.At 2 0 0) (Demo.At 5 0 0) = false) by reflexivity.
  assert (H8 : GraftTransform 1 (Demo.Bone "Hand" (-1)) 0
                 (Slash1 (Name (Demo.Bone "Hand" (-1))))
                 (Some (Demo.NodeFor Demo.GraftedHand "Arm" (Demo.Shift 0))) (Demo.At 5 0 0)
               = Ok (Demo.At 5 0 0)) by reflexivity.
  destruct (C8_pose_conflict_last_wins (Demo.Merge [] false true) Demo.Nodes 1
              Demo.GraftedHand 0 false Demo.BodyChecked (Demo.Bone "Hand" (-1))
              (Demo.At 5 0 0) (Demo.At 2 0 0) (Demo.At 5 0 0)
              (Some (Demo.NodeFor Demo.GraftedHand "Arm" (Demo.Shift 0)))
              "Arm/1"%string (GetTypeHash "Arm/1"%string) H1 H2 H3 H4 H5 H6 H7 H8)
    as (st' & Hs & Hf & Hl & Hp & Hh & _).
  exists st'. split; [exact Hs|]. split; [exact Hf|]. split; [exact Hl|].
  split; [exact Hp|exact Hh].
Defined.

(** * The further properties on concrete inputs *)

#[local] Existing Instance Demo.DemoGuids.

(** X1 on the list of Body and a null entry. *)
Lemma X1_witness :
  None ∈ SkeletonsToMerge Demo.MergeWithNull /\
  MergeSkeletons 10 Demo.MergeWithNull Demo.Nodes = Crash.
Proof.
  assert (Hnull : None ∈ SkeletonsToMerge Demo.MergeWithNull).
  { apply (list_elem_of_lookup_2 _ 1%nat). reflexivity. }
  split; [exact Hnull|].
  exact (MergeSkeletons_null_entry 10 Demo.MergeWithNull Demo.Nodes Hnull).
Defined.

(** X2 on the merge of Body alone, which is not checked. *)
Lemma X2_witness :
  bCheckSkeletonsCompatibility Demo.MergeAlone = false /\
  (MergeSkeletons 10 Demo.MergeAlone Demo.Nodes = Ok None <->
   Forall (fun p => exists Sk, p = Some Sk /\ RawRefBoneInfo (ReferenceSkeleton Sk) = [])
          (UniqueSkeletons Demo.MergeAlone)).
Proof.
  split; [reflexivity|].
  apply (MergeSkeletons_unchecked_null_result 10 Demo.MergeAlone Demo.Nodes). reflexivity.
Defined.

(** X3 on the merge of Body and Blade: the output starts with Root/1. *)
Lemma X3_witness :
  MergeSkeletons 10 Demo.MergeBlade Demo.Nodes
    = Ok (Some (MkSkeleton 7 EmptyString Demo.BladeOutput [])) /\
  RawRefBoneInfo Demo.BladeOutput !! 0%nat
    = Some (MkBoneInfo (Slash1 "Root") (Slash1 "Root") INDEX_NONE).
Proof.
  split; [reflexivity|].
  apply (MergeSkeletons_root_is_first_root 10 Demo.MergeBlade Demo.Nodes Demo.Body
           [Some Demo.Blade] (Demo.Bone "Root" (-1))
           (MkSkeleton 7 EmptyString Demo.BladeOutput [])); reflexivity.
Defined.

(** X4 on the merge of Body and Blade. *)
Lemma X4_witness :
  MergeSkeletons 10 Demo.MergeBlade Demo.Nodes
    = Ok (Some (MkSkeleton 7 EmptyString Demo.BladeOutput [])) /\
  RawRefBoneInfo Demo.BladeOutput ≠ [] /\
  length (RawRefBonePose Demo.BladeOutput) = length (RawRefBoneInfo Demo.BladeOutput) /\
  exists st,
    AccumulateSkeletons Demo.MergeBlade Demo.Nodes = Ok (Some st) /\
    forall i b, RawRefBoneInfo Demo.BladeOutput !! i = Some b ->
      exists pose, RawRefBonePose Demo.BladeOutput !! i = Some pose /\
                   BoneNamePose (MergedBoneHierarchy st) !! Name b = Some pose.
Proof.
  split; [reflexivity|].
  apply (MergeSkeletons_output_poses 10 Demo.MergeBlade Demo.Nodes
           (MkSkeleton 7 EmptyString Demo.BladeOutput [])).
  reflexivity.
Defined.

(** X5 on the merge of Body and Glove, which merges the sockets. *)
Lemma X5_witness :
  MergeSkeletons 10 Demo.MergeGlove Demo.Nodes
    = Ok (Some (MkSkeleton 9 EmptyString Demo.GloveOutput [Demo.Grip 9])) /\
  (forall s, s ∈ [Demo.Grip 9] -> s ∈ AllSockets (UniqueSkeletons Demo.MergeGlove)) /\
  NoDup (SocketHash <$> [Demo.Grip 9]).
Proof.
  split; [reflexivity|].
  apply (MergeSkeletons_output_sockets 10 Demo.MergeGlove Demo.Nodes
           (MkSkeleton 9 EmptyString Demo.GloveOutput [Demo.Grip 9])).
  reflexivity.
Defined.

Lemma Layered_LayerStack : LayerStack (MaterialLayers Demo.Layered).
Proof. by split. Qed.

(** X7 on an instance with its background layer. *)
Lemma X7_witness :
  LayerStack (MaterialLayers Demo.Layered) /\
  exists Inst',
    UpdateMaterialLayers (Some Demo.Layered) (Some 2%N) (Some 3%N) true LinkedToParent 9%N
      = Ok (true, Some Inst') /\
    LayerStack (MaterialLayers Inst') /\
    (length (Layers (MaterialLayers Demo.Layered)) <= length (Layers (MaterialLayers Inst'))
       <= S (length (Layers (MaterialLayers Demo.Layered))))%nat /\
    take (pred (length (Layers (MaterialLayers Demo.Layered)))) (Layers (MaterialLayers Inst'))
      = take (pred (length (Layers (MaterialLayers Demo.Layered))))
             (Layers (MaterialLayers Demo.Layered)).
Proof.
  split; [exact Layered_LayerStack|].
  apply (UpdateMaterialLayers_keeps_stack Demo.Layered (Some 2%N) (Some 3%N) true
           LinkedToParent 9%N).
  exact Layered_LayerStack.
Defined.

(** X8: the update that added layer 2 is repeated with other arguments. *)
Lemma X8_witness :
  UpdateMaterialLayers (Some Demo.Layered) (Some 2%N) (Some 3%N) true LinkedToParent 9%N
    = Ok (true, Some Demo.LayeredTwice) /\
  UpdateMaterialLayers (Some Demo.LayeredTwice) (Some 2%N) None false Uninitialized 11%N
    = Ok (true, Some Demo.LayeredTwice) /\
  (true = true -> last (GetMaterialLayers (Some Demo.LayeredTwice)) = Some (Some 2%N)).
Proof.
  split; [reflexivity|].
  apply (UpdateMaterialLayers_idempotent (Some Demo.Layered) (Some Demo.LayeredTwice) 2%N
           (Some 3%N) None true false LinkedToParent Uninitialized 9%N 11%N true).
  reflexivity.
Defined.

(** X9: an empty layer with guid 5 is added to the instance, then filled. *)
Lemma X9_witness :
  5%N ≠ BackgroundGuid /\
  exists Inst1 Inst2,
    UpdateMaterialLayers
      (AddMaterialLayer (Some Demo.Layered) None None false Uninitialized 5%N)
      (Some 2%N) (Some 3%N) true LinkedToParent 9%N = Ok (true, Some Inst1) /\
    AddMaterialLayer (Some Demo.Layered) (Some 2%N) (Some 3%N) true LinkedToParent 9%N
      = Some Inst2 /\
    MaterialLayers Inst1 = MaterialLayers Inst2.
Proof.
  assert (Hguid : 5%N ≠ BackgroundGuid) by (simpl; discriminate).
  split; [exact Hguid|].
  exact (UpdateMaterialLayers_fills_placeholder Demo.Layered (Some 2%N) (Some 3%N) None
           true false LinkedToParent Uninitialized 9%N 5%N Hguid).
Defined.

(** X10 on an instance whose only layer is empty and has guid 5. *)
Lemma X10_witness :
  5%N ≠ BackgroundGuid /\
  UpdateMaterialLayers (Some Demo.Unblended) (Some 2%N) (Some 3%N) true LinkedToParent 9%N
    = Crash.
Proof.
  assert (Hguid : 5%N ≠ BackgroundGuid) by (simpl; discriminate).
  split; [exact Hguid|].
  apply (UpdateMaterialLayers_no_blend Demo.Unblended (Some 2%N) (Some 3%N) true
           LinkedToParent 9%N 5%N); [reflexivity|reflexivity|exact Hguid|reflexivity].
Defined.

(** X12 on the blueprint Knight: the body, held by the root node, comes
    before the blade. *)
Lemma X12_witness :
  Blueprint.GetSkeletalNodesByClass Demo.Knight = Ok [Demo.BladeNode; Demo.BodyNode] /\
  exists SkelMeshes,
    Blueprint.GetSkeletalMeshByClass Demo.Knight = Ok SkelMeshes /\
    SkelMeshes ≡ₚ omap SkeletalTemplate [Demo.BladeNode; Demo.BodyNode] /\
    match list_find (fun Node => Blueprint.IsRootNode Node = true /\
                                 is_Some (SkeletalTemplate Node))
                    [Demo.BladeNode; Demo.BodyNode] with
    | Some (_, Root) => head SkelMeshes = SkeletalTemplate Root
    | None => SkelMeshes = omap SkeletalTemplate [Demo.BladeNode; Demo.BodyNode]
    end.
Proof.
  split; [reflexivity|].
  apply (GetSkeletalMeshByClass_root_first Demo.Knight [Demo.BladeNode; Demo.BodyNode]).
  reflexivity.
Defined.
